(** * iKalibr: event preprocessing and the RGBD velocity factor

    A shallow embedding of
      - [src/src/core/event_preprocessing.cpp]
          (ActiveEventSurface, EventNormFlow, EventLocalPlaneSacProblem),
      - [src/include/factor/rgbd_velocity_factor.hpp]
          (OpticalFlowCorr, RGBDVelocityFactor),
    and the properties of the specification that concern them.

    C++ [double] is Rocq's primitive binary64 [float]: the operations round
    as IEEE 754 prescribes, comparisons with a NaN are false.  C++ [int],
    [std::uint16_t], [std::size_t] and Eigen/OpenCV indices are [Z] or [nat];
    the conversion to [std::uint16_t] wraps, [int] arithmetic on image and
    window sizes is taken to stay in range.  Dense matrices
    ([Eigen::MatrixXd], [cv::Mat]) are bounds-checked arrays: an access out
    of range, an assertion failure or undefined behaviour in the source, is
    [None] here.  Code of other libraries (Sophus, ctraj, OpenGV's RANSAC,
    Eigen's LDLT solver) enters as a type class of the operations used. *)

From Stdlib Require Import ZArith Lia Bool Floats Reals Lra.
From Stdlib Require Uint63.
From stdpp Require Import base option list list_numbers sorting.

Set Warnings "-inexact-float".
#[local] Open Scope Z_scope.

(** ** Dense two-dimensional arrays *)

Module Dense.

Record t (A : Type) : Type := mk { rows : Z; cols : Z; data : list A }.
Arguments mk {A} _ _ _.
Arguments rows {A} _.
Arguments cols {A} _.
Arguments data {A} _.

Section Ops.
Context {A : Type}.

(** [Eigen::MatrixXd::Zero(r, c)], [cv::Mat(size, type, scalar)]. *)
Definition fill (r c : Z) (a : A) : t A :=
  mk r c (replicate (Z.to_nat (r * c)) a).

Definition in_range (M : t A) (i j : Z) : bool :=
  (0 <=? i) && (i <? rows M) && (0 <=? j) && (j <? cols M).

Definition offset (M : t A) (i j : Z) : nat := Z.to_nat (i * cols M + j).

(** [M(i, j)] read, [M.at<T>(i, j)] read. *)
Definition get (M : t A) (i j : Z) : option A :=
  if in_range M i j then data M !! offset M i j else None.

(** [M(i, j) = a], [M.at<T>(i, j) = a]. *)
Definition set (M : t A) (i j : Z) (a : A) : option (t A) :=
  if in_range M i j
  then Some (mk (rows M) (cols M) (<[offset M i j := a]> (data M)))
  else None.

Definition wf (M : t A) : Prop :=
  0 <= rows M /\ 0 <= cols M /\ length (data M) = Z.to_nat (rows M * cols M).
End Ops.

End Dense.

Abbreviation MatrixXd := (Dense.t float).

(** ** Events *)

(** Modelled from the spec: [Event] is declared in sensor/event.h, outside
    the two files embedded here; section 3 gives it as
    {timestamp: float64, pixel: (uint, uint), polarity: bool}. *)
Record Event : Type := mkEvent {
  GetTimestamp : float;
  GetPos : Z * Z;
  GetPolarity : bool
}.

(** Modelled from the spec: [EventArray] (sensor/event.h), an ordered sequence
    of events with a reference timestamp. *)
Record EventArray : Type := mkEventArray {
  ea_timestamp : float;
  GetEvents : list Event
}.

(** Conversion to [std::uint16_t]. *)
Definition to_uint16 (z : Z) : Z := z mod 65536.

(** [std::array<T, 2>] indexed by an [int] that is 0 or 1. *)
Definition arr2_get {A} (a : A * A) (i : Z) : A :=
  if i =? 0 then fst a else snd a.

Definition arr2_set {A} (a : A * A) (i : Z) (v : A) : A * A :=
  if i =? 0 then (v, snd a) else (fst a, v).

(** ** ActiveEventSurface *)

(** The two fields of [ns_veta::PinholeIntrinsic] the surface reads. *)
Record PinholeIntrinsic : Type := mkIntri { imgWidth : Z; imgHeight : Z }.

Definition Vec3b : Type := Z * Z * Z.

Record ActiveEventSurface : Type := mkSurface {
  FILTER_THD : float;
  _intri : PinholeIntrinsic;
  _sae : MatrixXd * MatrixXd;
  _saeLatest : MatrixXd * MatrixXd;
  _timeLatest : float;
  _eventImgMat : Dense.t Vec3b
}.

(** [ActiveEventSurface::ActiveEventSurface(intri, filterThd)].  The image is
    [cv::Size(width, height)], that is height rows and width columns; the
    Eigen matrices are width by height. *)
Definition ActiveEventSurface_new (intri : PinholeIntrinsic) (filterThd : float)
  : ActiveEventSurface :=
  let zero := Dense.fill (imgWidth intri) (imgHeight intri) 0%float in
  {| FILTER_THD := filterThd;
     _intri := intri;
     _sae := (zero, zero);
     _saeLatest := (zero, zero);
     _timeLatest := 0%float;
     _eventImgMat := Dense.fill (imgHeight intri) (imgWidth intri) (0, 0, 0) |}.

(** [a[pol](x, y) = v] on a pair of matrices. *)
Definition arr2_write (a : MatrixXd * MatrixXd) (pol x y : Z) (v : float)
  : option (MatrixXd * MatrixXd) :=
  M ← Dense.set (arr2_get a pol) x y v;
  Some (arr2_set a pol M).

(** [ActiveEventSurface::GrabEvent(const Event::Ptr &, bool)]. *)
Definition GrabEvent (s : ActiveEventSurface) (event : Event) (drawEventMat : bool)
  : option ActiveEventSurface :=
  let ep := GetPolarity event in
  let ex := to_uint16 (fst (GetPos event)) in
  let ey := to_uint16 (snd (GetPos event)) in
  let et := GetTimestamp event in
  let pol := if ep then 1 else 0 in
  let polInv := if negb ep then 1 else 0 in
  tLast ← Dense.get (arr2_get (_saeLatest s) pol) ex ey;
  tLastInv ← Dense.get (arr2_get (_saeLatest s) polInv) ex ey;
  '(sae', latest') ←
    (if (tLast + FILTER_THD s <? et)%float || (tLast <? tLastInv)%float
     then
       latest' ← arr2_write (_saeLatest s) pol ex ey et;
       sae' ← arr2_write (_sae s) pol ex ey et;
       Some (sae', latest')
     else
       latest' ← arr2_write (_saeLatest s) pol ex ey et;
       Some (_sae s, latest'));
  img' ←
    (if drawEventMat
     then Dense.set (_eventImgMat s) ey ex
            (if ep then (255, 0, 0) else (0, 0, 255))
     else Some (_eventImgMat s));
  Some {| FILTER_THD := FILTER_THD s;
          _intri := _intri s;
          _sae := sae';
          _saeLatest := latest';
          _timeLatest := et;
          _eventImgMat := img' |}.

(** [ActiveEventSurface::GrabEvent(const EventArray::Ptr &, bool)]: the events
    of the batch in order. *)
Fixpoint GrabEvents (s : ActiveEventSurface) (events : list Event)
    (drawEventMat : bool) : option ActiveEventSurface :=
  match events with
  | [] => Some s
  | event :: rest => s' ← GrabEvent s event drawEventMat; GrabEvents s' rest drawEventMat
  end.

Definition GrabEventArray (s : ActiveEventSurface) (events : EventArray)
    (drawEventMat : bool) : option ActiveEventSurface :=
  GrabEvents s (GetEvents events) drawEventMat.

(** [ActiveEventSurface::GetTimeLatest]. *)
Definition GetTimeLatest (s : ActiveEventSurface) : float := _timeLatest s.

(** Reading [_sae[pol](x, y)] and [_saeLatest[pol](x, y)], the polarity given
    as the [bool] of the event. *)
Definition pol_index (p : bool) : Z := if p then 1 else 0.

Definition sae_at (s : ActiveEventSurface) (p : bool) (x y : Z) : option float :=
  Dense.get (arr2_get (_sae s) (pol_index p)) x y.

Definition saeLatest_at (s : ActiveEventSurface) (p : bool) (x y : Z) : option float :=
  Dense.get (arr2_get (_saeLatest s) (pol_index p)) x y.

(** *** Well-formed surfaces and the effect of one event *)

Definition mat_ok {A} (r c : Z) (M : Dense.t A) : Prop :=
  Dense.wf M /\ Dense.rows M = r /\ Dense.cols M = c.

Definition pair_ok (r c : Z) (a : MatrixXd * MatrixXd) : Prop :=
  mat_ok r c (fst a) /\ mat_ok r c (snd a).

(** The shape the constructor establishes and every event keeps. *)
Definition surface_ok (s : ActiveEventSurface) : Prop :=
  let w := imgWidth (_intri s) in
  let h := imgHeight (_intri s) in
  pair_ok w h (_sae s) /\ pair_ok w h (_saeLatest s) /\ mat_ok h w (_eventImgMat s).

(** The pixel an event addresses, and whether the image holds it. *)
Definition pixel_of (e : Event) : Z * Z :=
  (to_uint16 (fst (GetPos e)), to_uint16 (snd (GetPos e))).

Definition pixel_in (s : ActiveEventSurface) (x y : Z) : Prop :=
  0 <= x < imgWidth (_intri s) /\ 0 <= y < imgHeight (_intri s).

(** The test of [GrabEvent], on the two values it reads. *)
Definition debounce_pass (thd tLast tLastInv et : float) : bool :=
  (tLast + thd <? et)%float || (tLast <? tLastInv)%float.

Definition rd (a : MatrixXd * MatrixXd) (p : bool) (x y : Z) : option float :=
  Dense.get (arr2_get a (pol_index p)) x y.

Definition fresh_64x48 : ActiveEventSurface :=
  ActiveEventSurface_new (mkIntri 64 48) 0.01%float.

Definition ev (t : float) (x y : Z) (p : bool) : Event := mkEvent t (x, y) p.


(** *** Timestamps in order *)

Definition ts_le (a b : Event) : Prop :=
  (GetTimestamp a <=? GetTimestamp b)%float = true.


(** The invariant of section 3, at every pixel of the image. *)
Definition sae_le_saeLatest (s : ActiveEventSurface) : Prop :=
  forall p x y, pixel_in s x y ->
    exists a b, sae_at s p x y = Some a /\ saeLatest_at s p x y = Some b
                /\ (a <=? b)%float = true.

(** Every entry of [sae] is at most the time of every event still to come. *)
Definition sae_below (s : ActiveEventSurface) (rest : list Event) : Prop :=
  forall p x y a, sae_at s p x y = Some a ->
    Forall (fun e => (a <=? GetTimestamp e)%float = true) rest.


(** *** The debounce rule *)

(** The rule as section 4.1 words it, with [tLast] and [tLastInv] read from
    [sae]. *)
Definition debounce_rule_reading_sae (s : ActiveEventSurface) (e : Event)
    (draw : bool) : Prop :=
  let p := GetPolarity e in
  let x := fst (pixel_of e) in
  let y := snd (pixel_of e) in
  let t := GetTimestamp e in
  match GrabEvent s e draw, sae_at s p x y, sae_at s (negb p) x y with
  | Some s', Some tLast, Some tLastInv =>
      if debounce_pass (FILTER_THD s) tLast tLastInv t
      then sae_at s' p x y = Some t
      else sae_at s' p x y = sae_at s p x y /\ saeLatest_at s' p x y = Some t
  | _, _, _ => True
  end.


(** ** Scalars and small fixed-size algebra *)

(** The scalar type [T] of the templated code: [double], or a number for
    automatic differentiation built on it. *)
Class Scalar (T : Type) : Type := {
  of_double : float -> T;
  s_add : T -> T -> T;
  s_sub : T -> T -> T;
  s_mul : T -> T -> T;
  s_div : T -> T -> T;
  s_opp : T -> T;
  s_abs : T -> T
}.

Declare Scope scalar_scope.
Delimit Scope scalar_scope with S.
Infix "+" := s_add : scalar_scope.
Infix "-" := s_sub : scalar_scope.
Infix "*" := s_mul : scalar_scope.
Infix "/" := s_div : scalar_scope.
Notation "- x" := (s_opp x) : scalar_scope.

#[export] Instance Scalar_double : Scalar float := {|
  of_double := fun x => x;
  s_add := PrimFloat.add;
  s_sub := PrimFloat.sub;
  s_mul := PrimFloat.mul;
  s_div := PrimFloat.div;
  s_opp := PrimFloat.opp;
  s_abs := PrimFloat.abs
|}.



(** [(double) n] for an [int] [n]. *)
Definition double_of_int (z : Z) : float :=
  if z <? 0 then (- of_uint63 (Uint63.of_Z (- z)))%float
  else of_uint63 (Uint63.of_Z z).

(** [(int) x] for a [double] [x]: truncation towards zero. *)
Definition int_of_double (x : float) : Z :=
  match Prim2SF x with
  | S754_finite s m e =>
      let v := if 0 <=? e then Z.pos m * 2 ^ e else Z.pos m / 2 ^ (- e) in
      if s then - v else v
  | _ => 0
  end.

(** [std::array<T, 3>]. *)
Definition arr3 (T : Type) : Type := T * T * T.

Definition arr3_at {T} (a : arr3 T) (i : Z) : T :=
  let '(a0, a1, a2) := a in
  if i =? 0 then a0 else if i =? 1 then a1 else a2.

(** [for (int i = 0; i < 3; ++i) a[i] = f(i);] *)
Definition arr3_init {T} (f : Z -> T) : arr3 T := (f 0, f 1, f 2).

(** [Eigen::Vector2<T>], [Eigen::Vector3<T>], [Eigen::Matrix<T, 2, 3>] and
    [Eigen::Matrix<T, 3, 3>], the matrices by rows. *)
Definition Vec2 (T : Type) : Type := T * T.
Definition Vec3 (T : Type) : Type := T * T * T.
Definition Mat23 (T : Type) : Type := Vec3 T * Vec3 T.
Definition Mat33 (T : Type) : Type := Vec3 T * Vec3 T * Vec3 T.

Section Algebra.
Context {T : Type} `{Scalar T}.
#[local] Open Scope scalar_scope.

Definition dot3 (a b : Vec3 T) : T :=
  let '(a0, a1, a2) := a in
  let '(b0, b1, b2) := b in
  a0 * b0 + a1 * b1 + a2 * b2.

Definition vec2_add (a b : Vec2 T) : Vec2 T := (fst a + fst b, snd a + snd b).
Definition vec2_sub (a b : Vec2 T) : Vec2 T := (fst a - fst b, snd a - snd b).
Definition scal_vec2 (s : T) (a : Vec2 T) : Vec2 T := (s * fst a, s * snd a).

Definition vec3_add (a b : Vec3 T) : Vec3 T :=
  let '(a0, a1, a2) := a in
  let '(b0, b1, b2) := b in
  (a0 + b0, a1 + b1, a2 + b2).

Definition vec3_map (f : T -> T) (a : Vec3 T) : Vec3 T :=
  let '(a0, a1, a2) := a in (f a0, f a1, f a2).

Definition mat23_vec3 (M : Mat23 T) (v : Vec3 T) : Vec2 T :=
  (dot3 (fst M) v, dot3 (snd M) v).

Definition scal_mat23 (s : T) (M : Mat23 T) : Mat23 T :=
  (vec3_map (s_mul s) (fst M), vec3_map (s_mul s) (snd M)).

Definition mat33_vec3 (M : Mat33 T) (v : Vec3 T) : Vec3 T :=
  let '(r0, r1, r2) := M in (dot3 r0 v, dot3 r1 v, dot3 r2 v).

Definition mat33_opp (M : Mat33 T) : Mat33 T :=
  let '(r0, r1, r2) := M in (vec3_map s_opp r0, vec3_map s_opp r1, vec3_map s_opp r2).

(** [Eigen::Map<const Eigen::Vector3<T>>(block)]. *)
Definition vec3_of_block (b : list T) : option (Vec3 T) :=
  x ← b !! 0%nat; y ← b !! 1%nat; z ← b !! 2%nat; Some (x, y, z).

End Algebra.

(** ** OpticalFlowCorr *)

(** The one thing read of a [CameraFrame]: [frame->GetImage().rows]. *)
Record CameraFrame : Type := mkFrame { GetImage_rows : Z }.

Record OpticalFlowCorr : Type := mkCorr {
  timeAry : arr3 float;
  xTraceAry : arr3 float;
  yTraceAry : arr3 float;
  rdFactorAry : arr3 float;
  depth : float;
  invDepth : float;
  frame : CameraFrame;
  withDepthObservability : bool;
  weight : float
}.

Definition MID : Z := 1.

(** [OpticalFlowCorr::OpticalFlowCorr]. *)
Definition OpticalFlowCorr_new (timeAry xTraceAry yTraceAry : arr3 float)
    (depth : float) (frame : CameraFrame) (rsExpFactor : float) : OpticalFlowCorr :=
  let imgHeight := GetImage_rows frame in
  {| timeAry := timeAry;
     xTraceAry := xTraceAry;
     yTraceAry := yTraceAry;
     rdFactorAry :=
       arr3_init (fun i =>
         (arr3_at yTraceAry i / double_of_int imgHeight - rsExpFactor)%float);
     depth := depth;
     invDepth := if (0.001 <? depth)%float then (1.0 / depth)%float else (-1.0)%float;
     frame := frame;
     withDepthObservability := false;
     weight := 1.0%float |}.

(** The inverse depth as the specification words it: the sentinel for a
    depth [d <= 1E-3], [1 / d] otherwise. *)
Definition inverse_depth_as_worded (d : float) : float :=
  if (d <=? 0.001)%float then (-1.0)%float else (1.0 / d)%float.

(** A correspondence with a given depth. *)
Definition corr_of_depth (d : float) : OpticalFlowCorr :=
  OpticalFlowCorr_new (0.9, 1.0, 1.1)%float (100, 102, 104)%float (50, 51, 52)%float
    d (mkFrame 480) 0.5%float.

(** [OpticalFlowCorr::MidPoint]. *)
Definition MidPoint (c : OpticalFlowCorr) : Vec2 float :=
  (arr3_at (xTraceAry c) MID, arr3_at (yTraceAry c) MID).

(** [OpticalFlowCorr::MidReadoutFactor]. *)
Definition MidReadoutFactor (c : OpticalFlowCorr) : float := arr3_at (rdFactorAry c) MID.

(** The helper of util/utils_tpl.hpp that [MidPointVel] calls, taken as
    given. *)
Class Utils (T : Type) : Type := {
  LagrangePolynomialTripleMidFOD : arr3 T -> arr3 T -> T
}.

Section OpticalFlowCorrTemplates.
Context {T : Type} `{Scalar T} `{Utils T}.
#[local] Open Scope scalar_scope.

(** [OpticalFlowCorr::MidPointTime<Type>]. *)
Definition MidPointTime (c : OpticalFlowCorr) (readout : T) : T :=
  of_double (arr3_at (timeAry c) MID) + of_double (arr3_at (rdFactorAry c) MID) * readout.

(** [OpticalFlowCorr::MidPointVel<Type>].  The two branches of the
    [if constexpr] differ by the casts of the traces to [Type], the identity
    when [Type] is [double]. *)
Definition MidPointVel (c : OpticalFlowCorr) (readout : T) : Vec2 T :=
  let newTimeAry := arr3_init (fun i =>
    of_double (arr3_at (timeAry c) i) + of_double (arr3_at (rdFactorAry c) i) * readout) in
  let newXAry := arr3_init (fun i => of_double (arr3_at (xTraceAry c) i)) in
  let newYAry := arr3_init (fun i => of_double (arr3_at (yTraceAry c) i)) in
  (LagrangePolynomialTripleMidFOD newTimeAry newXAry,
   LagrangePolynomialTripleMidFOD newTimeAry newYAry).

End OpticalFlowCorrTemplates.

(** ** RGBDVelocityFactor *)

(** What the factor uses of [Sophus::SO3<T>]. *)
Class SophusSO3 (T SO3 : Type) : Type := {
  (** [Eigen::Map<const Sophus::SO3<T>>(block)] *)
  SO3_of_block : list T -> SO3;
  SO3_inverse : SO3 -> SO3;
  (** [R1 * R2] *)
  SO3_mul : SO3 -> SO3 -> SO3;
  (** [R * v] *)
  SO3_act : SO3 -> Vec3 T -> Vec3 T;
  (** [Sophus::SO3<T>::hat(v)] *)
  SO3_hat : Vec3 T -> Mat33 T
}.

(** What the factor uses of [ns_ctraj::SplineMeta<Order>] and of
    [ns_ctraj::CeresSplineHelperJet<T, Order>].  The evaluators receive the
    [Order] knot blocks that start at the pointer passed in the source. *)
Class CTraj (T SO3 Meta : Type) : Type := {
  NumParameters : Meta -> nat;
  (** [ComputeSplineIndex(time, i, u)]: no result outside the knot span. *)
  ComputeSplineIndex : Meta -> T -> option (nat * T);
  (** [segments.front().dt] *)
  segments_front_dt : Meta -> float;
  (** [EvaluateLie(knots, u, dtInv, &so3, &angVel)] *)
  EvaluateLie : list (list T) -> T -> float -> SO3 * Vec3 T;
  (** [Evaluate<3, TimeDeriv>(knots, u, dtInv, &vec)] *)
  Evaluate : Z -> list (list T) -> T -> float -> Vec3 T
}.

Record RGBDVelocityFactor (Meta : Type) : Type := mkFactor {
  _so3Meta : Meta;
  _scaleMeta : Meta;
  _corr : OpticalFlowCorr;
  _so3DtInv : float;
  _scaleDtInv : float;
  _weight : float
}.
Arguments mkFactor {Meta} _ _ _ _ _ _.
Arguments _so3Meta {Meta} _.
Arguments _scaleMeta {Meta} _.
Arguments _corr {Meta} _.
Arguments _so3DtInv {Meta} _.
Arguments _scaleDtInv {Meta} _.
Arguments _weight {Meta} _.

Section Factor.
Context {T SO3 Meta : Type} `{Scalar T} `{Utils T} `{SophusSO3 T SO3} `{CTraj T SO3 Meta}.
(** The template parameters [Order], [TimeDeriv] and [IsInvDepth]. *)
Variables (Order : nat) (TimeDeriv : Z) (IsInvDepth : bool).
#[local] Open Scope scalar_scope.

(** [RGBDVelocityFactor::RGBDVelocityFactor]. *)
Definition RGBDVelocityFactor_new (so3Meta scaleMeta : Meta) (corr : OpticalFlowCorr)
    (weight : float) : RGBDVelocityFactor Meta :=
  {| _so3Meta := so3Meta;
     _scaleMeta := scaleMeta;
     _corr := corr;
     _so3DtInv := (1.0 / segments_front_dt so3Meta)%float;
     _scaleDtInv := (1.0 / segments_front_dt scaleMeta)%float;
     _weight := weight |}.

(** [RGBDVelocityFactor::SubAMat]. *)
Definition SubAMat (fx fy up vp : T) : Mat23 T :=
  ((- fx, of_double 0, up),
   (of_double 0, - fy, vp)).

(** [RGBDVelocityFactor::SubBMat]. *)
Definition SubBMat (fx fy up vp : T) : Mat23 T :=
  ((up * vp / fy, - fx - up * up / fx, fx * vp / fy),
   (fy + vp * vp / fy, - up * vp / fx, - fy * up / fx)).

(** [RGBDVelocityFactor::SubMats]. *)
Definition SubMats (fx fy cx cy : T) (feat : Vec2 T) : Mat23 T * Mat23 T :=
  let up := fst feat - cx in
  let vp := snd feat - cy in
  (SubAMat fx fy up vp, SubBMat fx fy up vp).

(** [sKnots[offset][0]]. *)
Definition block0 (sKnots : list (list T)) (offset : nat) : option T :=
  b ← sKnots !! offset; b !! 0%nat.

(** [RGBDVelocityFactor::operator()]: the residual written to [sResiduals]. *)
Definition operator_call (f : RGBDVelocityFactor Meta) (sKnots : list (list T))
  : option (Vec2 T) :=
  let SO3_DnToBr_OFFSET :=
    (NumParameters (_so3Meta f) + NumParameters (_scaleMeta f))%nat in
  let POS_DnInBr_OFFSET := (SO3_DnToBr_OFFSET + 1)%nat in
  let TO_DnToBr_OFFSET := (POS_DnInBr_OFFSET + 1)%nat in
  let READOUT_TIME_OFFSET := (TO_DnToBr_OFFSET + 1)%nat in
  let FX_OFFSET := (READOUT_TIME_OFFSET + 1)%nat in
  let FY_OFFSET := (FX_OFFSET + 1)%nat in
  let CX_OFFSET := (FY_OFFSET + 1)%nat in
  let CY_OFFSET := (CX_OFFSET + 1)%nat in
  let ALPHA_OFFSET := (CY_OFFSET + 1)%nat in
  let BETA_OFFSET := (ALPHA_OFFSET + 1)%nat in
  let DEPTH_INFO_OFFSET := (BETA_OFFSET + 1)%nat in
  SO3_DnToBr ← SO3_of_block <$> sKnots !! SO3_DnToBr_OFFSET;
  POS_DnInBr ← sKnots !! POS_DnInBr_OFFSET ≫= vec3_of_block;
  let SO3_BrToDn := SO3_inverse SO3_DnToBr in
  TO_DnToBr ← block0 sKnots TO_DnToBr_OFFSET;
  READOUT_TIME ← block0 sKnots READOUT_TIME_OFFSET;
  FX ← block0 sKnots FX_OFFSET;
  FY ← block0 sKnots FY_OFFSET;
  CX ← block0 sKnots CX_OFFSET;
  CY ← block0 sKnots CY_OFFSET;
  ALPHA ← block0 sKnots ALPHA_OFFSET;
  BETA ← block0 sKnots BETA_OFFSET;
  DEPTH_INFO ← block0 sKnots DEPTH_INFO_OFFSET;
  let timeByBr := MidPointTime (_corr f) READOUT_TIME + TO_DnToBr in
  iuSo3 ← ComputeSplineIndex (_so3Meta f) timeByBr;
  iuScale ← ComputeSplineIndex (_scaleMeta f) timeByBr;
  let SO3_OFFSET := fst iuSo3 in
  let LIN_SCALE_OFFSET := (fst iuScale + NumParameters (_so3Meta f))%nat in
  let '(SO3_BrToBr0, ANG_VEL_BrToBr0InBr) :=
    EvaluateLie (take Order (drop SO3_OFFSET sKnots)) (snd iuSo3) (_so3DtInv f) in
  let ANG_VEL_BrToBr0InBr0 := SO3_act SO3_BrToBr0 ANG_VEL_BrToBr0InBr in
  let ANG_VEL_DnToBr0InDn := SO3_act SO3_BrToDn ANG_VEL_BrToBr0InBr in
  let LIN_VEL_BrToBr0InBr0 :=
    Evaluate TimeDeriv (take Order (drop LIN_SCALE_OFFSET sKnots)) (snd iuScale)
      (_scaleDtInv f) in
  let LIN_VEL_DnToBr0InBr0 :=
    vec3_add
      (mat33_vec3 (mat33_opp (SO3_hat (SO3_act SO3_BrToBr0 POS_DnInBr)))
         ANG_VEL_BrToBr0InBr0)
      LIN_VEL_BrToBr0InBr0 in
  let LIN_VEL_DnToBr0InDn :=
    SO3_act (SO3_mul SO3_BrToDn (SO3_inverse SO3_BrToBr0)) LIN_VEL_DnToBr0InBr0 in
  let '(subAMat, subBMat) :=
    SubMats FX FY CX CY
      (of_double (fst (MidPoint (_corr f))), of_double (snd (MidPoint (_corr f)))) in
  let pred :=
    if IsInvDepth
    then vec2_add
           (mat23_vec3 (scal_mat23 (DEPTH_INFO / (ALPHA + BETA * DEPTH_INFO)) subAMat)
              LIN_VEL_DnToBr0InDn)
           (mat23_vec3 subBMat ANG_VEL_DnToBr0InDn)
    else vec2_add
           (mat23_vec3 (scal_mat23 (of_double 1.0 / (ALPHA * DEPTH_INFO + BETA)) subAMat)
              LIN_VEL_DnToBr0InDn)
           (mat23_vec3 subBMat ANG_VEL_DnToBr0InDn) in
  Some (scal_vec2 (of_double (_weight f))
          (vec2_sub pred (MidPointVel (_corr f) READOUT_TIME))).

(** *** The parameter blocks by name, and the residual on vectors *)

(** The parameter blocks by name. *)
Record CalibParams : Type := mkParams {
  so3_knots : list (list T);
  scale_knots : list (list T);
  p_SO3_DnToBr : list T;
  p_POS_DnInBr : Vec3 T;
  p_TO_DnToBr : T;
  p_READOUT_TIME : T;
  p_FX : T;
  p_FY : T;
  p_CX : T;
  p_CY : T;
  p_ALPHA : T;
  p_BETA : T;
  p_DEPTH_INFO : T
}.

(** The fixed order of the blocks. *)
Definition param_blocks (P : CalibParams) : list (list T) :=
  so3_knots P ++ scale_knots P ++
  [ p_SO3_DnToBr P;
    (let '(x, y, z) := p_POS_DnInBr P in [x; y; z]);
    [p_TO_DnToBr P]; [p_READOUT_TIME P];
    [p_FX P]; [p_FY P]; [p_CX P]; [p_CY P];
    [p_ALPHA P]; [p_BETA P]; [p_DEPTH_INFO P] ].

(** Step 1: [midTime + rowFactor * readout + timeOffset]. *)
Definition spec_body_time (c : OpticalFlowCorr) (P : CalibParams) : T :=
  of_double (arr3_at (timeAry c) 1) + of_double (arr3_at (rdFactorAry c) 1) * p_READOUT_TIME P
  + p_TO_DnToBr P.

(** Steps 2 to 4: both splines queried at [time], then the linear and the
    angular velocity in the frame of the depth sensor. *)
Definition sensor_frame_velocities (f : RGBDVelocityFactor Meta) (P : CalibParams)
    (time : T) : option (Vec3 T * Vec3 T) :=
  '(i1, u1) ← ComputeSplineIndex (_so3Meta f) time;
  '(i2, u2) ← ComputeSplineIndex (_scaleMeta f) time;
  let '(R, angVel) := EvaluateLie (take Order (drop i1 (so3_knots P))) u1 (_so3DtInv f) in
  let linVel := Evaluate TimeDeriv (take Order (drop i2 (scale_knots P))) u2 (_scaleDtInv f) in
  let R_BrToDn := SO3_inverse (SO3_of_block (p_SO3_DnToBr P)) in
  let angVelInBr0 := SO3_act R angVel in
  let linVelDnInBr0 :=
    vec3_add (mat33_vec3 (mat33_opp (SO3_hat (SO3_act R (p_POS_DnInBr P)))) angVelInBr0)
      linVel in
  Some (SO3_act (SO3_mul R_BrToDn (SO3_inverse R)) linVelDnInBr0,
        SO3_act R_BrToDn angVel).

(** The observed pixel velocity: the three-point derivative of the x and of
    the y trace at the middle sample, sample [i] at time
    [timeAry[i] + rdFactorAry[i] * readout]. *)
Definition spec_observed (c : OpticalFlowCorr) (readout : T) : Vec2 T :=
  let t i := of_double (arr3_at (timeAry c) i) + of_double (arr3_at (rdFactorAry c) i) * readout in
  let cast (a : arr3 float) : arr3 T :=
    (of_double (arr3_at a 0), of_double (arr3_at a 1), of_double (arr3_at a 2)) in
  (LagrangePolynomialTripleMidFOD (t 0, t 1, t 2) (cast (xTraceAry c)),
   LagrangePolynomialTripleMidFOD (t 0, t 1, t 2) (cast (yTraceAry c))).

(** The caller's side of the contract: as many knot blocks as the metas
    announce, and spline indices that leave [Order] knots. *)
Definition layout_ok (f : RGBDVelocityFactor Meta) (P : CalibParams) : Prop :=
  length (so3_knots P) = NumParameters (_so3Meta f)
  /\ length (scale_knots P) = NumParameters (_scaleMeta f)
  /\ (forall i u, ComputeSplineIndex (_so3Meta f) (spec_body_time (_corr f) P) = Some (i, u) ->
        (i + Order <= length (so3_knots P))%nat)
  /\ (forall i u, ComputeSplineIndex (_scaleMeta f) (spec_body_time (_corr f) P) = Some (i, u) ->
        (i + Order <= length (scale_knots P))%nat).

End Factor.

(** *** The residual written out on scalars *)

(** Section 4.4 once more, every vector and matrix operation written out on
    its components, to be compared with [operator_call]. *)
Section ResidualInScalars.
Context {T SO3 Meta : Type} `{Scalar T} `{Utils T} `{SophusSO3 T SO3} `{CTraj T SO3 Meta}.
Variables (Order : nat) (TimeDeriv : Z).
#[local] Open Scope scalar_scope.

(** Step 1: the body-clock time of the anchor sample,
    [midTime + rowFactor * readout + timeOffset]. *)
Definition anchor_body_time (c : OpticalFlowCorr) (readout timeOffset : T) : T :=
  let '(_, midTime, _) := timeAry c in
  let '(_, rowFactor, _) := rdFactorAry c in
  of_double midTime + of_double rowFactor * readout + timeOffset.

(** The observed pixel velocity: the three-point derivative of the x and of
    the y trace at the middle sample, sample [i] at time
    [timeAry[i] + rdFactorAry[i] * readout]. *)
Definition observed_pixel_velocity (c : OpticalFlowCorr) (readout : T) : T * T :=
  let '(t0, t1, t2) := timeAry c in
  let '(r0, r1, r2) := rdFactorAry c in
  let '(x0, x1, x2) := xTraceAry c in
  let '(y0, y1, y2) := yTraceAry c in
  let times :=
    (of_double t0 + of_double r0 * readout,
     of_double t1 + of_double r1 * readout,
     of_double t2 + of_double r2 * readout) in
  (LagrangePolynomialTripleMidFOD times (of_double x0, of_double x1, of_double x2),
   LagrangePolynomialTripleMidFOD times (of_double y0, of_double y1, of_double y2)).

(** Steps 2 to 4: both splines queried at [time]; the linear velocity of
    the sensor, [- hat(R p) w + v] turned into the sensor frame, and the
    angular velocity in the sensor frame. *)
Definition sensor_velocities_at (f : RGBDVelocityFactor Meta) (P : CalibParams)
    (time : T) : option (Vec3 T * Vec3 T) :=
  '(i1, u1) ← ComputeSplineIndex (_so3Meta f) time;
  '(i2, u2) ← ComputeSplineIndex (_scaleMeta f) time;
  let '(R, angVel) := EvaluateLie (take Order (drop i1 (so3_knots P))) u1 (_so3DtInv f) in
  let '(v0, v1, v2) :=
    Evaluate TimeDeriv (take Order (drop i2 (scale_knots P))) u2 (_scaleDtInv f) in
  let R_BrToDn := SO3_inverse (SO3_of_block (p_SO3_DnToBr P)) in
  let '(w0, w1, w2) := SO3_act R angVel in
  let '((h00, h01, h02), (h10, h11, h12), (h20, h21, h22)) :=
    SO3_hat (SO3_act R (p_POS_DnInBr P)) in
  Some (SO3_act (SO3_mul R_BrToDn (SO3_inverse R))
          ((- h00) * w0 + (- h01) * w1 + (- h02) * w2 + v0,
           (- h10) * w0 + (- h11) * w1 + (- h12) * w2 + v1,
           (- h20) * w0 + (- h21) * w1 + (- h22) * w2 + v2),
        SO3_act R_BrToDn angVel).

(** Steps 5 and 6: the predicted pixel velocity.  The factor [k] multiplies
    every entry of the translation sub-Jacobian
    [[-fx 0 up; 0 -fy vp]] in its product with the linear velocity; the
    product of the rotation sub-Jacobian with the angular velocity carries
    no factor. *)
Definition predicted_pixel_velocity (k fx fy cx cy : T) (c : OpticalFlowCorr)
    (linVel angVel : Vec3 T) : T * T :=
  let '(_, xMid, _) := xTraceAry c in
  let '(_, yMid, _) := yTraceAry c in
  let up := of_double xMid - cx in
  let vp := of_double yMid - cy in
  let '(v0, v1, v2) := linVel in
  let '(w0, w1, w2) := angVel in
  (((k * (- fx)) * v0 + (k * of_double 0) * v1 + (k * up) * v2)
   + ((up * vp / fy) * w0 + ((- fx) - up * up / fx) * w1 + (fx * vp / fy) * w2),
   ((k * of_double 0) * v0 + (k * (- fy)) * v1 + (k * vp) * v2)
   + ((fy + vp * vp / fy) * w0 + (((- up) * vp) / fx) * w1
      + (((- fy) * up) / fx) * w2)).

(** Step 7: [weight * (predicted - observed)], for a factor [k] on the
    linear part. *)
Definition residual_in_scalars (k : T) (f : RGBDVelocityFactor Meta) (P : CalibParams)
  : option (T * T) :=
  let time := anchor_body_time (_corr f) (p_READOUT_TIME P) (p_TO_DnToBr P) in
  '(linVel, angVel) ← sensor_velocities_at f P time;
  let '(px, py) :=
    predicted_pixel_velocity k (p_FX P) (p_FY P) (p_CX P) (p_CY P) (_corr f)
      linVel angVel in
  let '(ox, oy) := observed_pixel_velocity (_corr f) (p_READOUT_TIME P) in
  Some (of_double (_weight f) * (px - ox), of_double (_weight f) * (py - oy)).

End ResidualInScalars.

(** *** An instance on which the factor runs *)

(** Modelled from the spec: [LagrangePolynomialTripleMidFOD] is defined in
    util/utils_tpl.hpp, outside the two files embedded here; section 4.4
    calls it the Lagrange three-point differentiation at the middle sample. *)
#[export] Instance Utils_double : Utils float := {|
  LagrangePolynomialTripleMidFOD := fun xs ys =>
    let '(x0, x1, x2) := xs in
    let '(y0, y1, y2) := ys in
    (y0 * (x1 - x2) / ((x0 - x1) * (x0 - x2))
     + y1 * (2 * x1 - x0 - x2) / ((x1 - x0) * (x1 - x2))
     + y2 * (x1 - x0) / ((x2 - x0) * (x2 - x1)))%float
|}.

(** Rotations as 3x3 matrices, read from a quaternion block [x; y; z; w]. *)
Definition mat33_transpose {T} (M : Mat33 T) : Mat33 T :=
  let '((a, b, c), (d, e, f), (g, h, i)) := M in
  ((a, d, g), (b, e, h), (c, f, i)).

Definition mat33_mul {T} `{Scalar T} (M N : Mat33 T) : Mat33 T :=
  let '(c0, c1, c2) := mat33_transpose N in
  let '(r0, r1, r2) := M in
  ((dot3 r0 c0, dot3 r0 c1, dot3 r0 c2),
   (dot3 r1 c0, dot3 r1 c1, dot3 r1 c2),
   (dot3 r2 c0, dot3 r2 c1, dot3 r2 c2)).

Definition rotation_of_quaternion (b : list float) : Mat33 float :=
  match b with
  | [x; y; z; w] =>
      ((1 - 2 * (y * y + z * z), 2 * (x * y - z * w), 2 * (x * z + y * w)),
       (2 * (x * y + z * w), 1 - 2 * (x * x + z * z), 2 * (y * z - x * w)),
       (2 * (x * z - y * w), 2 * (y * z + x * w), 1 - 2 * (x * x + y * y)))%float
  | _ => ((1, 0, 0), (0, 1, 0), (0, 0, 1))%float
  end.

#[export] Instance SophusSO3_double : SophusSO3 float (Mat33 float) := {|
  SO3_of_block := rotation_of_quaternion;
  SO3_inverse := mat33_transpose;
  SO3_mul := mat33_mul;
  SO3_act := mat33_vec3;
  SO3_hat := fun v =>
    let '(x, y, z) := v in
    ((0, - z, y), (z, 0, - x), (- y, x, 0))%float
|}.

(** A spline of one segment: knots from [t0], spacing [dt]; the rotation is
    held at the first knot, the vector moves linearly between the first two. *)
Record OneSegment : Type := mkSeg { seg_t0 : float; seg_dt : float; seg_knots : nat }.

Definition vec3_of_block_or_zero (b : option (list float)) : Vec3 float :=
  default (0, 0, 0)%float (b ≫= vec3_of_block).

#[export] Instance CTraj_double : CTraj float (Mat33 float) OneSegment := {|
  NumParameters := seg_knots;
  ComputeSplineIndex := fun m t =>
    if ((seg_t0 m <=? t) && (t <? seg_t0 m + seg_dt m))%float
    then Some (0%nat, ((t - seg_t0 m) / seg_dt m)%float) else None;
  segments_front_dt := seg_dt;
  EvaluateLie := fun knots u dtInv =>
    (rotation_of_quaternion (default [] (knots !! 0%nat)), (0, 0, 0)%float);
  Evaluate := fun deriv knots u dtInv =>
    let '(a0, a1, a2) := vec3_of_block_or_zero (knots !! 0%nat) in
    let '(b0, b1, b2) := vec3_of_block_or_zero (knots !! 1%nat) in
    ((b0 - a0) * dtInv, (b1 - a1) * dtInv, (b2 - a2) * dtInv)%float
|}.

Definition corr0 : OpticalFlowCorr :=
  OpticalFlowCorr_new (0.9, 1.0, 1.1)%float (100, 102, 104)%float (50, 51, 52)%float
    2.0%float (mkFrame 480) 0.5%float.

Definition factor0 : RGBDVelocityFactor OneSegment :=
  RGBDVelocityFactor_new (mkSeg 0 10 2) (mkSeg 0 10 2) corr0 1.0%float.

Definition params0 : @CalibParams float :=
  {| so3_knots := [[0; 0; 0; 1]; [0; 0; 0; 1]]%float;
     scale_knots := [[0; 0; 0]; [1; 2; 3]]%float;
     p_SO3_DnToBr := [0; 0; 0; 1]%float;
     p_POS_DnInBr := (0.1, 0, 0)%float;
     p_TO_DnToBr := 0.01%float;
     p_READOUT_TIME := 0.02%float;
     p_FX := 500%float; p_FY := 500%float; p_CX := 320%float; p_CY := 240%float;
     p_ALPHA := 1%float; p_BETA := 0%float; p_DEPTH_INFO := 0.5%float |}.

(** ** Loops *)

(** [for (a : l) body], the body in the option monad. *)
Fixpoint for_each {A S : Type} (l : list A) (body : A -> S -> option S) (s : S)
  : option S :=
  match l with
  | [] => Some s
  | a :: l' => s' ← body a s; for_each l' body s'
  end.

(** The same with [break]: the body says whether the loop stops after it. *)
Fixpoint for_each_break {A S : Type} (l : list A) (body : A -> S -> option (S * bool))
    (s : S) : option S :=
  match l with
  | [] => Some s
  | a :: l' =>
      r ← body a s;
      if (snd r : bool) then Some (fst r) else for_each_break l' body (fst r)
  end.

(** The values of [i] in [for (int i = lo; i < hi; ++i)]. *)
Definition range (lo hi : Z) : list Z := seqZ lo (hi - lo).

(** A pointer that may be null. *)
Inductive Ptr (A : Type) : Type :=
| nullptr : Ptr A
| ptr : A -> Ptr A.
Arguments nullptr {A}.
Arguments ptr {A} _.

(** ** EventNormFlow::NormFlowPack *)

(** Modelled from the spec: [NormFlow] is declared in
    core/event_preprocessing.h, outside the two files embedded here;
    section 3 gives it as {timestamp, pixel, flow vector (2D)}. *)
Record NormFlow : Type := mkNormFlow {
  nf_timestamp : float;
  nf_p : Z * Z;
  nf_nf : Vec2 float
}.

(** The fields of the pack that carry data; [nfsImg] and [nfSeedsImg], the
    two rasters drawn for display, are left out.  [uchar] entries are [Z]. *)
Record NormFlowPack : Type := mkPack {
  nfs : list NormFlow;
  inliersOccupy : Dense.t Z;
  polarityMap : Dense.t Z;
  rawTimeSurfaceMap : Dense.t float;
  timestamp : float
}.

(** [Event::Create(et, {ex, ey}, ep)] with [ep] a [uchar]. *)
Definition Event_Create (et : float) (ex ey : Z) (ep : Z) : Event :=
  mkEvent et (ex, ey) (negb (ep =? 0)).

(** The common end of the two views: a null pointer for no event, else the
    array stamped with the time of its last event. *)
Definition EventArray_of (events : list Event) : Ptr EventArray :=
  match last events with
  | Some e => ptr (mkEventArray (GetTimestamp e) events)
  | None => nullptr
  end.

(** [NormFlowPack::ActiveEvents]. *)
Definition ActiveEvents (pack : NormFlowPack) (dt : float) : option (Ptr EventArray) :=
  let rows := Dense.rows (rawTimeSurfaceMap pack) in
  let cols := Dense.cols (rawTimeSurfaceMap pack) in
  events ←
    for_each (range 0 rows) (fun ey events =>
      for_each (range 0 cols) (fun ex events =>
        et ← Dense.get (rawTimeSurfaceMap pack) ey ex;
        if (et <? 0.001)%float || (dt <? timestamp pack - et)%float
        then Some events
        else
          ep ← Dense.get (polarityMap pack) ey ex;
          Some (events ++ [Event_Create et ex ey ep])) events) [];
  Some (EventArray_of events).

(** [NormFlowPack::NormFlowEvents]. *)
Definition NormFlowEvents (pack : NormFlowPack) : option (Ptr EventArray) :=
  let rows := Dense.rows (rawTimeSurfaceMap pack) in
  let cols := Dense.cols (rawTimeSurfaceMap pack) in
  events ←
    for_each (range 0 rows) (fun ey events =>
      for_each (range 0 cols) (fun ex events =>
        et ← Dense.get (rawTimeSurfaceMap pack) ey ex;
        if (et <? 0.001)%float
        then Some events
        else
          occ ← Dense.get (inliersOccupy pack) ey ex;
          if occ =? 0
          then Some events
          else
            ep ← Dense.get (polarityMap pack) ey ex;
            Some (events ++ [Event_Create et ex ey ep])) events) [];
  Some (EventArray_of events).

(** The three maps of a pack have one size. *)
Definition pack_ok (pack : NormFlowPack) : Prop :=
  let r := Dense.rows (rawTimeSurfaceMap pack) in
  let c := Dense.cols (rawTimeSurfaceMap pack) in
  mat_ok r c (rawTimeSurfaceMap pack) /\ mat_ok r c (polarityMap pack)
  /\ mat_ok r c (inliersOccupy pack).

(** A pixel [ActiveEvents] keeps: its raw time is not below 1E-3 and not
    older than [dt]. *)
Definition active_pixel (pack : NormFlowPack) (dt : float) (ey ex : Z) : Prop :=
  exists et, Dense.get (rawTimeSurfaceMap pack) ey ex = Some et
             /\ (et <? 0.001)%float = false
             /\ (dt <? timestamp pack - et)%float = false.

(** A pixel [NormFlowEvents] keeps: its raw time is not below 1E-3 and it is
    marked in the inlier mask. *)
Definition norm_flow_pixel (pack : NormFlowPack) (ey ex : Z) : Prop :=
  exists et occ, Dense.get (rawTimeSurfaceMap pack) ey ex = Some et
                 /\ (et <? 0.001)%float = false
                 /\ Dense.get (inliersOccupy pack) ey ex = Some occ /\ occ <> 0.

(** The event [ActiveEvents] makes of a pixel, none for a pixel it skips. *)
Definition active_event (pack : NormFlowPack) (dt : float) (ey ex : Z) : option Event :=
  et ← Dense.get (rawTimeSurfaceMap pack) ey ex;
  if (et <? 0.001)%float || (dt <? timestamp pack - et)%float then None
  else ep ← Dense.get (polarityMap pack) ey ex; Some (Event_Create et ex ey ep).

(** The event [NormFlowEvents] makes of a pixel. *)
Definition norm_flow_event (pack : NormFlowPack) (ey ex : Z) : option Event :=
  et ← Dense.get (rawTimeSurfaceMap pack) ey ex;
  if (et <? 0.001)%float then None
  else
    occ ← Dense.get (inliersOccupy pack) ey ex;
    if occ =? 0 then None
    else ep ← Dense.get (polarityMap pack) ey ex; Some (Event_Create et ex ey ep).

(** The events of a raster scan, row after row. *)
Definition raster_events (rows cols : Z) (pixel : Z -> Z -> option Event) : list Event :=
  range 0 rows ≫= (fun ey => omap (pixel ey) (range 0 cols)).

(** A 2x3 pack: one recent pixel that is an inlier, one recent pixel that is
    not, the rest never hit. *)
Definition pack0 : NormFlowPack :=
  {| nfs := [];
     inliersOccupy := Dense.mk 2 3 [0; 255; 0; 0; 0; 0];
     polarityMap := Dense.mk 2 3 [0; 1; 0; 0; 0; 0];
     rawTimeSurfaceMap := Dense.mk 2 3 [0; 1.0; 0; 0; 0.995; 0]%float;
     timestamp := 1.0%float |}.

(** The same pack before any event. *)
Definition pack_empty : NormFlowPack :=
  {| nfs := [];
     inliersOccupy := Dense.fill 2 3 0;
     polarityMap := Dense.fill 2 3 0;
     rawTimeSurfaceMap := Dense.fill 2 3 0%float;
     timestamp := 0%float |}.

(** A pixel that qualifies as the specification words it: the raw time is
    at least 1E-3 and, for [ActiveEvents], [timestamp - t <= dt]; for
    [NormFlowEvents], the pixel is marked in the inlier mask. *)
Definition active_pixel_as_worded (pack : NormFlowPack) (dt : float) (ey ex : Z) : Prop :=
  exists et, Dense.get (rawTimeSurfaceMap pack) ey ex = Some et
             /\ (0.001 <=? et)%float = true
             /\ (timestamp pack - et <=? dt)%float = true.

Definition norm_flow_pixel_as_worded (pack : NormFlowPack) (ey ex : Z) : Prop :=
  exists et occ, Dense.get (rawTimeSurfaceMap pack) ey ex = Some et
                 /\ (0.001 <=? et)%float = true
                 /\ Dense.get (inliersOccupy pack) ey ex = Some occ /\ occ <> 0.

(** A 2x3 pack one of whose raw times is not a number; the pixel is marked
    as an inlier. *)
Definition pack_nan : NormFlowPack :=
  {| nfs := [];
     inliersOccupy := Dense.mk 2 3 [0; 255; 0; 0; 0; 0];
     polarityMap := Dense.mk 2 3 [0; 1; 0; 0; 0; 0];
     rawTimeSurfaceMap := Dense.mk 2 3 [0; nan; 0; 0; 0; 0]%float;
     timestamp := 1.0%float |}.

(** ** EventLocalPlaneSacProblem *)

(** [(N).ldlt().solve(r)] of Eigen, for a 3x3 matrix [N]. *)
Class EigenLDLT (T : Type) : Type := {
  ldlt_solve : Mat33 T -> Vec3 T -> Vec3 T
}.

(** [v.at(idx)] for an [int] index. *)
Definition vector_at {A} (v : list A) (idx : Z) : option A :=
  if idx <? 0 then None else v !! Z.to_nat idx.

Section SacProblem.
Context {T : Type} `{Scalar T} `{EigenLDLT T}.
#[local] Open Scope scalar_scope.


(** [EventLocalPlaneSacProblem::PointToPlaneDistance]. *)
Definition PointToPlaneDistance (x y t A B C : T) : T :=
  let tPred := - (A * x + B * y + C) in
  s_abs (t - tPred).

(** The sum of a list, in the order of the indices. *)
Definition sum_list (l : list T) : T := foldl s_add (of_double 0) l.

(** [M.transpose() * M] and [M.transpose() * b] for the rows of an n x 3
    matrix [M]: entry [(a, c)] is the sum over the rows of [M(i,a) * M(i,c)]. *)
Definition col (k : Z) (r : Vec3 T) : T := arr3_at r k.

Definition MtM (M : list (Vec3 T)) : Mat33 T :=
  let e a c := sum_list (map (fun r => col a r * col c r) M) in
  ((e 0 0, e 0 1, e 0 2), (e 1 0, e 1 1, e 1 2), (e 2 0, e 2 1, e 2 2)).

Definition Mtb (M : list (Vec3 T)) (b : list T) : Vec3 T :=
  let e a := sum_list (zip_with (fun r bi => col a r * bi) M b) in
  (e 0, e 1, e 2).

(** [EventLocalPlaneSacProblem::computeModelCoefficients]; it returns
    [true], [outModel] is the result here. *)
Definition computeModelCoefficients (_data : list (T * T * T)) (indices : list Z)
  : option (Vec3 T) :=
  pts ← mapM (vector_at _data) indices;
  let M := map (fun '(x, y, t) => (x, y, of_double 1)) pts in
  let b := map (fun '(x, y, t) => - t) pts in
  Some (ldlt_solve (MtM M) (Mtb M b)).





(** [EventLocalPlaneSacProblem::getSelectedDistancesToModel]. *)
Definition getSelectedDistancesToModel (_data : list (T * T * T)) (model : Vec3 T)
    (indices : list Z) : option (list T) :=
  mapM (fun idx =>
          '(x, y, t) ← vector_at _data idx;
          Some (PointToPlaneDistance x y t (col 0 model) (col 1 model) (col 2 model)))
       indices.

(** [EventLocalPlaneSacProblem::optimizeModelCoefficients]. *)
Definition optimizeModelCoefficients (_data : list (T * T * T)) (inliers : list Z)
    (model : Vec3 T) : option (Vec3 T) :=
  computeModelCoefficients _data inliers.

End SacProblem.

(** ** EventNormFlow::ExtractNormFlows *)

(** [opengv::sac::Ransac<EventLocalPlaneSacProblem>::computeModel] on the
    problem of the candidate pixel [(x, y)]: the returned flag, [inliers_] and
    [model_coefficients_].  The search is random; whatever it returns is
    taken as given. *)
Class Ransac : Type := {
  ransac_computeModel :
    Z -> Z -> list (float * float * float) -> float -> Z -> bool * list Z * Vec3 float
}.

(** What the raster scan carries from pixel to pixel. *)
Record ScanState : Type := mkScan {
  occupy : Dense.t Z;
  st_inliersOccupy : Dense.t Z;
  st_nfs : list NormFlow
}.

(** What the window loops gather around a candidate. *)
Record Window : Type := mkWindow {
  inRangeData : list (Z * Z * float);
  timeCen : float;
  jumpCurPixel : bool
}.

(** [EventNormFlow::Centralization]. *)
Definition Centralization (inRangeData : list (Z * Z * float))
  : list (float * float * float) :=
  let '(mean1, mean2, mean3) :=
    foldl (fun '(m1, m2, m3) '(a, b, c) =>
             (m1 + double_of_int a, m2 + double_of_int b, m3 + c)%float)
          (0, 0, 0)%float inRangeData in
  let n := double_of_int (Z.of_nat (length inRangeData)) in
  let mean1 := (mean1 / n)%float in
  let mean2 := (mean2 / n)%float in
  let mean3 := (mean3 / n)%float in
  map (fun '(a, b, c) =>
         (double_of_int a - mean1, double_of_int b - mean2, c - mean3)%float)
      inRangeData.

(** [cv::inRange(src, lo, hi, mask)]. *)
Definition inRange (src : Dense.t float) (lo hi : float) : Dense.t Z :=
  Dense.mk (Dense.rows src) (Dense.cols src)
    (map (fun v => if ((lo <=? v) && (v <=? hi))%float then 255 else 0) (Dense.data src)).

Definition squaredNorm (v : Vec2 float) : float :=
  (fst v * fst v + snd v * snd v)%float.

Section ExtractNormFlows.
Context `{EigenLDLT float} `{Ransac}.

(** The two window loops of [ExtractNormFlows] around the pixel [(x, y)]. *)
Definition gather_window (mask occupy : Dense.t Z) (rtsMat : Dense.t float)
    (ws subTravSize neighborDist x y : Z) : option Window :=
  for_each_break (range (- subTravSize) (subTravSize + 1)) (fun dy w =>
    w' ← for_each_break (range (- subTravSize) (subTravSize + 1)) (fun dx w =>
      let nx := x + dx in
      let ny := y + dy in
      occupied ←
        (if (Z.abs dx <=? neighborDist) && (Z.abs dy <=? neighborDist)
         then occ ← Dense.get occupy ny nx; Some (occ =? 255)
         else Some false);
      if (occupied : bool)
      then Some (mkWindow (inRangeData w) (timeCen w) true, true)
      else if (ws <? Z.abs dx) || (ws <? Z.abs dy) then Some (w, false)
      else
        m ← Dense.get mask ny nx;
        if negb (m =? 255) then Some (w, false)
        else
          timestamp ← Dense.get rtsMat ny nx;
          Some (mkWindow (inRangeData w ++ [(nx, ny, timestamp)])
                  (if (nx =? x) && (ny =? y) then timestamp else timeCen w)
                  (jumpCurPixel w),
                false)) w;
    Some (w', jumpCurPixel w'))
    (mkWindow [] 0%float false).

(** The end of the loop body, from the plane fit on: the candidate [(x, y)]
    is already marked in [occupy]. *)
Definition fit_candidate (st : ScanState) (inRangeData : list (Z * Z * float))
    (timeCen : float) (x y : Z) (goodRatioThd timeDistEventToPlaneThd : float)
    (ransacMaxIter : Z) : option ScanState :=
  let centeredInRangeData := Centralization inRangeData in
  let '(res, inliers_, model_coefficients_) :=
    ransac_computeModel x y centeredInRangeData timeDistEventToPlaneThd ransacMaxIter in
  if negb res
     || (double_of_int (Z.of_nat (length inliers_))
         / double_of_int (Z.of_nat (length inRangeData)) <? goodRatioThd)%float
  then Some st
  else
    abc ← optimizeModelCoefficients centeredInRangeData inliers_ model_coefficients_;
    let dtdx := (- col 0 abc)%float in
    let dtdy := (- col 1 abc)%float in
    let nf : Vec2 float :=
      ((1.0 / (dtdx * dtdx + dtdy * dtdy) * dtdx)%float,
       (1.0 / (dtdx * dtdx + dtdy * dtdy) * dtdy)%float) in
    if (4E3 * 4E3 <? squaredNorm nf)%float
    then Some st
    else
      let nfs' := st_nfs st ++ [mkNormFlow timeCen (x, y) nf] in
      inliersOccupy' ←
        for_each inliers_ (fun idx occ =>
          '(ex, ey, et) ← vector_at inRangeData idx;
          Dense.set occ ey ex 255) (st_inliersOccupy st);
      Some (mkScan (occupy st) inliersOccupy' nfs').

(** The loop body of [ExtractNormFlows] at the pixel [(x, y)]. *)
Definition scan_pixel (mask : Dense.t Z) (rtsMat : Dense.t float)
    (ws subTravSize neighborDist winSampleCountThd : Z)
    (goodRatioThd timeDistEventToPlaneThd : float) (ransacMaxIter : Z)
    (y x : Z) (st : ScanState) : option ScanState :=
  m ← Dense.get mask y x;
  if negb (m =? 255) then Some st
  else
    w ← gather_window mask (occupy st) rtsMat ws subTravSize neighborDist x y;
    if jumpCurPixel w || (Z.of_nat (length (inRangeData w)) <? winSampleCountThd)
    then Some st
    else
      occupy' ← Dense.set (occupy st) y x 255;
      fit_candidate (mkScan occupy' (st_inliersOccupy st) (st_nfs st))
        (inRangeData w) (timeCen w) x y goodRatioThd timeDistEventToPlaneThd
        ransacMaxIter.

(** [EventNormFlow::ExtractNormFlows], from the surface's raw time map
    [rtsMat], polarity map [pMat] and latest time [timeLast] on; the rasters
    drawn for display are left out. *)
Definition ExtractNormFlows (rtsMat : Dense.t float) (pMat : Dense.t Z)
    (timeLast : float) (decaySec : float) (winSize neighborDist : Z)
    (goodRatioThd timeDistEventToPlaneThd : float) (ransacMaxIter : Z)
  : option NormFlowPack :=
  let lo := (timeLast - 1.5 * decaySec)%float in
  let mask := inRange rtsMat (if (0.001 <? lo)%float then lo else 0.001%float) timeLast in
  let ws := winSize in
  let subTravSize := Z.max winSize neighborDist in
  let winSampleCount := (2 * ws + 1) * (2 * ws + 1) in
  let winSampleCountThd := int_of_double (double_of_int winSampleCount * goodRatioThd) in
  let rows := Dense.rows mask in
  let cols := Dense.cols mask in
  st ←
    for_each (range subTravSize (rows - subTravSize)) (fun y st =>
      for_each (range subTravSize (cols - subTravSize))
        (scan_pixel mask rtsMat ws subTravSize neighborDist winSampleCountThd
           goodRatioThd timeDistEventToPlaneThd ransacMaxIter y) st)
      (mkScan (Dense.fill rows cols 0) (Dense.fill rows cols 0) []);
  Some {| nfs := st_nfs st;
          inliersOccupy := st_inliersOccupy st;
          polarityMap := pMat;
          rawTimeSurfaceMap := rtsMat;
          timestamp := timeLast |}.

End ExtractNormFlows.

(** Step 5 of section 4.2 in its own words: the flow of a plane with slopes
    [A] and [B] is [(1 / (dtdx^2 + dtdy^2)) * (dtdx, dtdy)] with [dtdx = -A]
    and [dtdy = -B]. *)
Definition flow_of_plane (A B : float) : Vec2 float :=
  let dtdx := (- A)%float in
  let dtdy := (- B)%float in
  let k := (1.0 / (dtdx * dtdx + dtdy * dtdy))%float in
  ((k * dtdx)%float, (k * dtdy)%float).

(** The degeneracy bound, [(4 x 10^3)^2]. *)
Definition degeneracy_bound : float := (4E3 * 4E3)%float.

(** A recorded flow that step 5 allows: the flow of some plane, its squared
    norm not above the bound. *)
Definition flow_kept (n : NormFlow) : Prop :=
  exists A B, nf_nf n = flow_of_plane A B
              /\ (degeneracy_bound <? squaredNorm (nf_nf n))%float = false.

Definition same_size {A B} (M : Dense.t A) (N : Dense.t B) : Prop :=
  Dense.rows M = Dense.rows N /\ Dense.cols M = Dense.cols N.

(** The loop that marks the inliers in the occupancy mask. *)
Definition mark_inliers (inRangeData : list (Z * Z * float)) (inliers : list Z)
    (occ : Dense.t Z) : option (Dense.t Z) :=
  for_each inliers (fun idx occ =>
    '(ex, ey, et) ← vector_at inRangeData idx;
    Dense.set occ ey ex 255) occ.

(** *** Instances on which the extraction runs *)

Definition det3 (M : Mat33 float) : float :=
  let '((a, b, c), (d, e, f), (g, h, i)) := M in
  (a * (e * i - f * h) - b * (d * i - f * g) + c * (d * h - e * g))%float.

(** A stand-in for Eigen's solver: Cramer's rule. *)
#[export] Instance EigenLDLT_cramer : EigenLDLT float := {|
  ldlt_solve := fun N r =>
    let '((a, b, c), (d, e, f), (g, h, i)) := N in
    let '(r0, r1, r2) := r in
    let D := det3 N in
    ((det3 ((r0, b, c), (r1, e, f), (r2, h, i)) / D)%float,
     (det3 ((a, r0, c), (d, r1, f), (g, r2, i)) / D)%float,
     (det3 ((a, b, r0), (d, e, r1), (g, h, r2)) / D)%float)
|}.

(** A stand-in for the random search: every point is an inlier of the plane
    fitted to all points. *)
#[export] Instance Ransac_all_points : Ransac := {|
  ransac_computeModel := fun x y data thd iters =>
    let all := seqZ 0 (Z.of_nat (length data)) in
    (true, all, default (0, 0, 0)%float (computeModelCoefficients data all))
|}.

(** The 3x3 window around the pixel [(cx, cy)], row after row. *)
Definition window_at (cx cy : Z) (time : Z -> Z -> float) : list (Z * Z * float) :=
  y ← range (cy - 1) (cy + 2); x ← range (cx - 1) (cx + 2); [(x, y, time x y)].

Definition scan0 : ScanState :=
  mkScan (Dense.fill 5 5 0) (Dense.fill 5 5 0) [].

(** The mask of a 5x5 map all of whose pixels are recent. *)
Definition mask0 : Dense.t Z := Dense.fill 5 5 255.

(** The map on which every pixel fired at time 1. *)
Definition flat_map : Dense.t float := Dense.fill 5 5 1.0%float.

(** A 5x5 raw time map crossed by an edge that moves one pixel per 0.01 s
    along x: the pixel of column [x] fired at [1 + 0.01 x]. *)
Definition edge_map : Dense.t float :=
  Dense.mk 5 5 (y ← range 0 5; x ← range 0 5; [(1 + 0.01 * double_of_int x)%float]).



(** ** More of the event surface *)

(** [VisualUndistortionMap::RemoveDistortion] of the map built for the
    intrinsics, one function per pixel type; the class is defined in another
    file. *)
Class VisualUndistortionMap : Type := {
  RemoveDistortion_8UC3 : PinholeIntrinsic -> Dense.t Vec3b -> Dense.t Vec3b;
  RemoveDistortion_64F : PinholeIntrinsic -> Dense.t float -> Dense.t float;
  RemoveDistortion_8U : PinholeIntrinsic -> Dense.t Z -> Dense.t Z
}.

(** [ActiveEventSurface::GetEventImgMat]: the image returned and the surface
    it leaves. *)
Definition GetEventImgMat `{VisualUndistortionMap} (s : ActiveEventSurface)
    (resetMat undistoMat : bool) : Dense.t Vec3b * ActiveEventSurface :=
  let mat := _eventImgMat s in
  let s' :=
    if resetMat
    then {| FILTER_THD := FILTER_THD s;
            _intri := _intri s;
            _sae := _sae s;
            _saeLatest := _saeLatest s;
            _timeLatest := _timeLatest s;
            _eventImgMat :=
              Dense.fill (imgHeight (_intri s)) (imgWidth (_intri s)) (0, 0, 0) |}
    else s in
  (if undistoMat then RemoveDistortion_8UC3 (_intri s) mat else mat, s').

(** A camera without distortion: the images stay as they are. *)
#[export] Instance no_distortion : VisualUndistortionMap := {|
  RemoveDistortion_8UC3 := fun _ M => M;
  RemoveDistortion_64F := fun _ M => M;
  RemoveDistortion_8U := fun _ M => M
|}.

(** Events that follow one another closely: none is later than [thd] after
    the one before it, [prev] being the time before the first. *)
Fixpoint within_thd (thd prev : float) (events : list Event) : bool :=
  match events with
  | [] => true
  | e :: rest =>
      negb (prev + thd <? GetTimestamp e)%float && within_thd thd (GetTimestamp e) rest
  end.

(** The time of the last event of a run, [prev] for an empty run. *)
Definition last_time (prev : float) (events : list Event) : float :=
  default prev (GetTimestamp <$> last events).

(** No entry of [_sae] or [_saeLatest] is later than [_timeLatest]. *)
Definition below_latest (s : ActiveEventSurface) : Prop :=
  forall p x y a,
    sae_at s p x y = Some a \/ saeLatest_at s p x y = Some a ->
    (a <=? _timeLatest s)%float = true.

(** [(uchar) d] for a [double] [d]: the truncation of [d] where the type
    holds it; the language leaves the other values open, and
    [uchar_out_of_range] is what the platform stores for them. *)
Class FloatToUchar : Type := { uchar_out_of_range : float -> Z }.

Definition uchar_of_double `{FloatToUchar} (d : float) : Z :=
  match Prim2SF d with
  | S754_nan | S754_infinity _ => uchar_out_of_range d
  | _ =>
      let z := int_of_double d in
      if (0 <=? z) && (z <? 256) then z else uchar_out_of_range d
  end.

(** A platform that converts through [int] and keeps the low byte. *)
#[export] Instance low_byte : FloatToUchar := {|
  uchar_out_of_range := fun d => int_of_double d mod 256
|}.

(** [std::max(a, b)] on [double]: [(a < b) ? b : a]. *)
Definition std_max (a b : float) : float := if (a <? b)%float then b else a.

(** [ActiveEventSurface::RawTimeSurface]. *)
Definition RawTimeSurface `{VisualUndistortionMap} `{FloatToUchar}
    (s : ActiveEventSurface) (ignorePolarity undistoMat : bool)
  : option (Dense.t float * Dense.t Z) :=
  let width := imgWidth (_intri s) in
  let height := imgHeight (_intri s) in
  maps ←
    for_each (range 0 height) (fun y maps =>
      for_each (range 0 width) (fun x '(timeSurfaceMap, polarityMap) =>
        sae1 ← Dense.get (arr2_get (_sae s) 1) x y;
        sae0 ← Dense.get (arr2_get (_sae s) 0) x y;
        let mostRecentStampAtCoord := std_max sae1 sae0 in
        let polarity := if (sae0 <? sae1)%float then 1.0%float else (-1.0)%float in
        polarityMap' ← Dense.set polarityMap y x (uchar_of_double polarity);
        let mostRecentStampAtCoord :=
          if negb ignorePolarity then (mostRecentStampAtCoord * polarity)%float
          else mostRecentStampAtCoord in
        timeSurfaceMap' ← Dense.set timeSurfaceMap y x mostRecentStampAtCoord;
        Some (timeSurfaceMap', polarityMap')) maps)
      (Dense.fill height width 0%float, Dense.fill height width 0);
  Some (if undistoMat
        then (RemoveDistortion_64F (_intri s) (fst maps),
              RemoveDistortion_8U (_intri s) (snd maps))
        else maps).

(** What [RawTimeSurface] stores for a pixel whose entries of [_sae] are
    [sae1] and [sae0]. *)
Definition raw_time (ignorePolarity : bool) (sae1 sae0 : float) : float :=
  if ignorePolarity then std_max sae1 sae0
  else (std_max sae1 sae0 * (if (sae0 <? sae1)%float then 1.0 else -1.0))%float.

Definition raw_polarity `{FloatToUchar} (sae1 sae0 : float) : Z :=
  if (sae0 <? sae1)%float then 1 else uchar_of_double (-1.0)%float.

(** The entry of both maps at row [y] and column [x] is the one of the pixel
    [(x, y)] of the surface. *)
Definition raw_entry_ok `{FloatToUchar} (s : ActiveEventSurface) (ignorePolarity : bool)
    (maps : Dense.t float * Dense.t Z) (y x : Z) : Prop :=
  exists sae1 sae0,
    sae_at s true x y = Some sae1 /\ sae_at s false x y = Some sae0
    /\ Dense.get (fst maps) y x = Some (raw_time ignorePolarity sae1 sae0)
    /\ Dense.get (snd maps) y x = Some (raw_polarity sae1 sae0).

(** ** More of the pack's views *)

(** The events behind a pointer, none behind a null pointer. *)
Definition events_of (p : Ptr EventArray) : list Event :=
  match p with
  | nullptr => []
  | ptr arr => GetEvents arr
  end.

(** Raster order of two events: the first lies in an earlier row, or in the
    same row and an earlier column. *)
Definition raster_lt (a b : Event) : Prop :=
  snd (GetPos a) < snd (GetPos b)
  \/ (snd (GetPos a) = snd (GetPos b) /\ fst (GetPos a) < fst (GetPos b)).

(** The two rasters of a pack drawn for display, [nfSeedsImg] and [nfsImg],
    which [Visualization] reads. *)
Record PackRasters : Type := mkRasters {
  nfSeedsImg : Dense.t Vec3b;
  nfsImg : Dense.t Vec3b
}.

(** [cv::hconcat] and [cv::vconcat] of OpenCV; they fail on images whose
    sizes do not fit. *)
Class CvConcat : Type := {
  hconcat : Dense.t Vec3b -> Dense.t Vec3b -> option (Dense.t Vec3b);
  vconcat : Dense.t Vec3b -> Dense.t Vec3b -> option (Dense.t Vec3b)
}.

(** [p->] on a pointer: nothing is defined behind a null pointer. *)
Definition deref {A} (p : Ptr A) : option A :=
  match p with
  | nullptr => None
  | ptr a => Some a
  end.

(** The loop [Visualization] runs over the events of a view: a black image
    of the size of [like], the pixel of each event coloured by its polarity. *)
Definition draw_events (like : Dense.t Vec3b) (events : list Event)
  : option (Dense.t Vec3b) :=
  for_each events (fun event mat =>
    let ex := to_uint16 (fst (GetPos event)) in
    let ey := to_uint16 (snd (GetPos event)) in
    let ep := GetPolarity event in
    Dense.set mat ey ex (if ep then (255, 0, 0) else (0, 0, 255)))
    (Dense.fill (Dense.rows like) (Dense.cols like) (0, 0, 0)).

(** [NormFlowPack::Visualization]. *)
Definition Visualization `{CvConcat} (pack : NormFlowPack) (rasters : PackRasters)
    (dt : float) : option (Dense.t Vec3b) :=
  m1 ← hconcat (nfSeedsImg rasters) (nfsImg rasters);
  active ← ActiveEvents pack dt ≫= deref;
  actEventMat ← draw_events (nfSeedsImg rasters) (GetEvents active);
  flows ← NormFlowEvents pack ≫= deref;
  nfEventMat ← draw_events (nfSeedsImg rasters) (GetEvents flows);
  m2 ← hconcat actEventMat nfEventMat;
  vconcat m1 m2.

(** Images side by side and one above the other, row-major. *)
Definition row_of {A} (M : Dense.t A) (i : Z) : list A :=
  take (Z.to_nat (Dense.cols M)) (drop (Z.to_nat (i * Dense.cols M)) (Dense.data M)).

#[export] Instance CvConcat_rows : CvConcat := {|
  hconcat := fun M N =>
    if Dense.rows M =? Dense.rows N
    then Some (Dense.mk (Dense.rows M) (Dense.cols M + Dense.cols N)
                 (range 0 (Dense.rows M) ≫= fun i => row_of M i ++ row_of N i))
    else None;
  vconcat := fun M N =>
    if Dense.cols M =? Dense.cols N
    then Some (Dense.mk (Dense.rows M + Dense.rows N) (Dense.cols M)
                 (Dense.data M ++ Dense.data N))
    else None
|}.

Definition rasters0 : PackRasters :=
  mkRasters (Dense.fill 2 3 (0, 0, 0)) (Dense.fill 2 3 (0, 0, 0)).

(** The pack [pack0] without a fitted plane: no pixel is marked as inlier. *)
Definition pack_no_flow : NormFlowPack :=
  {| nfs := [];
     inliersOccupy := Dense.fill 2 3 0;
     polarityMap := polarityMap pack0;
     rawTimeSurfaceMap := rawTimeSurfaceMap pack0;
     timestamp := timestamp pack0 |}.

(** ** More of the extraction of normal flows *)

(** Two pixels further apart than [d] along x or along y. *)
Definition apart (d : Z) (p q : Z * Z) : Prop :=
  d < Z.abs (fst p - fst q) \/ d < Z.abs (snd p - snd q).

Definition flows_apart (d : Z) (a b : NormFlow) : Prop := apart d (nf_p a) (nf_p b).

(** The pixel of a recorded flow: it lies [subTravSize] inside the map, its
    mask entry is 255, it is claimed in [occupy], and for a window size that
    is not negative the flow is stamped with the raw time of the pixel. *)
Definition flow_site (mask occupy : Dense.t Z) (rtsMat : Dense.t float)
    (ws subTravSize rows cols : Z) (n : NormFlow) : Prop :=
  let x := fst (nf_p n) in
  let y := snd (nf_p n) in
  subTravSize <= x < cols - subTravSize /\ subTravSize <= y < rows - subTravSize
  /\ Dense.get mask y x = Some 255 /\ Dense.get occupy y x = Some 255
  /\ (0 <= ws -> Dense.get rtsMat y x = Some (nf_timestamp n)).

(** A marked entry of [inliersOccupy]: it is 255, the mask entry is 255, and
    the pixel lies in the window of a recorded flow. *)
Definition inlier_site (mask : Dense.t Z) (ws : Z) (flows : list NormFlow)
    (r c v : Z) : Prop :=
  v = 255 /\ Dense.get mask r c = Some 255
  /\ exists n, n ∈ flows /\ Z.abs (c - fst (nf_p n)) <= ws
               /\ Z.abs (r - snd (nf_p n)) <= ws.

(** What the raster scan of [ExtractNormFlows] keeps from pixel to pixel. *)
Definition scan_inv (mask : Dense.t Z) (rtsMat : Dense.t float)
    (ws subTravSize neighborDist rows cols : Z) (st : ScanState) : Prop :=
  mat_ok rows cols (occupy st) /\ mat_ok rows cols (st_inliersOccupy st)
  /\ StronglySorted (flows_apart neighborDist) (st_nfs st)
  /\ (forall n, n ∈ st_nfs st ->
        flow_site mask (occupy st) rtsMat ws subTravSize rows cols n)
  /\ (forall r c v, Dense.get (st_inliersOccupy st) r c = Some v -> v <> 0 ->
        inlier_site mask ws (st_nfs st) r c v).

(** The bounds [ExtractNormFlows] hands to [cv::inRange]. *)
Definition recent_lo (timeLast decaySec : float) : float :=
  let lo := (timeLast - 1.5 * decaySec)%float in
  if (0.001 <? lo)%float then lo else 0.001%float.

Definition recent (timeLast decaySec t : float) : Prop :=
  (recent_lo timeLast decaySec <=? t)%float = true /\ (t <=? timeLast)%float = true.

(** The pack extracted from the map crossed by an edge. *)
Definition edge_pack : NormFlowPack :=
  default pack_empty
    (@ExtractNormFlows EigenLDLT_cramer Ransac_all_points edge_map (Dense.fill 5 5 0)
       1.04%float 0.1%float 1 1 0.8%float 0.001%float 50).

(** What the extraction relies on from the random search: the inliers of a
    model it reports are indices of the data it was given. *)
Definition ransac_in_range `{Ransac} : Prop :=
  forall x y data thd iters inliers model,
    ransac_computeModel x y data thd iters = (true, inliers, model) ->
    Forall (fun idx => 0 <= idx < Z.of_nat (length data)) inliers.

(** The pack extracted from a surface no event has reached. *)
Definition idle_pack : NormFlowPack :=
  default pack_empty
    (@ExtractNormFlows EigenLDLT_cramer Ransac_all_points (Dense.fill 5 5 0%float)
       (Dense.fill 5 5 0) 1.04%float 0.1%float 1 1 0.8%float 0.001%float 50).

(** Raster order of two flows: the first lies in an earlier row, or in the
    same row and an earlier column. *)
Definition flow_raster_lt (a b : NormFlow) : Prop :=
  snd (nf_p a) < snd (nf_p b)
  \/ (snd (nf_p a) = snd (nf_p b) /\ fst (nf_p a) < fst (nf_p b)).

(** The first flow of that pack. *)
Definition edge_flow : NormFlow :=
  default (mkNormFlow 0 (0, 0) (0, 0)%float) (head (nfs edge_pack)).

(** [EventNormFlow::ExtractNormFlows] on the surface [_sea] the extractor
    holds: the undistorted raw time map, the polarity map and the latest
    time are read from the surface, then the scan runs on them.  The time
    surface image, on which the flows are drawn for display, is left out. *)
Definition ExtractNormFlows_of_surface `{VisualUndistortionMap} `{FloatToUchar}
    `{EigenLDLT float} `{Ransac} (_sea : ActiveEventSurface) (decaySec : float)
    (winSize neighborDist : Z) (goodRatioThd timeDistEventToPlaneThd : float)
    (ransacMaxIter : Z) : option NormFlowPack :=
  '(rtsMat, pMat) ← RawTimeSurface _sea true true;
  let timeLast := GetTimeLatest _sea in
  ExtractNormFlows rtsMat pMat timeLast decaySec winSize neighborDist goodRatioThd
    timeDistEventToPlaneThd ransacMaxIter.

(** What the extraction relies on from the undistortion: the image it
    returns is a matrix of the size of the image it is given. *)
Definition undistortion_keeps_size `{VisualUndistortionMap} : Prop :=
  forall intri r c,
    (forall M, mat_ok r c M -> mat_ok r c (RemoveDistortion_64F intri M))
    /\ (forall M, mat_ok r c M -> mat_ok r c (RemoveDistortion_8U intri M)).
(** * Lemmas *)

(** ** Dense arrays *)

Module DenseFacts.
Import Dense.

Section Facts.
Context {A : Type}.
Implicit Types (M : t A) (i j : Z) (a : A).

Lemma in_range_spec M i j :
  in_range M i j = true <-> 0 <= i < rows M /\ 0 <= j < cols M.
Proof. unfold in_range. rewrite !andb_true_iff. lia. Qed.

Lemma offset_lt M i j :
  wf M -> in_range M i j = true -> (offset M i j < length (data M))%nat.
Proof.
  intros (Hr & Hc & Hlen) Hin%in_range_spec. unfold offset. rewrite Hlen. nia.
Qed.

Lemma offset_inj M i j i' j' :
  in_range M i j = true -> in_range M i' j' = true ->
  offset M i j = offset M i' j' -> i = i' /\ j = j'.
Proof.
  intros Hin%in_range_spec Hin'%in_range_spec. unfold offset. intros Heq.
  assert (i * cols M + j = i' * cols M + j') as Hz by nia.
  assert (i = i') by nia. subst. lia.
Qed.

Lemma fill_wf r c a : 0 <= r -> 0 <= c -> wf (fill r c a).
Proof. intros. unfold wf, fill. simpl. rewrite length_replicate. lia. Qed.

Lemma get_fill r c a i j :
  0 <= i < r -> 0 <= j < c -> get (fill r c a) i j = Some a.
Proof.
  intros Hi Hj. unfold get.
  assert (in_range (fill r c a) i j = true) as -> by (apply in_range_spec; simpl; lia).
  unfold fill, offset. simpl. apply lookup_replicate_2. nia.
Qed.

Lemma get_Some_in_range M i j a : get M i j = Some a -> in_range M i j = true.
Proof. unfold get. destruct (in_range M i j); [done | discriminate]. Qed.

Lemma get_is_Some M i j : wf M -> in_range M i j = true -> is_Some (get M i j).
Proof.
  intros Hwf Hin. unfold get. rewrite Hin.
  apply lookup_lt_is_Some. by apply offset_lt.
Qed.

Lemma set_is_Some M i j a : in_range M i j = true -> is_Some (set M i j a).
Proof. intros Hin. unfold set. rewrite Hin. eauto. Qed.

Lemma set_Some_in_range M M' i j a : set M i j a = Some M' -> in_range M i j = true.
Proof. unfold set. destruct (in_range M i j); [done | discriminate]. Qed.

Lemma set_dims M M' i j a :
  set M i j a = Some M' -> rows M' = rows M /\ cols M' = cols M.
Proof.
  unfold set. destruct (in_range M i j); [|discriminate].
  intros [= <-]. done.
Qed.

Lemma set_in_range M M' i j a i' j' :
  set M i j a = Some M' -> in_range M' i' j' = in_range M i' j'.
Proof. intros [Hr Hc]%set_dims. unfold in_range. by rewrite Hr, Hc. Qed.

Lemma set_wf M M' i j a : wf M -> set M i j a = Some M' -> wf M'.
Proof.
  intros (Hr & Hc & Hlen). unfold set. destruct (in_range M i j); [|discriminate].
  intros [= <-]. unfold wf. simpl. rewrite length_insert. done.
Qed.

Lemma get_set_eq M M' i j a :
  wf M -> set M i j a = Some M' -> get M' i j = Some a.
Proof.
  intros Hwf Hset. pose proof (set_Some_in_range _ _ _ _ _ Hset) as Hin.
  unfold get. rewrite (set_in_range _ _ _ _ _ i j Hset), Hin.
  pose proof (offset_lt M i j Hwf Hin) as Hlt.
  unfold set in Hset. rewrite Hin in Hset. injection Hset as <-.
  unfold offset in *. simpl. by apply list_lookup_insert_eq.
Qed.

Lemma get_set_ne M M' i j a i' j' :
  set M i j a = Some M' -> i <> i' \/ j <> j' -> get M' i' j' = get M i' j'.
Proof.
  intros Hset Hne. pose proof (set_Some_in_range _ _ _ _ _ Hset) as Hin.
  unfold get. rewrite (set_in_range _ _ _ _ _ i' j' Hset).
  destruct (in_range M i' j') eqn:Hin'; [|done].
  assert (offset M i j <> offset M i' j') as Hoff.
  { intros Heq. destruct (offset_inj _ _ _ _ _ Hin Hin' Heq). lia. }
  unfold set in Hset. rewrite Hin in Hset. injection Hset as <-.
  unfold offset in *. simpl. by apply list_lookup_insert_ne.
Qed.
End Facts.

End DenseFacts.

(** ** The event surface *)

Lemma mat_ok_in_range {A} r c (M : Dense.t A) i j :
  mat_ok r c M -> 0 <= i < r -> 0 <= j < c -> Dense.in_range M i j = true.
Proof. intros (_ & <- & <-) Hi Hj. by apply DenseFacts.in_range_spec. Qed.

Lemma mat_ok_set {A} r c (M M' : Dense.t A) i j a :
  mat_ok r c M -> Dense.set M i j a = Some M' -> mat_ok r c M'.
Proof.
  intros (Hwf & Hr & Hc) Hset. destruct (DenseFacts.set_dims _ _ _ _ _ Hset) as [Hr' Hc'].
  split; [by eapply DenseFacts.set_wf | lia].
Qed.

Lemma pair_ok_get r c a p : pair_ok r c a -> mat_ok r c (arr2_get a (pol_index p)).
Proof. intros [H0 H1]. by destruct p. Qed.

Lemma arr2_get_set_eq {A} (a : A * A) p v :
  arr2_get (arr2_set a (pol_index p) v) (pol_index p) = v.
Proof. by destruct p. Qed.

Lemma arr2_get_set_ne {A} (a : A * A) p q v :
  q <> p -> arr2_get (arr2_set a (pol_index p) v) (pol_index q) = arr2_get a (pol_index q).
Proof. by destruct p, q. Qed.

Lemma arr2_write_inv a p x y v a' :
  arr2_write a (pol_index p) x y v = Some a' ->
  exists M', Dense.set (arr2_get a (pol_index p)) x y v = Some M'
             /\ a' = arr2_set a (pol_index p) M'.
Proof.
  unfold arr2_write. destruct (Dense.set _ x y v) as [M'|]; simpl; [|discriminate].
  intros [= <-]. eauto.
Qed.

Lemma arr2_write_is_Some r c a p x y v :
  pair_ok r c a -> 0 <= x < r -> 0 <= y < c ->
  is_Some (arr2_write a (pol_index p) x y v).
Proof.
  intros Hok Hx Hy. unfold arr2_write.
  destruct (DenseFacts.set_is_Some (arr2_get a (pol_index p)) x y v) as [M' ->].
  - eapply mat_ok_in_range; eauto using pair_ok_get.
  - simpl. eauto.
Qed.

Lemma arr2_write_ok r c a p x y v a' :
  pair_ok r c a -> arr2_write a (pol_index p) x y v = Some a' -> pair_ok r c a'.
Proof.
  intros Hok (M' & Hset & ->)%arr2_write_inv.
  pose proof (mat_ok_set r c _ _ _ _ _ (pair_ok_get r c a p Hok) Hset) as HM'.
  destruct Hok as [H0 H1]. by destruct p; split.
Qed.

Lemma rd_write_eq r c a p x y v a' :
  pair_ok r c a -> arr2_write a (pol_index p) x y v = Some a' -> rd a' p x y = Some v.
Proof.
  intros Hok (M' & Hset & ->)%arr2_write_inv. unfold rd. rewrite arr2_get_set_eq.
  eapply DenseFacts.get_set_eq; [|exact Hset]. by destruct (pair_ok_get r c a p Hok).
Qed.

Lemma rd_write_ne a p x y v a' q x' y' :
  arr2_write a (pol_index p) x y v = Some a' ->
  q <> p \/ x' <> x \/ y' <> y -> rd a' q x' y' = rd a q x' y'.
Proof.
  intros (M' & Hset & ->)%arr2_write_inv Hne. unfold rd.
  destruct (decide (q = p)) as [->|Hq].
  - rewrite arr2_get_set_eq. eapply DenseFacts.get_set_ne; [exact Hset|].
    destruct Hne as [?|[?|?]]; [done | left | right]; congruence.
  - by rewrite arr2_get_set_ne.
Qed.

Lemma surface_ok_new intri thd :
  0 <= imgWidth intri -> 0 <= imgHeight intri ->
  surface_ok (ActiveEventSurface_new intri thd).
Proof.
  intros Hw Hh. unfold surface_ok, pair_ok. simpl.
  assert (forall A r c (a : A), 0 <= r -> 0 <= c -> mat_ok r c (Dense.fill r c a)) as Hfill.
  { intros A r c a Hr Hc. split; [by apply DenseFacts.fill_wf | done]. }
  auto.
Qed.

(** What one call of [GrabEvent] does to a well-formed surface: it returns,
    the addressed entry of [_saeLatest] becomes the event's time, the
    addressed entry of [_sae] follows the test, every other entry of the four
    matrices stays. *)
Lemma GrabEvent_effect s e draw :
  surface_ok s -> pixel_in s (fst (pixel_of e)) (snd (pixel_of e)) ->
  exists s' tLast tLastInv,
    GrabEvent s e draw = Some s'
    /\ surface_ok s'
    /\ FILTER_THD s' = FILTER_THD s /\ _intri s' = _intri s
    /\ _timeLatest s' = GetTimestamp e
    /\ saeLatest_at s (GetPolarity e) (fst (pixel_of e)) (snd (pixel_of e)) = Some tLast
    /\ saeLatest_at s (negb (GetPolarity e)) (fst (pixel_of e)) (snd (pixel_of e))
       = Some tLastInv
    /\ saeLatest_at s' (GetPolarity e) (fst (pixel_of e)) (snd (pixel_of e))
       = Some (GetTimestamp e)
    /\ sae_at s' (GetPolarity e) (fst (pixel_of e)) (snd (pixel_of e))
       = (if debounce_pass (FILTER_THD s) tLast tLastInv (GetTimestamp e)
          then Some (GetTimestamp e)
          else sae_at s (GetPolarity e) (fst (pixel_of e)) (snd (pixel_of e)))
    /\ (forall q x y,
          q <> GetPolarity e \/ x <> fst (pixel_of e) \/ y <> snd (pixel_of e) ->
          sae_at s' q x y = sae_at s q x y
          /\ saeLatest_at s' q x y = saeLatest_at s q x y).
Proof.
  destruct e as [et [px py] ep]. unfold pixel_of, pixel_in. simpl.
  set (ex := to_uint16 px). set (ey := to_uint16 py).
  intros (Hsae & Hlat & Himg) [Hx Hy].
  set (w := imgWidth (_intri s)) in *. set (h := imgHeight (_intri s)) in *.
  destruct (DenseFacts.get_is_Some (arr2_get (_saeLatest s) (pol_index ep)) ex ey)
    as [tLast HtLast].
  { by destruct (pair_ok_get w h _ ep Hlat). }
  { eapply mat_ok_in_range; eauto using pair_ok_get. }
  destruct (DenseFacts.get_is_Some (arr2_get (_saeLatest s) (pol_index (negb ep))) ex ey)
    as [tLastInv HtLastInv].
  { by destruct (pair_ok_get w h _ (negb ep) Hlat). }
  { eapply mat_ok_in_range; eauto using pair_ok_get. }
  destruct (arr2_write_is_Some w h (_saeLatest s) ep ex ey et Hlat Hx Hy)
    as [latest' Hlatest'].
  destruct (arr2_write_is_Some w h (_sae s) ep ex ey et Hsae Hx Hy) as [sae' Hsae'].
  destruct (DenseFacts.set_is_Some (_eventImgMat s) ey ex
              (if ep then (255, 0, 0) else (0, 0, 255))) as [img' Himg'].
  { eapply mat_ok_in_range; eauto. }
  pose (pass := debounce_pass (FILTER_THD s) tLast tLastInv et).
  exists {| FILTER_THD := FILTER_THD s; _intri := _intri s;
            _sae := if pass then sae' else _sae s;
            _saeLatest := latest'; _timeLatest := et;
            _eventImgMat := if draw then img' else _eventImgMat s |}, tLast, tLastInv.
  assert (pol_index ep = (if ep then 1 else 0)) as Hp by done.
  assert (pol_index (negb ep) = (if negb ep then 1 else 0)) as Hq by done.
  split.
  { unfold GrabEvent. simpl. fold ex ey. rewrite <- Hp, <- Hq.
    rewrite HtLast. simpl. rewrite HtLastInv. simpl.
    fold (debounce_pass (FILTER_THD s) tLast tLastInv et). fold pass.
    rewrite Hlatest'. destruct pass; simpl.
    - rewrite Hsae'. simpl. destruct draw; simpl; [rewrite Himg'|]; done.
    - destruct draw; simpl; [rewrite Himg'|]; done. }
  split.
  { unfold surface_ok. simpl. fold w h. split; [|split].
    - destruct pass; eauto using arr2_write_ok.
    - eauto using arr2_write_ok.
    - destruct draw; eauto using mat_ok_set. }
  do 3 (split; [done|]).
  split; [exact HtLast|]. split; [exact HtLastInv|].
  split; [exact (rd_write_eq w h _ _ _ _ _ _ Hlat Hlatest')|].
  split.
  { unfold sae_at. simpl. fold pass. destruct pass; [|done].
    exact (rd_write_eq w h _ _ _ _ _ _ Hsae Hsae'). }
  intros q x y Hne. unfold sae_at, saeLatest_at. simpl. split.
  - destruct pass; [|done]. exact (rd_write_ne _ _ _ _ _ _ q x y Hsae' Hne).
  - exact (rd_write_ne _ _ _ _ _ _ q x y Hlatest' Hne).
Qed.

(** *** Order facts on binary64, from the specification of the primitives *)

Lemma SFcompare_antisym x y :
  SFcompare y x
  = match SFcompare x y with Some c => Some (CompOpp c) | None => None end.
Proof.
  destruct x as [sx| sx | | sx mx ex], y as [sy | sy | | sy my ey]; simpl;
    try reflexivity;
    try (destruct sx; reflexivity); try (destruct sy; reflexivity);
    try (destruct sx, sy; reflexivity).
  pose proof (Pos.compare_cont_antisym mx my Eq) as Hm.
  pose proof (Pos.compare_cont_antisym my mx Eq) as Hm'. simpl in Hm, Hm'.
  destruct sx, sy; try reflexivity;
    rewrite (Z.compare_antisym ex ey); destruct (ex ?= ey)%Z; simpl; try reflexivity;
    f_equal; rewrite ?CompOpp_involutive;
    first [exact Hm | exact Hm' | symmetry; exact Hm | symmetry; exact Hm'].
Qed.

Lemma SFcompare_refl x : x <> S754_nan -> SFcompare x x = Some Eq.
Proof.
  destruct x as [s | s | | s m e]; simpl; intros H; try congruence.
  - destruct s; reflexivity.
  - rewrite Z.compare_refl. pose proof (Pos.compare_cont_refl m Eq) as Hm.
    destruct s; f_equal; [rewrite <- (CompOpp_involutive Eq) at 2; f_equal|]; exact Hm.
Qed.

Lemma leb_true_ltb_false (a b : float) :
  (a <=? b)%float = true -> (b <? a)%float = false.
Proof.
  rewrite leb_spec, ltb_spec. unfold SFleb, SFltb.
  rewrite (SFcompare_antisym (Prim2SF a) (Prim2SF b)).
  destruct (SFcompare (Prim2SF a) (Prim2SF b)) as [[]|]; simpl; congruence.
Qed.

Lemma SFcompare_total x y : x <> S754_nan -> y <> S754_nan -> is_Some (SFcompare x y).
Proof.
  destruct x as [sx| sx | | sx mx ex], y as [sy | sy | | sy my ey]; simpl;
    intros Hx Hy; try congruence; eauto.
Qed.

Lemma eqb_refl_not_nan (a : float) : (a =? a)%float = true -> Prim2SF a <> S754_nan.
Proof. rewrite FloatAxioms.eqb_spec. intros Heq E. rewrite E in Heq. discriminate. Qed.

(** Among numbers, [a <= b] fails only when [b < a]. *)
Lemma leb_false_ltb_true (a b : float) :
  (a =? a)%float = true -> (b =? b)%float = true ->
  (a <=? b)%float = false -> (b <? a)%float = true.
Proof.
  intros Ha%eqb_refl_not_nan Hb%eqb_refl_not_nan.
  rewrite leb_spec, ltb_spec. unfold SFleb, SFltb.
  rewrite (SFcompare_antisym (Prim2SF a) (Prim2SF b)).
  destruct (SFcompare_total _ _ Ha Hb) as [c ->]. by destruct c.
Qed.

Lemma ltb_nan_r (a d : float) : (d =? d)%float = false -> (a <? d)%float = false.
Proof.
  rewrite FloatAxioms.eqb_spec, ltb_spec. intros Hd.
  destruct (Prim2SF d) as [s|s| |s m e] eqn:E.
  - unfold SFeqb in Hd. by rewrite SFcompare_refl in Hd.
  - unfold SFeqb in Hd. by rewrite SFcompare_refl in Hd.
  - unfold SFltb. by destruct (Prim2SF a) as [[]|[]| |[] ? ?].
  - unfold SFeqb in Hd. by rewrite SFcompare_refl in Hd.
Qed.

Lemma leb_true_refl_r (a b : float) :
  (a <=? b)%float = true -> (b <=? b)%float = true.
Proof.
  rewrite !leb_spec. unfold SFleb. intros H.
  rewrite SFcompare_refl; [reflexivity|].
  intros E. rewrite E in H. destruct (Prim2SF a); discriminate.
Qed.

Lemma SFleb_trans x y z : SFleb x y = true -> SFleb y z = true -> SFleb x z = true.
Proof.
  unfold SFleb.
  destruct x as [sx| sx | | sx mx ex], y as [sy | sy | | sy my ey],
           z as [sz | sz | | sz mz ez];
    simpl; try congruence;
    try (destruct sx; simpl; congruence);
    try (destruct sy; simpl; congruence);
    try (destruct sz; simpl; congruence);
    try (destruct sx, sy; simpl; congruence);
    try (destruct sx, sz; simpl; congruence);
    try (destruct sy, sz; simpl; congruence);
    try (destruct sx, sy, sz; simpl; congruence).
  pose proof (Pos.compare_spec mx my) as Hxy.
  pose proof (Pos.compare_spec my mz) as Hyz.
  pose proof (Pos.compare_spec mx mz) as Hxz.
  unfold Pos.compare in Hxy, Hyz, Hxz.
  destruct sx, sy, sz; simpl; try congruence;
    destruct (Z.compare_spec ex ey), (Z.compare_spec ey ez), (Z.compare_spec ex ez);
    try congruence; try lia;
    destruct Hxy, Hyz, Hxz; simpl; try congruence; try lia.
Qed.

Lemma leb_trans (a b c : float) :
  (a <=? b)%float = true -> (b <=? c)%float = true -> (a <=? c)%float = true.
Proof. rewrite !leb_spec. apply SFleb_trans. Qed.

(** Two floats that a comparison tells apart are different. *)
Lemma float_neq_by_ltb (c a b : float) :
  (c <? a)%float <> (c <? b)%float -> a <> b.
Proof. intros H ->. by apply H. Qed.

(** Closed goals [pixel_in s x y]: the four comparisons evaluate. *)
Ltac pixel_in_image := vm_compute; repeat split; discriminate.

(** *** Runs of events *)

(** Events that address other pixels leave both polarities of a pixel alone. *)
Lemma GrabEvents_elsewhere events : forall s draw x y,
  surface_ok s ->
  Forall (fun e => pixel_in s (fst (pixel_of e)) (snd (pixel_of e))
                   /\ pixel_of e <> (x, y)) events ->
  exists s',
    GrabEvents s events draw = Some s'
    /\ surface_ok s' /\ FILTER_THD s' = FILTER_THD s /\ _intri s' = _intri s
    /\ forall q, sae_at s' q x y = sae_at s q x y
                 /\ saeLatest_at s' q x y = saeLatest_at s q x y.
Proof.
  induction events as [|e events IH]; intros s draw x y Hok Hall.
  - exists s. simpl. repeat (split; [done|]). done.
  - apply Forall_cons in Hall as [[Hin Hne] Hall].
    destruct (GrabEvent_effect s e draw Hok Hin)
      as (s1 & tLast & tLastInv & Hrun & Hok1 & Hthd & Hintri & _ & _ & _ & _ & _ & Hfr).
    destruct (IH s1 draw x y Hok1) as (s' & Hrun' & Hok' & Hthd' & Hintri' & Hkeep).
    { eapply Forall_impl; [exact Hall|]. intros e' [Hin' Hne'].
      unfold pixel_in in *. rewrite Hintri. auto. }
    exists s'. simpl. rewrite Hrun. simpl. rewrite Hrun'.
    split; [done|]. split; [done|]. split; [congruence|]. split; [congruence|].
    intros q. destruct (Hkeep q) as [-> ->]. apply Hfr.
    destruct (pixel_of e) as [ax ay]. simpl.
    destruct (decide (x = ax)) as [->|]; [|auto].
    destruct (decide (y = ay)) as [->|]; [|auto]. done.
Qed.


#[local] Instance ts_le_trans : Transitive ts_le.
Proof. intros a b c. unfold ts_le. apply leb_trans. Qed.


Lemma GrabEvent_keeps_order s e rest draw :
  surface_ok s -> sae_le_saeLatest s -> sae_below s (e :: rest) ->
  StronglySorted ts_le (e :: rest) ->
  pixel_in s (fst (pixel_of e)) (snd (pixel_of e)) ->
  exists s', GrabEvent s e draw = Some s' /\ surface_ok s' /\ _intri s' = _intri s
             /\ sae_le_saeLatest s' /\ sae_below s' rest.
Proof.
  intros Hok Hinv Hbelow Hsorted Hin.
  destruct (GrabEvent_effect s e draw Hok Hin)
    as (s' & tLast & tLastInv & Hrun & Hok' & _ & Hintri & _ & _ & _ & HL' & Hsae' & Hfr).
  set (p := GetPolarity e) in *. set (ex := fst (pixel_of e)) in *.
  set (ey := snd (pixel_of e)) in *. set (et := GetTimestamp e) in *.
  destruct (Hinv p ex ey Hin) as (a0 & b0 & Ha0 & _ & _).
  assert ((a0 <=? et)%float = true) as Ha0et.
  { pose proof (Hbelow p ex ey a0 Ha0) as HF. by apply Forall_cons in HF as [? _]. }
  apply StronglySorted_inv in Hsorted as [_ Hlater].
  assert (forall q x y, q = p /\ x = ex /\ y = ey \/ (q <> p \/ x <> ex \/ y <> ey)) as Hcase.
  { intros q x y. destruct (decide (q = p)); [|auto].
    destruct (decide (x = ex)); [|auto]. destruct (decide (y = ey)); auto. }
  exists s'. split; [done|]. split; [done|]. split; [done|]. split.
  - intros q x y Hxy.
    destruct (Hcase q x y) as [(-> & -> & ->)|Hne].
    + rewrite Hsae', HL'. destruct (debounce_pass _ _ _ _).
      * exists et, et. eauto using leb_true_refl_r.
      * exists a0, et. auto.
    + destruct (Hfr q x y Hne) as [-> ->]. apply Hinv.
      unfold pixel_in in *. by rewrite <- Hintri.
  - intros q x y a Ha.
    destruct (Hcase q x y) as [(-> & -> & ->)|Hne].
    + rewrite Hsae' in Ha. destruct (debounce_pass _ _ _ _).
      * assert (a = et) as -> by congruence. exact Hlater.
      * pose proof (Hbelow p ex ey a Ha) as HF. by apply Forall_cons in HF as [_ ?].
    + destruct (Hfr q x y Hne) as [Hs _]. rewrite Hs in Ha.
      pose proof (Hbelow q x y a Ha) as HF. by apply Forall_cons in HF as [_ ?].
Qed.

Lemma GrabEvents_keep_order events : forall s draw,
  surface_ok s -> sae_le_saeLatest s -> sae_below s events ->
  StronglySorted ts_le events ->
  Forall (fun e => pixel_in s (fst (pixel_of e)) (snd (pixel_of e))) events ->
  exists s', GrabEvents s events draw = Some s' /\ sae_le_saeLatest s'.
Proof.
  induction events as [|e rest IH]; intros s draw Hok Hinv Hbelow Hsorted Hall.
  - exists s. by split.
  - apply Forall_cons in Hall as [Hin Hall].
    destruct (GrabEvent_keeps_order s e rest draw Hok Hinv Hbelow Hsorted Hin)
      as (s1 & Hrun & Hok1 & Hintri & Hinv1 & Hbelow1).
    apply StronglySorted_inv in Hsorted as [Hsorted _].
    destruct (IH s1 draw Hok1 Hinv1 Hbelow1 Hsorted) as (s' & Hrun' & Hinv').
    { eapply Forall_impl; [exact Hall|]. intros e'. unfold pixel_in. by rewrite Hintri. }
    exists s'. simpl. rewrite Hrun. simpl. by rewrite Hrun'.
Qed.

Lemma new_surface_reads intri thd p x y :
  0 <= x < imgWidth intri -> 0 <= y < imgHeight intri ->
  sae_at (ActiveEventSurface_new intri thd) p x y = Some 0%float
  /\ saeLatest_at (ActiveEventSurface_new intri thd) p x y = Some 0%float.
Proof.
  intros Hx Hy. unfold sae_at, saeLatest_at. simpl.
  destruct p; simpl; split; by apply DenseFacts.get_fill.
Qed.

Lemma new_surface_sae_zero intri thd p x y a :
  sae_at (ActiveEventSurface_new intri thd) p x y = Some a -> a = 0%float.
Proof.
  intros Ha. pose proof (DenseFacts.get_Some_in_range _ _ _ _ Ha) as Hin.
  apply DenseFacts.in_range_spec in Hin.
  assert (0 <= x < imgWidth intri /\ 0 <= y < imgHeight intri) as [Hx Hy].
  { by destruct p. }
  destruct (new_surface_reads intri thd p x y Hx Hy) as [Hz _]. congruence.
Qed.


(** ** The velocity factor on laid-out blocks *)

Section FactorFacts.
Context {T SO3 Meta : Type} `{Scalar T} `{Utils T} `{SophusSO3 T SO3} `{CTraj T SO3 Meta}.
Variables (Order : nat) (TimeDeriv : Z) (IsInvDepth : bool).
#[local] Open Scope scalar_scope.

Lemma param_blocks_tail (P : @CalibParams T) k :
  param_blocks P !! (length (so3_knots P) + length (scale_knots P) + k)%nat
  = [ p_SO3_DnToBr P;
      (let '(x, y, z) := p_POS_DnInBr P in [x; y; z]);
      [p_TO_DnToBr P]; [p_READOUT_TIME P];
      [p_FX P]; [p_FY P]; [p_CX P]; [p_CY P];
      [p_ALPHA P]; [p_BETA P]; [p_DEPTH_INFO P] ] !! k.
Proof.
  unfold param_blocks.
  rewrite <- Nat.add_assoc, lookup_app_r by lia.
  rewrite lookup_app_r by lia. f_equal. lia.
Qed.

Lemma param_blocks_so3_window (P : @CalibParams T) i :
  (i + Order <= length (so3_knots P))%nat ->
  take Order (drop i (param_blocks P)) = take Order (drop i (so3_knots P)).
Proof.
  intros Hi. unfold param_blocks.
  rewrite drop_app_le by lia. rewrite take_app_le; [done|].
  rewrite length_drop. lia.
Qed.

Lemma param_blocks_scale_window (P : @CalibParams T) i :
  (i + Order <= length (scale_knots P))%nat ->
  take Order (drop (i + length (so3_knots P)) (param_blocks P))
  = take Order (drop i (scale_knots P)).
Proof.
  intros Hi. unfold param_blocks.
  rewrite Nat.add_comm, drop_app_add.
  rewrite drop_app_le by lia. rewrite take_app_le; [done|].
  rewrite length_drop. lia.
Qed.

Ltac block_at k :=
  match goal with
  | |- param_blocks ?P !! ?n = _ =>
      replace n with (length (so3_knots P) + length (scale_knots P) + k)%nat by lia;
      rewrite param_blocks_tail; reflexivity
  end.

(** [operator()] on blocks in the fixed order, every read resolved. *)
Lemma operator_call_laid_out (f : RGBDVelocityFactor Meta) (P : @CalibParams T) :
  layout_ok Order f P ->
  operator_call Order TimeDeriv IsInvDepth f (param_blocks P)
  = ('(linVel, angVel) ←
       sensor_frame_velocities Order TimeDeriv f P (spec_body_time (_corr f) P);
     let '(A, B) :=
       SubMats (p_FX P) (p_FY P) (p_CX P) (p_CY P)
         (of_double (arr3_at (xTraceAry (_corr f)) 1),
          of_double (arr3_at (yTraceAry (_corr f)) 1)) in
     Some (scal_vec2 (of_double (_weight f))
             (vec2_sub
                (vec2_add
                   (mat23_vec3
                      (scal_mat23
                         (if IsInvDepth
                          then p_DEPTH_INFO P / (p_ALPHA P + p_BETA P * p_DEPTH_INFO P)
                          else of_double 1.0 / (p_ALPHA P * p_DEPTH_INFO P + p_BETA P))
                         A)
                      linVel)
                   (mat23_vec3 B angVel))
                (spec_observed (_corr f) (p_READOUT_TIME P))))).
Proof.
  intros (Hn1 & Hn2 & Hi1 & Hi2).
  unfold operator_call, block0. rewrite <- Hn1, <- Hn2.
  set (N := (length (so3_knots P) + length (scale_knots P))%nat).
  assert (param_blocks P !! (N)%nat = Some (p_SO3_DnToBr P)) as -> by block_at 0%nat.
  assert (param_blocks P !! (N + 1)%nat = Some ((let '(x, y, z) := p_POS_DnInBr P in [x; y; z]))) as -> by block_at 1%nat.
  assert (param_blocks P !! (N + 1 + 1)%nat = Some ([p_TO_DnToBr P])) as -> by block_at 2%nat.
  assert (param_blocks P !! (N + 1 + 1 + 1)%nat = Some ([p_READOUT_TIME P])) as -> by block_at 3%nat.
  assert (param_blocks P !! (N + 1 + 1 + 1 + 1)%nat = Some ([p_FX P])) as -> by block_at 4%nat.
  assert (param_blocks P !! (N + 1 + 1 + 1 + 1 + 1)%nat = Some ([p_FY P])) as -> by block_at 5%nat.
  assert (param_blocks P !! (N + 1 + 1 + 1 + 1 + 1 + 1)%nat = Some ([p_CX P])) as -> by block_at 6%nat.
  assert (param_blocks P !! (N + 1 + 1 + 1 + 1 + 1 + 1 + 1)%nat = Some ([p_CY P])) as -> by block_at 7%nat.
  assert (param_blocks P !! (N + 1 + 1 + 1 + 1 + 1 + 1 + 1 + 1)%nat = Some ([p_ALPHA P])) as -> by block_at 8%nat.
  assert (param_blocks P !! (N + 1 + 1 + 1 + 1 + 1 + 1 + 1 + 1 + 1)%nat = Some ([p_BETA P])) as -> by block_at 9%nat.
  assert (param_blocks P !! (N + 1 + 1 + 1 + 1 + 1 + 1 + 1 + 1 + 1 + 1)%nat = Some ([p_DEPTH_INFO P])) as -> by block_at 10%nat.
  unfold sensor_frame_velocities.
  change (MidPointTime (_corr f) ?r + ?t) with (MidPointTime (_corr f) r + t).
  destruct (p_POS_DnInBr P) as [[px py] pz] eqn:HPOS. simpl.
  change (MidPointTime (_corr f) (p_READOUT_TIME P) + p_TO_DnToBr P)
    with (spec_body_time (_corr f) P).
  destruct (ComputeSplineIndex (_so3Meta f) (spec_body_time (_corr f) P))
    as [[i1 u1]|] eqn:E1; simpl; [|done].
  destruct (ComputeSplineIndex (_scaleMeta f) (spec_body_time (_corr f) P))
    as [[i2 u2]|] eqn:E2; simpl; [|done].
  rewrite (param_blocks_so3_window P i1 (Hi1 i1 u1 eq_refl)).
  rewrite (param_blocks_scale_window P i2 (Hi2 i2 u2 eq_refl)).
  destruct (EvaluateLie _ u1 _) as [R angVel].
  simpl. destruct IsInvDepth; reflexivity.
Qed.

(** The vector form of the residual, component by component. *)
Lemma residual_written_out (f : RGBDVelocityFactor Meta) (P : @CalibParams T) (k : T) :
  ('(linVel, angVel) ←
     sensor_frame_velocities Order TimeDeriv f P (spec_body_time (_corr f) P);
   let '(A, B) :=
     SubMats (p_FX P) (p_FY P) (p_CX P) (p_CY P)
       (of_double (arr3_at (xTraceAry (_corr f)) 1),
        of_double (arr3_at (yTraceAry (_corr f)) 1)) in
   Some (scal_vec2 (of_double (_weight f))
           (vec2_sub
              (vec2_add (mat23_vec3 (scal_mat23 k A) linVel) (mat23_vec3 B angVel))
              (spec_observed (_corr f) (p_READOUT_TIME P)))))
  = ('(linVel, angVel) ←
       sensor_velocities_at Order TimeDeriv f P
         (anchor_body_time (_corr f) (p_READOUT_TIME P) (p_TO_DnToBr P));
     let predicted :=
       predicted_pixel_velocity k (p_FX P) (p_FY P) (p_CX P) (p_CY P) (_corr f)
         linVel angVel in
     let observed := observed_pixel_velocity (_corr f) (p_READOUT_TIME P) in
     Some (of_double (_weight f) * (fst predicted - fst observed),
           of_double (_weight f) * (snd predicted - snd observed))%S).
Proof.
  destruct f as [so3Meta scaleMeta c so3DtInv scaleDtInv w].
  destruct c as [[[t0 t1] t2] [[x0 x1] x2] [[y0 y1] y2] [[r0 r1] r2] dep inv fr obs wt].
  unfold sensor_frame_velocities, sensor_velocities_at, spec_body_time, anchor_body_time.
  cbn [_corr _so3Meta _scaleMeta _so3DtInv _scaleDtInv _weight timeAry rdFactorAry
       xTraceAry yTraceAry arr3_at Z.eqb].
  destruct (ComputeSplineIndex so3Meta _) as [[i1 u1]|]; [|reflexivity].
  cbn [mbind option_bind].
  destruct (ComputeSplineIndex scaleMeta _) as [[i2 u2]|]; [|reflexivity].
  cbn [mbind option_bind].
  destruct (EvaluateLie _ u1 _) as [R angVel].
  destruct (Evaluate TimeDeriv _ u2 _) as [[v0 v1] v2].
  destruct (SO3_act R angVel) as [[w0 w1] w2].
  destruct (SO3_hat _) as [[[[h00 h01] h02] [[h10 h11] h12]] [[h20 h21] h22]].
  cbn [mat33_opp vec3_map mat33_vec3 dot3 vec3_add mbind option_bind].
  destruct (SO3_act (SO3_mul _ _) _) as [[l0 l1] l2].
  destruct (SO3_act (SO3_inverse _) angVel) as [[a0 a1] a2].
  reflexivity.
Qed.

End FactorFacts.

(** ** The two views of a pack *)

Lemma elem_of_range lo hi i : i ∈ range lo hi <-> lo <= i < hi.
Proof. unfold range. rewrite elem_of_seqZ. lia. Qed.

Lemma EventArray_of_nullptr events : EventArray_of events = nullptr <-> events = [].
Proof.
  unfold EventArray_of. destruct (last events) as [e|] eqn:E.
  - split; [discriminate|]. intros ->. discriminate.
  - by apply last_None in E.
Qed.

Lemma EventArray_of_ptr events arr :
  EventArray_of events = ptr arr -> GetEvents arr = events /\ events <> [].
Proof.
  unfold EventArray_of. destruct (last events) as [e|] eqn:E; [|discriminate].
  intros [= <-]. split; [done|]. intros ->. discriminate.
Qed.

(** A scan whose body appends what [pixel] gives collects [omap pixel]. *)
Lemma for_each_collect {A} (l : list A) (body : A -> list Event -> option (list Event))
    (pixel : A -> option Event) (ok : A -> Prop) :
  (forall a events, ok a -> body a events = Some (events ++ option_list (pixel a))) ->
  Forall ok l ->
  forall events, for_each l body events = Some (events ++ omap pixel l).
Proof.
  intros Hbody Hall. induction Hall as [|a l Ha Hall IH]; intros events; simpl.
  - by rewrite app_nil_r.
  - rewrite (Hbody a events Ha). simpl. rewrite IH.
    destruct (pixel a); simpl; by rewrite <- ?app_assoc, ?app_nil_r.
Qed.

Lemma for_each_rows {A} (l : list A) (body : A -> list Event -> option (list Event))
    (row : A -> list Event) (ok : A -> Prop) :
  (forall a events, ok a -> body a events = Some (events ++ row a)) ->
  Forall ok l ->
  forall events, for_each l body events = Some (events ++ (l ≫= row)).
Proof.
  intros Hbody Hall. induction Hall as [|a l Ha Hall IH]; intros events; simpl.
  - by rewrite app_nil_r.
  - rewrite (Hbody a events Ha). simpl. rewrite IH. by rewrite <- app_assoc.
Qed.

Lemma raster_events_nil rows cols pixel :
  raster_events rows cols pixel = [] <->
  forall ey ex, 0 <= ey < rows -> 0 <= ex < cols -> pixel ey ex = None.
Proof.
  unfold raster_events. split.
  - intros Hnil ey ex Hey Hex.
    destruct (pixel ey ex) as [e|] eqn:E; [|done].
    assert (e ∈ range 0 rows ≫= (fun ey => omap (pixel ey) (range 0 cols))) as Hin.
    { apply list_elem_of_bind. exists ey. split; [|by apply elem_of_range].
      apply list_elem_of_omap. exists ex. split; [by apply elem_of_range|done]. }
    rewrite Hnil in Hin. by apply elem_of_nil in Hin.
  - intros Hnone. destruct (range 0 rows ≫= _) as [|e l] eqn:E; [done|].
    assert (e ∈ range 0 rows ≫= (fun ey => omap (pixel ey) (range 0 cols))) as Hin.
    { rewrite E. left. }
    apply list_elem_of_bind in Hin as (ey & Hin & Hey%elem_of_range).
    apply list_elem_of_omap in Hin as (ex & Hex%elem_of_range & He).
    rewrite Hnone in He by done. discriminate.
Qed.

Section PackFacts.
Variable pack : NormFlowPack.
Hypothesis Hok : pack_ok pack.

Lemma pack_reads ey ex :
  0 <= ey < Dense.rows (rawTimeSurfaceMap pack) ->
  0 <= ex < Dense.cols (rawTimeSurfaceMap pack) ->
  is_Some (Dense.get (rawTimeSurfaceMap pack) ey ex)
  /\ is_Some (Dense.get (polarityMap pack) ey ex)
  /\ is_Some (Dense.get (inliersOccupy pack) ey ex).
Proof.
  intros Hey Hex. destruct Hok as (Hraw & Hpol & Hocc).
  repeat split; apply DenseFacts.get_is_Some;
    solve [ by destruct Hraw | by destruct Hpol | by destruct Hocc
          | eapply mat_ok_in_range; eauto ].
Qed.

Lemma ActiveEvents_scan dt :
  ActiveEvents pack dt
  = Some (EventArray_of
            (raster_events (Dense.rows (rawTimeSurfaceMap pack))
               (Dense.cols (rawTimeSurfaceMap pack)) (active_event pack dt))).
Proof.
  unfold ActiveEvents, raster_events.
  rewrite (for_each_rows _ _
             (fun ey => omap (active_event pack dt ey)
                          (range 0 (Dense.cols (rawTimeSurfaceMap pack))))
             (fun ey => 0 <= ey < Dense.rows (rawTimeSurfaceMap pack))); [done| |].
  - intros ey events Hey.
    apply (for_each_collect _ _ _
             (fun ex => 0 <= ex < Dense.cols (rawTimeSurfaceMap pack))).
    + intros ex evs Hex. unfold active_event.
      destruct (pack_reads ey ex Hey Hex) as ([et ->] & [ep ->] & _). simpl.
      destruct (_ || _); simpl; by rewrite ?app_nil_r.
    + apply Forall_forall. intros ex. apply elem_of_range.
  - apply Forall_forall. intros ey. apply elem_of_range.
Qed.

Lemma NormFlowEvents_scan :
  NormFlowEvents pack
  = Some (EventArray_of
            (raster_events (Dense.rows (rawTimeSurfaceMap pack))
               (Dense.cols (rawTimeSurfaceMap pack)) (norm_flow_event pack))).
Proof.
  unfold NormFlowEvents, raster_events.
  rewrite (for_each_rows _ _
             (fun ey => omap (norm_flow_event pack ey)
                          (range 0 (Dense.cols (rawTimeSurfaceMap pack))))
             (fun ey => 0 <= ey < Dense.rows (rawTimeSurfaceMap pack))); [done| |].
  - intros ey events Hey.
    apply (for_each_collect _ _ _
             (fun ex => 0 <= ex < Dense.cols (rawTimeSurfaceMap pack))).
    + intros ex evs Hex. unfold norm_flow_event.
      destruct (pack_reads ey ex Hey Hex) as ([et ->] & [ep ->] & [occ ->]). simpl.
      destruct (_ <? _)%float; simpl; [by rewrite app_nil_r|].
      destruct (occ =? 0); simpl; by rewrite ?app_nil_r.
    + apply Forall_forall. intros ex. apply elem_of_range.
  - apply Forall_forall. intros ey. apply elem_of_range.
Qed.

Lemma active_event_None dt ey ex :
  0 <= ey < Dense.rows (rawTimeSurfaceMap pack) ->
  0 <= ex < Dense.cols (rawTimeSurfaceMap pack) ->
  active_event pack dt ey ex = None <-> ~ active_pixel pack dt ey ex.
Proof.
  intros Hey Hex. unfold active_event, active_pixel.
  destruct (pack_reads ey ex Hey Hex) as ([et ->] & [ep ->] & _). simpl.
  destruct (et <? 0.001)%float eqn:E1, (dt <? timestamp pack - et)%float eqn:E2; simpl;
    split; try done.
  - intros _ (et' & [= <-] & ? & ?). congruence.
  - intros _ (et' & [= <-] & ? & ?). congruence.
  - intros _ (et' & [= <-] & ? & ?). congruence.
  - intros Hno. destruct Hno. eauto.
Qed.

Lemma norm_flow_event_None ey ex :
  0 <= ey < Dense.rows (rawTimeSurfaceMap pack) ->
  0 <= ex < Dense.cols (rawTimeSurfaceMap pack) ->
  norm_flow_event pack ey ex = None <-> ~ norm_flow_pixel pack ey ex.
Proof.
  intros Hey Hex. unfold norm_flow_event, norm_flow_pixel.
  destruct (pack_reads ey ex Hey Hex) as ([et ->] & [ep ->] & [occ ->]). simpl.
  destruct (et <? 0.001)%float eqn:E1; simpl.
  { split; [|done]. intros _ (et' & occ' & [= <-] & ? & _). congruence. }
  destruct (occ =? 0) eqn:E2; simpl.
  { apply Z.eqb_eq in E2. split; [|done].
    intros _ (et' & occ' & _ & _ & [= <-] & ?). congruence. }
  apply Z.eqb_neq in E2. split; [done|]. intros Hno. destruct Hno. eauto 10.
Qed.

Lemma active_event_Some dt ey ex e :
  active_event pack dt ey ex = Some e -> active_pixel pack dt ey ex.
Proof.
  unfold active_event, active_pixel.
  destruct (Dense.get (rawTimeSurfaceMap pack) ey ex) as [et|]; simpl; [|discriminate].
  destruct (et <? 0.001)%float eqn:E1, (dt <? timestamp pack - et)%float eqn:E2; simpl;
    try discriminate.
  eauto.
Qed.

Lemma norm_flow_event_Some ey ex e :
  norm_flow_event pack ey ex = Some e -> norm_flow_pixel pack ey ex.
Proof.
  unfold norm_flow_event, norm_flow_pixel.
  destruct (Dense.get (rawTimeSurfaceMap pack) ey ex) as [et|]; simpl; [|discriminate].
  destruct (et <? 0.001)%float eqn:E1; simpl; [discriminate|].
  destruct (Dense.get (inliersOccupy pack) ey ex) as [occ|]; simpl; [|discriminate].
  destruct (occ =? 0) eqn:E2; simpl; [discriminate|].
  apply Z.eqb_neq in E2. eauto 10.
Qed.

End PackFacts.

Lemma raster_events_cons rows cols pixel e l :
  raster_events rows cols pixel = e :: l -> exists ey ex, pixel ey ex = Some e.
Proof.
  intros E. assert (e ∈ raster_events rows cols pixel) as Hin by (rewrite E; left).
  apply list_elem_of_bind in Hin as (ey & Hin & _).
  apply list_elem_of_omap in Hin as (ex & _ & He). eauto.
Qed.

(** ** Loop invariants *)

Lemma for_each_inv {A S} (P : S -> Prop) (l : list A) (body : A -> S -> option S) :
  (forall a s s', a ∈ l -> P s -> body a s = Some s' -> P s') ->
  forall s s', P s -> for_each l body s = Some s' -> P s'.
Proof.
  induction l as [|a l IH]; intros Hbody s s' Hs; simpl.
  - by intros [= <-].
  - destruct (body a s) as [s1|] eqn:E; simpl; [|discriminate].
    apply IH.
    + intros a' t t' Ha'. apply Hbody. by right.
    + eapply Hbody; [left|exact Hs|exact E].
Qed.

Lemma for_each_break_inv {A S} (P : S -> Prop) (l : list A)
    (body : A -> S -> option (S * bool)) :
  (forall a s r, a ∈ l -> P s -> body a s = Some r -> P (fst r)) ->
  forall s s', P s -> for_each_break l body s = Some s' -> P s'.
Proof.
  induction l as [|a l IH]; intros Hbody s s' Hs; simpl.
  - by intros [= <-].
  - destruct (body a s) as [[s1 stop]|] eqn:E; simpl; [|discriminate].
    assert (P s1) as Hs1 by (eapply (Hbody a s (s1, stop)); [left|exact Hs|exact E]).
    destruct stop.
    + by intros [= <-].
    + apply IH; [|exact Hs1]. intros a' t t' Ha'. apply Hbody. by right.
Qed.

(** ** The end of the loop body of ExtractNormFlows *)

Lemma eqb_zero (a : float) : (a =? 0)%float = true -> a = 0%float \/ a = (-0)%float.
Proof.
  rewrite FloatAxioms.eqb_spec. intros Hz. rewrite <- (SF2Prim_Prim2SF a).
  destruct (Prim2SF a) as [s| s | | s m e].
  - destruct s; [right|left]; reflexivity.
  - destruct s; discriminate.
  - discriminate.
  - destruct s; discriminate.
Qed.

Lemma Centralization_length data : length (Centralization data) = length data.
Proof.
  unfold Centralization. destruct (foldl _ _ data) as [[m1 m2] m3].
  by rewrite length_map.
Qed.

Lemma vector_at_is_Some {A} (v : list A) idx :
  is_Some (vector_at v idx) <-> 0 <= idx < Z.of_nat (length v).
Proof.
  unfold vector_at. destruct (Z.ltb_spec idx 0) as [Hneg|Hpos].
  - split; [by intros [? ?]|lia].
  - rewrite lookup_lt_is_Some. lia.
Qed.

Lemma mark_inliers_total inRangeData inliers : forall occ,
  Forall (fun idx => is_Some (vector_at inRangeData idx)) inliers ->
  Forall (fun '(ex, ey, _) => Dense.in_range occ ey ex = true) inRangeData ->
  exists occ', mark_inliers inRangeData inliers occ = Some occ'.
Proof.
  induction inliers as [|idx inliers IH]; intros occ Hidx Hin; simpl.
  - eauto.
  - apply Forall_cons in Hidx as [[[[ex ey] et] Hat] Hidx].
    unfold mark_inliers. simpl. rewrite Hat. simpl.
    assert (Dense.in_range occ ey ex = true) as Hex.
    { unfold vector_at in Hat. destruct (idx <? 0); [discriminate|].
      apply list_elem_of_lookup_2 in Hat.
      by apply (proj1 (Forall_forall _ _) Hin) in Hat. }
    destruct (DenseFacts.set_is_Some occ ey ex 255 Hex) as [occ1 Hset].
    rewrite Hset. simpl. apply IH; [done|].
    eapply Forall_impl; [exact Hin|]. intros [[ax ay] at']. 
    by rewrite (DenseFacts.set_in_range _ _ _ _ _ ay ax Hset).
Qed.

(** Every point the window loops gather is a pixel of the mask. *)
Lemma gather_window_in_mask mask occ rtsMat ws subTravSize neighborDist x y w :
  gather_window mask occ rtsMat ws subTravSize neighborDist x y = Some w ->
  Forall (fun '(ex, ey, _) => Dense.in_range mask ey ex = true) (inRangeData w).
Proof.
  unfold gather_window.
  apply (for_each_break_inv
           (fun w => Forall (fun '(ex, ey, _) => Dense.in_range mask ey ex = true)
                       (inRangeData w))); [|by constructor].
  intros dy w0 [w1 stop] _ Hw0. 
  destruct (for_each_break _ _ w0) as [w'|] eqn:Hinner; simpl; [|discriminate].
  intros [= <- <-]. simpl. revert Hinner.
  apply (for_each_break_inv
           (fun w => Forall (fun '(ex, ey, _) => Dense.in_range mask ey ex = true)
                       (inRangeData w))); [|exact Hw0].
  intros dx v [v1 stop1] _ Hv.
  destruct (if (Z.abs dx <=? neighborDist) && (Z.abs dy <=? neighborDist)
            then _ else _) as [occupied|]; simpl; [|discriminate].
  destruct occupied; [by intros [= <- <-]|].
  destruct ((ws <? Z.abs dx) || (ws <? Z.abs dy)); [by intros [= <- <-]|].
  destruct (Dense.get mask (y + dy) (x + dx)) as [m|] eqn:Hm; simpl; [|discriminate].
  destruct (negb (m =? 255)); [by intros [= <- <-]|].
  destruct (Dense.get rtsMat (y + dy) (x + dx)) as [ts|]; simpl; [|discriminate].
  intros [= <- <-]. simpl. apply Forall_app. split; [exact Hv|].
  constructor; [|constructor]. by apply DenseFacts.get_Some_in_range in Hm.
Qed.

Section FitFacts.
Context `{EigenLDLT float} `{Ransac}.

(** Past a plane fit that succeeded, [fit_candidate] is the degeneracy test
    on the flow of the refitted plane, then the record and the marks. *)
Lemma fit_candidate_fitted st data timeCen x y goodRatioThd thd maxIter
    inliers model A B C :
  ransac_computeModel x y (Centralization data) thd maxIter = (true, inliers, model) ->
  (double_of_int (Z.of_nat (length inliers)) / double_of_int (Z.of_nat (length data))
   <? goodRatioThd)%float = false ->
  optimizeModelCoefficients (Centralization data) inliers model = Some (A, B, C) ->
  fit_candidate st data timeCen x y goodRatioThd thd maxIter
  = if (degeneracy_bound <? squaredNorm (flow_of_plane A B))%float
    then Some st
    else occ' ← mark_inliers data inliers (st_inliersOccupy st);
         Some (mkScan (occupy st) occ'
                 (st_nfs st ++ [mkNormFlow timeCen (x, y) (flow_of_plane A B)])).
Proof.
  intros Hransac Hratio Hrefit. unfold fit_candidate.
  rewrite Hransac. simpl. rewrite Hratio, Hrefit. reflexivity.
Qed.

Lemma fit_candidate_marks st data inliers model A B C :
  optimizeModelCoefficients (Centralization data) inliers model = Some (A, B, C) ->
  Forall (fun '(ex, ey, _) => Dense.in_range (st_inliersOccupy st) ey ex = true) data ->
  exists occ', mark_inliers data inliers (st_inliersOccupy st) = Some occ'.
Proof.
  intros Hrefit Hin. apply mark_inliers_total; [|done].
  unfold optimizeModelCoefficients, computeModelCoefficients in Hrefit.
  destruct (mapM (vector_at (Centralization data)) inliers) as [pts|] eqn:Hpts;
    [|discriminate].
  assert (is_Some (mapM (vector_at (Centralization data)) inliers)) as Hsome by eauto.
  apply mapM_is_Some in Hsome.
  eapply Forall_impl; [exact Hsome|]. intros idx. simpl.
  rewrite !vector_at_is_Some, Centralization_length. done.
Qed.

(** The loop body at a candidate pixel whose plane fit succeeded. *)
Lemma scan_pixel_fitted mask rtsMat ws subTravSize neighborDist winSampleCountThd
    goodRatioThd thd maxIter y x st w inliers model A B C :
  Dense.get mask y x = Some 255 ->
  gather_window mask (occupy st) rtsMat ws subTravSize neighborDist x y = Some w ->
  jumpCurPixel w = false ->
  (Z.of_nat (length (inRangeData w)) <? winSampleCountThd) = false ->
  same_size (occupy st) mask -> same_size (st_inliersOccupy st) mask ->
  ransac_computeModel x y (Centralization (inRangeData w)) thd maxIter
  = (true, inliers, model) ->
  (double_of_int (Z.of_nat (length inliers))
   / double_of_int (Z.of_nat (length (inRangeData w))) <? goodRatioThd)%float = false ->
  optimizeModelCoefficients (Centralization (inRangeData w)) inliers model
  = Some (A, B, C) ->
  exists occupy' occ',
    Dense.set (occupy st) y x 255 = Some occupy'
    /\ mark_inliers (inRangeData w) inliers (st_inliersOccupy st) = Some occ'
    /\ scan_pixel mask rtsMat ws subTravSize neighborDist winSampleCountThd
         goodRatioThd thd maxIter y x st
       = Some (if (degeneracy_bound <? squaredNorm (flow_of_plane A B))%float
               then mkScan occupy' (st_inliersOccupy st) (st_nfs st)
               else mkScan occupy' occ'
                      (st_nfs st ++ [mkNormFlow (timeCen w) (x, y) (flow_of_plane A B)])).
Proof.
  intros Hmask Hgather Hjump Hcount [Hor Hoc] [Hir Hic] Hransac Hratio Hrefit.
  assert (Dense.in_range (occupy st) y x = true) as Hin.
  { apply DenseFacts.get_Some_in_range in Hmask.
    unfold Dense.in_range in *. by rewrite Hor, Hoc. }
  destruct (DenseFacts.set_is_Some (occupy st) y x 255 Hin) as [occupy' Hset].
  destruct (fit_candidate_marks (mkScan occupy' (st_inliersOccupy st) (st_nfs st))
              (inRangeData w) inliers model A B C Hrefit) as [occ' Hmark].
  { eapply Forall_impl; [exact (gather_window_in_mask _ _ _ _ _ _ _ _ _ Hgather)|].
    intros [[ex ey] et]. simpl. unfold Dense.in_range. by rewrite Hir, Hic. }
  simpl in Hmark. exists occupy', occ'. split; [done|]. split; [done|].
  unfold scan_pixel. rewrite Hmask. simpl. rewrite Hgather. simpl.
  rewrite Hjump, Hcount. simpl. rewrite Hset. simpl.
  rewrite (fit_candidate_fitted _ _ _ _ _ _ _ _ inliers model A B C Hransac Hratio Hrefit).
  simpl. destruct (degeneracy_bound <? _)%float; [done|]. by rewrite Hmark.
Qed.

(** Whatever the fit returns, the flows recorded so far stay allowed. *)
Lemma fit_candidate_keeps st data timeCen x y goodRatioThd thd maxIter st' :
  Forall flow_kept (st_nfs st) ->
  fit_candidate st data timeCen x y goodRatioThd thd maxIter = Some st' ->
  Forall flow_kept (st_nfs st').
Proof.
  intros Hkept. unfold fit_candidate.
  destruct (ransac_computeModel x y _ thd maxIter) as [[res inliers] model].
  destruct (negb res || _); [by intros [= <-]|].
  destruct (optimizeModelCoefficients _ inliers model) as [[[A B] C]|]; simpl;
    [|discriminate].
  destruct (_ <? squaredNorm _)%float eqn:Hbound; [by intros [= <-]|].
  destruct (for_each inliers _ _) as [occ'|]; simpl; [|discriminate].
  intros [= <-]. simpl. apply Forall_app. split; [done|].
  constructor; [|constructor]. exists A, B. split; [reflexivity|exact Hbound].
Qed.

Lemma scan_pixel_keeps mask rtsMat ws subTravSize neighborDist winSampleCountThd
    goodRatioThd thd maxIter y x st st' :
  Forall flow_kept (st_nfs st) ->
  scan_pixel mask rtsMat ws subTravSize neighborDist winSampleCountThd
    goodRatioThd thd maxIter y x st = Some st' ->
  Forall flow_kept (st_nfs st').
Proof.
  intros Hkept. unfold scan_pixel.
  destruct (Dense.get mask y x) as [m|]; simpl; [|discriminate].
  destruct (negb (m =? 255)); [by intros [= <-]|].
  destruct (gather_window _ _ _ _ _ _ _ _) as [w|]; simpl; [|discriminate].
  destruct (jumpCurPixel w || _); [by intros [= <-]|].
  destruct (Dense.set (occupy st) y x 255) as [occupy'|]; simpl; [|discriminate].
  by apply fit_candidate_keeps.
Qed.

Lemma ExtractNormFlows_flows_kept rtsMat pMat timeLast decaySec winSize neighborDist
    goodRatioThd thd maxIter pack :
  ExtractNormFlows rtsMat pMat timeLast decaySec winSize neighborDist goodRatioThd thd
    maxIter = Some pack ->
  Forall flow_kept (nfs pack).
Proof.
  unfold ExtractNormFlows.
  destruct (for_each _ _ _) as [st|] eqn:Hscan; simpl; [|discriminate].
  intros [= <-]. simpl. revert Hscan.
  apply (for_each_inv (fun st => Forall flow_kept (st_nfs st))); [|by constructor].
  intros y st0 st1 _ Hst0.
  apply (for_each_inv (fun st => Forall flow_kept (st_nfs st))); [|exact Hst0].
  intros x st2 st3 _. apply scan_pixel_keeps.
Qed.

End FitFacts.

(** ** The plane model *)

Section SacFacts.
Context {T : Type} `{Scalar T} `{EigenLDLT T}.
#[local] Open Scope scalar_scope.





End SacFacts.

(** ** Least squares, in exact arithmetic *)

Section LeastSquares.
#[local] Open Scope R_scope.














End LeastSquares.


(** * Lemmas for the further properties *)

(** ** The event surface *)

Lemma GrabEvent_outside s e draw :
  surface_ok s -> ~ pixel_in s (fst (pixel_of e)) (snd (pixel_of e)) ->
  GrabEvent s e draw = None.
Proof.
  intros (_ & Hlat & _) Hout. unfold GrabEvent.
  fold (pol_index (GetPolarity e)).
  assert (Dense.get (arr2_get (_saeLatest s) (pol_index (GetPolarity e)))
            (to_uint16 (fst (GetPos e))) (to_uint16 (snd (GetPos e))) = None) as ->; [|reflexivity].
  unfold Dense.get.
  destruct (Dense.in_range _ _ _) eqn:Hin; [|done].
  apply DenseFacts.in_range_spec in Hin.
  destruct (pair_ok_get _ _ _ (GetPolarity e) Hlat) as (_ & Hr & Hc).
  rewrite Hr, Hc in Hin. by destruct Hout.
Qed.

(** What [GrabEvent] does to the image. *)
Lemma GrabEvent_image s e draw s' :
  GrabEvent s e draw = Some s' ->
  if draw
  then Dense.set (_eventImgMat s) (snd (pixel_of e)) (fst (pixel_of e))
         (if GetPolarity e then (255, 0, 0) else (0, 0, 255)) = Some (_eventImgMat s')
  else _eventImgMat s' = _eventImgMat s.
Proof.
  unfold GrabEvent, pixel_of. simpl. intros Hrun.
  apply bind_Some in Hrun as (tLast & _ & Hrun).
  apply bind_Some in Hrun as (tLastInv & _ & Hrun).
  apply bind_Some in Hrun as ([sae' latest'] & _ & Hrun).
  apply bind_Some in Hrun as (img' & Himg & Hrun).
  injection Hrun as <-. simpl.
  destruct draw; [exact Himg|by injection Himg].
Qed.

Lemma pixel_cases (p q : bool) (x y ex ey : Z) :
  q = p /\ x = ex /\ y = ey \/ (q <> p \/ x <> ex \/ y <> ey).
Proof.
  destruct (decide (q = p)); [|auto].
  destruct (decide (x = ex)); [|auto]. destruct (decide (y = ey)); auto.
Qed.

Lemma GrabEvents_below_latest events : forall s draw,
  surface_ok s -> below_latest s ->
  Forall (fun e => (_timeLatest s <=? GetTimestamp e)%float = true) events ->
  StronglySorted ts_le events ->
  Forall (fun e => pixel_in s (fst (pixel_of e)) (snd (pixel_of e))) events ->
  exists s', GrabEvents s events draw = Some s' /\ below_latest s'.
Proof.
  induction events as [|e rest IH]; intros s draw Hok Hinv Hlate Hsorted Hall.
  - exists s. by split.
  - apply Forall_cons in Hall as [Hin Hall].
    apply Forall_cons in Hlate as [Hle _].
    apply StronglySorted_inv in Hsorted as [Hsorted Hlater].
    destruct (GrabEvent_effect s e draw Hok Hin)
      as (s1 & tLast & tLastInv & Hrun & Hok1 & _ & Hintri & Htime & _ & _ & HL'
          & Hsae' & Hfr).
    destruct (IH s1 draw Hok1) as (s' & Hrun' & Hinv'); [| |done| |].
    + intros q x y a Ha. rewrite Htime.
      destruct (pixel_cases (GetPolarity e) q x y (fst (pixel_of e)) (snd (pixel_of e)))
        as [(-> & -> & ->)|Hne].
      * rewrite Hsae', HL' in Ha.
        destruct (debounce_pass _ _ _ _).
        -- assert (a = GetTimestamp e) as -> by (destruct Ha; congruence).
           eauto using leb_true_refl_r.
        -- destruct Ha as [Ha|Ha].
           ++ eapply leb_trans; [|exact Hle]. apply (Hinv _ _ _ _ (or_introl Ha)).
           ++ assert (a = GetTimestamp e) as -> by congruence.
              eauto using leb_true_refl_r.
      * destruct (Hfr q x y Hne) as [Hs Hl]. rewrite Hs, Hl in Ha.
        eapply leb_trans; [|exact Hle]. by apply (Hinv q x y a).
    + rewrite Htime. exact Hlater.
    + eapply Forall_impl; [exact Hall|]. intros e'. unfold pixel_in. by rewrite Hintri.
    + exists s'. simpl. rewrite Hrun. simpl. by rewrite Hrun'.
Qed.

Lemma last_time_cons prev e rest :
  last_time prev (e :: rest) = last_time (GetTimestamp e) rest.
Proof.
  destruct rest as [|e1 rest]; [done|]. unfold last_time.
  change (last (e :: e1 :: rest)) with (last (e1 :: rest)).
  destruct (last (e1 :: rest)) eqn:Hlast; [done|]. by apply last_None in Hlast.
Qed.

(** ** Loops that run to their end *)

(** A loop whose body returns on every state the loop can reach, [P] telling
    what the elements gone through have done. *)
Lemma for_each_prefix {A S} (P : list A -> S -> Prop) (l : list A)
    (body : A -> S -> option S) :
  (forall gone a rest s, l = gone ++ a :: rest -> P gone s ->
     exists s', body a s = Some s' /\ P (gone ++ [a]) s') ->
  forall s, P [] s -> exists s', for_each l body s = Some s' /\ P l s'.
Proof.
  intros Hstep.
  assert (forall rest gone s, l = gone ++ rest -> P gone s ->
            exists s', for_each rest body s = Some s' /\ P l s') as Hgen.
  { induction rest as [|a rest IH]; intros gone s Hl HP.
    - exists s. rewrite app_nil_r in Hl. by subst.
    - destruct (Hstep gone a rest s Hl HP) as (s1 & Hbody & HP1).
      destruct (IH (gone ++ [a]) s1) as (s' & Hrun & HP'); [by rewrite <- app_assoc|done|].
      exists s'. simpl. rewrite Hbody. simpl. done. }
  intros s HP. by apply (Hgen l [] s).
Qed.

Lemma for_each_total {A S} (P : S -> Prop) (l : list A) (body : A -> S -> option S) :
  (forall a s, a ∈ l -> P s -> exists s', body a s = Some s' /\ P s') ->
  forall s, P s -> exists s', for_each l body s = Some s' /\ P s'.
Proof.
  intros Hstep s HP.
  apply (for_each_prefix (fun _ => P) l body); [|done].
  intros gone a rest s0 -> HP0. apply Hstep; [|done].
  apply elem_of_app. right. by left.
Qed.

Lemma range_split_fresh lo hi gone a rest :
  range lo hi = gone ++ a :: rest -> (a ∉ gone) /\ lo <= a < hi.
Proof.
  intros Hl. split.
  - pose proof (NoDup_seqZ lo (hi - lo)) as Hnd. fold (range lo hi) in Hnd.
    rewrite Hl in Hnd. apply NoDup_app in Hnd as (_ & Hdisj & _).
    intros Hin. apply (Hdisj a Hin). by left.
  - apply elem_of_range. rewrite Hl. apply elem_of_app. right. by left.
Qed.

(** ** RawTimeSurface *)

Lemma uchar_of_one `{FloatToUchar} : uchar_of_double 1.0%float = 1.
Proof. reflexivity. Qed.

Section RawTimeSurfaceFacts.
Context `{VisualUndistortionMap} `{FloatToUchar}.

Lemma RawTimeSurface_run s ignorePolarity :
  surface_ok s ->
  exists maps,
    RawTimeSurface s ignorePolarity false = Some maps
    /\ RawTimeSurface s ignorePolarity true
       = Some (RemoveDistortion_64F (_intri s) (fst maps),
               RemoveDistortion_8U (_intri s) (snd maps))
    /\ mat_ok (imgHeight (_intri s)) (imgWidth (_intri s)) (fst maps)
    /\ mat_ok (imgHeight (_intri s)) (imgWidth (_intri s)) (snd maps)
    /\ forall x y, pixel_in s x y -> raw_entry_ok s ignorePolarity maps y x.
Proof.
  intros (Hsae & _ & Himg).
  set (w := imgWidth (_intri s)). set (h := imgHeight (_intri s)).
  assert (0 <= h /\ 0 <= w) as [Hh Hw].
  { destruct Himg as ((? & ? & _) & Hr & Hc). fold h in Hr. fold w in Hc. lia. }
  unfold RawTimeSurface. fold w h.
  pose (ok := fun maps : Dense.t float * Dense.t Z =>
                mat_ok h w (fst maps) /\ mat_ok h w (snd maps)).
  match goal with
  | |- context [for_each (range 0 h) ?body ?init] =>
      destruct (for_each_prefix
                  (fun gone maps => ok maps
                     /\ forall y x, y ∈ gone -> 0 <= x < w ->
                          raw_entry_ok s ignorePolarity maps y x)
                  (range 0 h) body) with (s := init) as (maps & Hrun & Hok & Hall)
  end.
  - intros goneY y restY maps0 HlY (Hok0 & Hrows).
    apply range_split_fresh in HlY as [HfreshY HyR].
    match goal with
    | |- context [for_each (range 0 w) ?body maps0] =>
        destruct (for_each_prefix
                    (fun gone maps => ok maps
                       /\ (forall y' x, y' ∈ goneY -> 0 <= x < w ->
                             raw_entry_ok s ignorePolarity maps y' x)
                       /\ forall x, x ∈ gone -> raw_entry_ok s ignorePolarity maps y x)
                    (range 0 w) body) with (s := maps0) as (maps1 & Hrun1 & Hok1 & Hold1 & Hrow1)
    end.
    + intros goneX x restX [ts pm] HlX ((Hts & Hpm) & Hold & Hrow).
      apply range_split_fresh in HlX as [HfreshX HxR]. simpl in Hts, Hpm.
      destruct (DenseFacts.get_is_Some (arr2_get (_sae s) (pol_index true)) x y)
        as [sae1 Hsae1].
      { by destruct (pair_ok_get w h _ true Hsae). }
      { eapply mat_ok_in_range; eauto using pair_ok_get. }
      destruct (DenseFacts.get_is_Some (arr2_get (_sae s) (pol_index false)) x y)
        as [sae0 Hsae0].
      { by destruct (pair_ok_get w h _ false Hsae). }
      { eapply mat_ok_in_range; eauto using pair_ok_get. }
      change (pol_index true) with 1 in Hsae1. change (pol_index false) with 0 in Hsae0.
      destruct (DenseFacts.set_is_Some pm y x
                  (uchar_of_double (if (sae0 <? sae1)%float then 1.0 else -1.0)%float))
        as [pm' Hpm'].
      { eapply mat_ok_in_range; eauto. }
      destruct (DenseFacts.set_is_Some ts y x
                  (if negb ignorePolarity
                   then (std_max sae1 sae0
                         * (if (sae0 <? sae1)%float then 1.0 else -1.0))%float
                   else std_max sae1 sae0)) as [ts' Hts'].
      { eapply mat_ok_in_range; eauto. }
      exists (ts', pm'). split.
      { rewrite Hsae1. simpl. rewrite Hsae0. simpl. rewrite Hpm'. simpl.
        rewrite Hts'. done. }
      assert (forall y' x', y' <> y \/ x' <> x ->
                raw_entry_ok s ignorePolarity (ts, pm) y' x' ->
                raw_entry_ok s ignorePolarity (ts', pm') y' x') as Hkeep.
      { intros y' x' Hne (a1 & a0 & Ha1 & Ha0 & Hgt & Hgp). exists a1, a0.
        do 2 (split; [done|]). simpl in *.
        assert (y <> y' \/ x <> x') as Hne' by (destruct Hne; [left|right]; congruence).
        rewrite (DenseFacts.get_set_ne _ _ _ _ _ y' x' Hts' Hne').
        rewrite (DenseFacts.get_set_ne _ _ _ _ _ y' x' Hpm' Hne'). done. }
      split; [split; simpl; eauto using mat_ok_set|]. split.
      * intros y' x' Hy' Hx'. apply Hkeep; [|by apply Hold].
        left. intros ->. done.
      * intros x' [Hx'| ->%list_elem_of_singleton]%elem_of_app.
        -- apply Hkeep; [|by apply Hrow]. right. intros ->. done.
        -- exists sae1, sae0. do 2 (split; [done|]). simpl. split.
           ++ rewrite (DenseFacts.get_set_eq _ _ _ _ _ (proj1 Hts) Hts').
              unfold raw_time. by destruct ignorePolarity.
           ++ rewrite (DenseFacts.get_set_eq _ _ _ _ _ (proj1 Hpm) Hpm').
              unfold raw_polarity. by destruct (sae0 <? sae1)%float.
    + split; [done|]. split; [done|]. intros x Hx. by apply elem_of_nil in Hx.
    + exists maps1. split; [done|]. split; [done|].
      intros y' x [Hy'| ->%list_elem_of_singleton]%elem_of_app Hx.
      * by apply Hold1.
      * apply Hrow1. by apply elem_of_range.
  - split.
    + split; simpl; (split; [by apply DenseFacts.fill_wf|done]).
    + intros y x Hy. by apply elem_of_nil in Hy.
  - exists maps. rewrite Hrun. simpl. do 2 (split; [done|]).
    destruct Hok as [Hts Hpm]. do 2 (split; [done|]).
    intros x y [Hx Hy]. apply Hall; [|done]. by apply elem_of_range.
Qed.

End RawTimeSurfaceFacts.

(** ** The views of a pack *)

Lemma seqZ_sorted m n : StronglySorted Z.lt (seqZ m n).
Proof.
  assert (forall k m, StronglySorted Z.lt (seqZ m (Z.of_nat k))) as Hnat.
  { clear. induction k as [|k IH]; intros m.
    - rewrite seqZ_nil by lia. constructor.
    - rewrite seqZ_cons by lia. constructor.
      + replace (Z.pred (Z.of_nat (S k))) with (Z.of_nat k) by lia. apply IH.
      + apply Forall_forall. intros x Hx%elem_of_seqZ. lia. }
  destruct (decide (n <= 0)) as [Hn|Hn].
  - rewrite seqZ_nil by done. constructor.
  - replace n with (Z.of_nat (Z.to_nat n)) by lia. apply Hnat.
Qed.

Lemma elem_of_raster_events rows cols pixel e :
  e ∈ raster_events rows cols pixel
  <-> exists ey ex, 0 <= ey < rows /\ 0 <= ex < cols /\ pixel ey ex = Some e.
Proof.
  unfold raster_events. rewrite list_elem_of_bind. split.
  - intros (ey & (ex & Hex & Hpix)%list_elem_of_omap & Hey).
    exists ey, ex. apply elem_of_range in Hex, Hey. by repeat split; try lia.
  - intros (ey & ex & Hey & Hex & Hpix). exists ey. split.
    + apply list_elem_of_omap. exists ex. split; [|done]. apply elem_of_range. lia.
    + apply elem_of_range. lia.
Qed.

Lemma raster_events_sorted rows cols pixel :
  (forall ey ex e, pixel ey ex = Some e -> GetPos e = (ex, ey)) ->
  StronglySorted raster_lt (raster_events rows cols pixel).
Proof.
  intros Hpos. unfold raster_events, range.
  assert (forall ey lx, StronglySorted Z.lt lx ->
            StronglySorted raster_lt (omap (pixel ey) lx)) as Hrow.
  { intros ey. induction lx as [|x lx IH]; intros Hs; [constructor|].
    apply StronglySorted_inv in Hs as [Hs Hx]. simpl.
    destruct (pixel ey x) as [e|] eqn:He; [|by apply IH].
    constructor; [by apply IH|].
    apply Forall_forall. intros e' (x' & Hx' & He')%list_elem_of_omap.
    rewrite Forall_forall in Hx. specialize (Hx x' Hx').
    right. rewrite (Hpos _ _ _ He), (Hpos _ _ _ He'). simpl. done. }
  generalize (seqZ_sorted 0 (rows - 0)).
  generalize (seqZ 0 (rows - 0)) as ly.
  induction ly as [|y ly IH]; intros Hs; [constructor|].
  apply StronglySorted_inv in Hs as [Hs Hy].
  change ((y :: ly) ≫= _)
    with (omap (pixel y) (seqZ 0 (cols - 0)) ++ (ly ≫= fun ey => omap (pixel ey) (seqZ 0 (cols - 0)))).
  apply StronglySorted_app_2; [|apply Hrow, seqZ_sorted|by apply IH].
  intros e1 e2 (x1 & _ & He1)%list_elem_of_omap
    (y2 & (x2 & _ & He2)%list_elem_of_omap & Hy2)%list_elem_of_bind.
  rewrite Forall_forall in Hy. specialize (Hy y2 Hy2).
  left. rewrite (Hpos _ _ _ He1), (Hpos _ _ _ He2). simpl. done.
Qed.

Lemma active_event_inv pack dt ey ex e :
  active_event pack dt ey ex = Some e ->
  exists et ep,
    Dense.get (rawTimeSurfaceMap pack) ey ex = Some et
    /\ (et <? 0.001)%float = false
    /\ (dt <? timestamp pack - et)%float = false
    /\ Dense.get (polarityMap pack) ey ex = Some ep
    /\ e = Event_Create et ex ey ep.
Proof.
  unfold active_event. intros He.
  apply bind_Some in He as (et & Het & He).
  destruct (et <? 0.001)%float eqn:Hold; [done|].
  destruct (dt <? timestamp pack - et)%float eqn:Hage; [done|]. simpl in He.
  apply bind_Some in He as (ep & Hep & He). injection He as <-.
  by exists et, ep.
Qed.

Lemma norm_flow_event_inv pack ey ex e :
  norm_flow_event pack ey ex = Some e ->
  exists et occ ep,
    Dense.get (rawTimeSurfaceMap pack) ey ex = Some et
    /\ (et <? 0.001)%float = false
    /\ Dense.get (inliersOccupy pack) ey ex = Some occ /\ occ <> 0
    /\ Dense.get (polarityMap pack) ey ex = Some ep
    /\ e = Event_Create et ex ey ep.
Proof.
  unfold norm_flow_event. intros He.
  apply bind_Some in He as (et & Het & He).
  destruct (et <? 0.001)%float eqn:Hold; [done|].
  apply bind_Some in He as (occ & Hocc & He).
  destruct (occ =? 0) eqn:Hz; [done|]. apply Z.eqb_neq in Hz.
  apply bind_Some in He as (ep & Hep & He). injection He as <-.
  by exists et, occ, ep.
Qed.

Lemma events_of_EventArray_of events : events_of (EventArray_of events) = events.
Proof.
  unfold EventArray_of. destruct (last events) eqn:Hlast; [done|].
  by apply last_None in Hlast.
Qed.

(** ** The plane fit *)

Lemma abs_not_negative (x : float) : (abs x <? 0)%float = false.
Proof.
  rewrite ltb_spec, abs_spec. by destruct (Prim2SF x) as [[]|[]| |[] m e].
Qed.

(** ** The window loops and the raster scan *)

(** A loop with [break] that ends in a state [good] only when no body asked
    to stop: then every element was gone through, and what its body
    established ([R]) still holds at the end. *)
Lemma for_each_break_reached {A S} (l : list A) (body : A -> S -> option (S * bool))
    (good : S -> Prop) (R : A -> S -> Prop) :
  (forall a s r, a ∈ l -> body a s = Some r -> good (fst r) ->
     good s /\ snd r = false /\ R a (fst r)) ->
  (forall a b s r, b ∈ l -> body b s = Some r -> R a s -> R a (fst r)) ->
  forall s s', for_each_break l body s = Some s' -> good s' ->
    good s /\ forall a, a ∈ l -> R a s'.
Proof.
  induction l as [|a l IH]; intros Hstep Hstable s s' Hrun Hgood.
  - injection Hrun as <-. split; [done|]. intros a Ha. by apply elem_of_nil in Ha.
  - simpl in Hrun. apply bind_Some in Hrun as (r & Hbody & Hrun).
    destruct (snd r) eqn:Hstop.
    + injection Hrun as <-.
      destruct (Hstep a s r) as (_ & Hf & _); [by left|done|done|]. congruence.
    + destruct (IH) with (s := fst r) (s' := s') as [Hgood1 Hrest]; [| |done|done|].
      * intros a' s0 r0 Ha'. apply Hstep. by right.
      * intros a' b s0 r0 Hb. apply Hstable. by right.
      * destruct (Hstep a s r) as (Hgs & _ & HRa); [by left|done|done|].
        split; [done|]. intros a' [->|Ha']%elem_of_cons; [|by apply Hrest].
        apply (for_each_break_inv (R a) l body) with (s := fst r); [|done|done].
        intros b s0 r0 Hb HRs0 Hb0. eapply Hstable; [by right|done|done].
Qed.

Lemma inRange_get src lo hi r c :
  Dense.get (inRange src lo hi) r c = Some 255 ->
  exists t, Dense.get src r c = Some t
            /\ (lo <=? t)%float = true /\ (t <=? hi)%float = true.
Proof.
  unfold Dense.get, Dense.in_range, Dense.offset, inRange. simpl.
  destruct (_ && _); [|done]. rewrite list_lookup_fmap.
  destruct (Dense.data src !! _) as [t|]; [simpl|done].
  destruct (lo <=? t)%float eqn:Hlo; [|done].
  destruct (t <=? hi)%float eqn:Hhi; [|done]. intros _. by exists t.
Qed.

Section WindowFacts.
Variables (mask occ : Dense.t Z) (rtsMat : Dense.t float).
Variables (ws subTravSize neighborDist x y : Z).

(** Every sample of the window lies within [ws] of the centre, on a pixel
    whose mask entry is 255, and carries the raw time of its pixel. *)
Lemma gather_window_data w :
  gather_window mask occ rtsMat ws subTravSize neighborDist x y = Some w ->
  Forall (fun '(nx, ny, t) =>
            Z.abs (nx - x) <= ws /\ Z.abs (ny - y) <= ws
            /\ Dense.get mask ny nx = Some 255 /\ Dense.get rtsMat ny nx = Some t)
         (inRangeData w).
Proof.
  unfold gather_window.
  set (P := fun w : Window =>
              Forall (fun '(nx, ny, t) =>
                        Z.abs (nx - x) <= ws /\ Z.abs (ny - y) <= ws
                        /\ Dense.get mask ny nx = Some 255
                        /\ Dense.get rtsMat ny nx = Some t) (inRangeData w)).
  apply (for_each_break_inv P); [|by constructor].
  intros dy w0 [w1 stop] _ Hw0.
  destruct (for_each_break _ _ w0) as [w'|] eqn:Hinner; simpl; [|discriminate].
  intros [= <- <-]. simpl. revert Hinner.
  apply (for_each_break_inv P); [|exact Hw0].
  intros dx v [v1 stop1] _ Hv.
  destruct (if (Z.abs dx <=? neighborDist) && (Z.abs dy <=? neighborDist)
            then _ else _) as [occupied|]; simpl; [|discriminate].
  destruct occupied; [by intros [= <- <-]|].
  destruct ((ws <? Z.abs dx) || (ws <? Z.abs dy)) eqn:Hout; [by intros [= <- <-]|].
  destruct (Dense.get mask (y + dy) (x + dx)) as [m|] eqn:Hm; simpl; [|discriminate].
  destruct (negb (m =? 255)) eqn:Hm255; [by intros [= <- <-]|].
  destruct (Dense.get rtsMat (y + dy) (x + dx)) as [ts|] eqn:Hts; simpl; [|discriminate].
  intros [= <- <-]. unfold P. simpl. apply Forall_app. split; [exact Hv|].
  constructor; [|constructor].
  apply orb_false_iff in Hout as [Hdx Hdy]. apply Z.ltb_ge in Hdx, Hdy.
  apply negb_false_iff, Z.eqb_eq in Hm255. subst m.
  replace (x + dx - x) with dx by lia. replace (y + dy - y) with dy by lia. done.
Qed.

(** When the loops end without [jumpCurPixel], no pixel within
    [neighborDist] of the centre is claimed, and a centre whose mask entry is
    255 has handed its raw time to [timeCen]. *)
Lemma gather_window_clear w :
  gather_window mask occ rtsMat ws subTravSize neighborDist x y = Some w ->
  jumpCurPixel w = false ->
  (forall dx dy,
     - subTravSize <= dx <= subTravSize -> - subTravSize <= dy <= subTravSize ->
     Z.abs dx <= neighborDist -> Z.abs dy <= neighborDist ->
     exists o, Dense.get occ (y + dy) (x + dx) = Some o /\ o <> 255)
  /\ (0 <= ws -> 0 <= subTravSize -> Dense.get mask y x = Some 255 ->
      Dense.get rtsMat y x = Some (timeCen w)).
Proof.
  intros Hrun Hjump.
  pose (Rin := fun (dy dx : Z) (w : Window) =>
          (Z.abs dx <= neighborDist -> Z.abs dy <= neighborDist ->
           exists o, Dense.get occ (y + dy) (x + dx) = Some o /\ o <> 255)
          /\ (dx = 0 -> dy = 0 -> 0 <= ws -> Dense.get mask y x = Some 255 ->
              Dense.get rtsMat y x = Some (timeCen w))).
  pose (good := fun w : Window => jumpCurPixel w = false).
  assert (forall dy dx s r,
            (occupied ←
               (if (Z.abs dx <=? neighborDist) && (Z.abs dy <=? neighborDist)
                then o ← Dense.get occ (y + dy) (x + dx); Some (o =? 255)
                else Some false);
             if (occupied : bool)
             then Some (mkWindow (inRangeData s) (timeCen s) true, true)
             else if (ws <? Z.abs dx) || (ws <? Z.abs dy) then Some (s, false)
             else
               m ← Dense.get mask (y + dy) (x + dx);
               if negb (m =? 255) then Some (s, false)
               else
                 timestamp ← Dense.get rtsMat (y + dy) (x + dx);
                 Some (mkWindow (inRangeData s ++ [(x + dx, y + dy, timestamp)])
                         (if (x + dx =? x) && (y + dy =? y) then timestamp else timeCen s)
                         (jumpCurPixel s),
                       false)) = Some r ->
            (good (fst r) -> good s /\ snd r = false /\ Rin dy dx (fst r))
            /\ (forall dy' dx', Rin dy' dx' s -> Rin dy' dx' (fst r))) as Hbody.
  { intros dy dx s r Hr.
    apply bind_Some in Hr as (occupied & Hocc & Hr).
    assert (forall dy' dx' ts,
              Dense.get rtsMat (y + dy) (x + dx) = Some ts ->
              Rin dy' dx' s ->
              Rin dy' dx'
                (mkWindow (inRangeData s ++ [(x + dx, y + dy, ts)])
                   (if (x + dx =? x) && (y + dy =? y) then ts else timeCen s)
                   (jumpCurPixel s))) as Hpush.
    { intros dy' dx' ts Hts [Ho Hc]. split; [exact Ho|]. simpl.
      intros Hx0 Hy0 Hws Hm.
      destruct ((x + dx =? x) && (y + dy =? y)) eqn:Hcen; [|by apply Hc].
      apply andb_true_iff in Hcen as [Hx Hy]. apply Z.eqb_eq in Hx, Hy.
      by rewrite Hx, Hy in Hts. }
    destruct occupied.
    { injection Hr as <-. simpl. split; [done|].
      intros dy' dx' [Ho Hc]. split; done. }
    assert (Z.abs dx <= neighborDist -> Z.abs dy <= neighborDist ->
            exists o, Dense.get occ (y + dy) (x + dx) = Some o /\ o <> 255) as Hfree.
    { intros Hdx Hdy. apply Z.leb_le in Hdx, Hdy. rewrite Hdx, Hdy in Hocc.
      simpl in Hocc. apply bind_Some in Hocc as (o & Ho & Heq).
      exists o. split; [done|]. injection Heq as Heq. by apply Z.eqb_neq. }
    destruct ((ws <? Z.abs dx) || (ws <? Z.abs dy)) eqn:Hout.
    { injection Hr as <-. simpl. split; [|done].
      intros Hg. split; [done|]. split; [done|]. split; [done|].
      intros -> -> Hws _. simpl in Hout.
      apply orb_true_iff in Hout as [Hlt|Hlt]; apply Z.ltb_lt in Hlt; lia. }
    apply bind_Some in Hr as (m & Hm & Hr).
    destruct (negb (m =? 255)) eqn:Hm255.
    { injection Hr as <-. simpl. split; [|done].
      intros Hg. split; [done|]. split; [done|]. split; [done|].
      intros -> -> _ Hcen. rewrite !Z.add_0_r in Hm.
      apply negb_true_iff, Z.eqb_neq in Hm255. congruence. }
    apply bind_Some in Hr as (ts & Hts & Hr). injection Hr as <-. simpl.
    split; [|intros dy' dx'; by apply Hpush].
    intros Hg. split; [done|]. split; [done|]. split; [done|]. simpl.
    intros -> -> _ _. rewrite !Z.add_0_r in *. by rewrite !Z.eqb_refl. }
  unfold gather_window in Hrun.
  eapply (for_each_break_reached _ _ good
            (fun dy w => forall dx, dx ∈ range (- subTravSize) (subTravSize + 1) ->
                           Rin dy dx w)) in Hrun; [| | |exact Hjump].
  - destruct Hrun as [_ Hall]. split.
    + intros dx dy Hdx Hdy. apply (Hall dy); apply elem_of_range; lia.
    + intros Hws HS Hm.
      apply (Hall 0 ltac:(apply elem_of_range; lia) 0 ltac:(apply elem_of_range; lia));
        done.
  - intros dy s r _ Hr Hg.
    apply bind_Some in Hr as (w' & Hinner & Hr). injection Hr as <-.
    simpl in Hg |- *.
    eapply (for_each_break_reached _ _ good (Rin dy)) in Hinner; [| | |exact Hg].
    + destruct Hinner as [Hgs Hall]. split; [exact Hgs|]. split; [exact Hg|]. exact Hall.
    + intros dx s0 r0 _ Hr0. exact (proj1 (Hbody dy dx s0 r0 Hr0)).
    + intros dx dx' s0 r0 _ Hr0. exact (proj2 (Hbody dy dx' s0 r0 Hr0) dy dx).
  - intros dy dy' s r _ Hr HR dx Hdx.
    apply bind_Some in Hr as (w' & Hinner & Hr). injection Hr as <-. simpl.
    revert Hinner.
    apply (for_each_break_inv (Rin dy dx)); [|by apply HR].
    intros dx' s0 r0 _ Hs0 Hr0. exact (proj2 (Hbody dy' dx' s0 r0 Hr0) dy dx Hs0).
Qed.

End WindowFacts.

Lemma set_255_keeps r c (M M' : Dense.t Z) i j i' j' :
  mat_ok r c M -> Dense.set M i j 255 = Some M' ->
  Dense.get M i' j' = Some 255 -> Dense.get M' i' j' = Some 255.
Proof.
  intros [Hwf _] Hset Hget.
  destruct (decide (i = i' /\ j = j')) as [[<- <-]|Hne].
  - exact (DenseFacts.get_set_eq _ _ _ _ _ Hwf Hset).
  - rewrite (DenseFacts.get_set_ne _ _ _ _ _ i' j' Hset); [done|].
    destruct (decide (i = i')); [|by left]. destruct (decide (j = j')); [|by right].
    by destruct Hne.
Qed.

Section ScanFacts.
Context `{EigenLDLT float} `{Ransac}.
Variables (mask : Dense.t Z) (rtsMat : Dense.t float).
Variables (ws subTravSize neighborDist rows cols : Z).
Hypothesis Hneighbor : neighborDist <= subTravSize.
Hypothesis Hwindow : ws <= subTravSize.

(** The loop body of the raster scan keeps [scan_inv]. *)
Lemma scan_pixel_inv winSampleCountThd goodRatioThd thd maxIter y x st st' :
  subTravSize <= x < cols - subTravSize -> subTravSize <= y < rows - subTravSize ->
  scan_inv mask rtsMat ws subTravSize neighborDist rows cols st ->
  scan_pixel mask rtsMat ws subTravSize neighborDist winSampleCountThd
    goodRatioThd thd maxIter y x st = Some st' ->
  scan_inv mask rtsMat ws subTravSize neighborDist rows cols st'.
Proof.
  intros Hx Hy Hinv. unfold scan_pixel.
  destruct (Dense.get mask y x) as [m|] eqn:Hm; simpl; [|discriminate].
  destruct (negb (m =? 255)) eqn:Hm255; [by intros [= <-]|].
  apply negb_false_iff, Z.eqb_eq in Hm255. subst m.
  destruct (gather_window _ _ _ _ _ _ _ _) as [w|] eqn:Hgw; simpl; [|discriminate].
  destruct (jumpCurPixel w || _) eqn:Hskip; [by intros [= <-]|].
  apply orb_false_iff in Hskip as [Hjump _].
  destruct (Dense.set (occupy st) y x 255) as [occupy'|] eqn:Hset; simpl; [|discriminate].
  pose proof (gather_window_data _ _ _ _ _ _ _ _ _ Hgw) as Hdata.
  destruct (gather_window_clear _ _ _ _ _ _ _ _ _ Hgw Hjump) as [Hfree Hcen].
  destruct Hinv as (Hocc & Hinl & Hsorted & Hsites & Hmarks).
  assert (forall n, n ∈ st_nfs st ->
            flow_site mask occupy' rtsMat ws subTravSize rows cols n) as Hsites'.
  { intros n Hn. destruct (Hsites n Hn) as (Hnx & Hny & Hnm & Hno & Hnt).
    unfold flow_site. do 3 (split; [done|]). split; [|done].
    exact (set_255_keeps _ _ _ _ _ _ _ _ Hocc Hset Hno). }
  assert (scan_inv mask rtsMat ws subTravSize neighborDist rows cols
            (mkScan occupy' (st_inliersOccupy st) (st_nfs st))) as Hinv1.
  { split; [exact (mat_ok_set _ _ _ _ _ _ _ Hocc Hset)|]. by do 3 (split; [done|]). }
  unfold fit_candidate.
  destruct (ransac_computeModel x y _ thd maxIter) as [[res inliers] model].
  destruct (negb res || _); [by intros [= <-]|].
  destruct (optimizeModelCoefficients _ inliers model) as [[[A B] C]|]; simpl;
    [|discriminate].
  destruct (_ <? squaredNorm _)%float; [by intros [= <-]|].
  destruct (for_each inliers _ _) as [occ'|] eqn:Hmark; simpl; [|discriminate].
  intros [= <-]. simpl.
  match goal with
  | |- scan_inv _ _ _ _ _ _ _ (mkScan _ _ (_ ++ [?n])) => set (new := n)
  end.
  assert (mat_ok rows cols occ'
          /\ forall r c v, Dense.get occ' r c = Some v -> v <> 0 ->
               inlier_site mask ws (st_nfs st ++ [new]) r c v) as [Hocc' Hmarks'].
  { revert Hmark.
    apply (for_each_inv
             (fun occ => mat_ok rows cols occ
                /\ forall r c v, Dense.get occ r c = Some v -> v <> 0 ->
                     inlier_site mask ws (st_nfs st ++ [new]) r c v)).
    - intros idx occ0 occ1 _ [Hok0 Hm0] Hstep.
      apply bind_Some in Hstep as ([[ex ey] et] & Hat & Hset1).
      split; [exact (mat_ok_set _ _ _ _ _ _ _ Hok0 Hset1)|].
      intros r c v Hget Hv.
      destruct (decide (ey = r /\ ex = c)) as [[<- <-]|Hne].
      + rewrite (DenseFacts.get_set_eq _ _ _ _ _ (proj1 Hok0) Hset1) in Hget.
        injection Hget as <-.
        assert ((ex, ey, et) ∈ inRangeData w) as Hin.
        { unfold vector_at in Hat. destruct (idx <? 0); [discriminate|].
          by apply list_elem_of_lookup_2 in Hat. }
        apply (proj1 (Forall_forall _ _) Hdata) in Hin as (Hdx & Hdy & Hmk & _).
        split; [done|]. split; [done|]. exists new.
        split; [apply elem_of_app; right; by left|]. done.
      + rewrite (DenseFacts.get_set_ne _ _ _ _ _ r c Hset1) in Hget; [by apply Hm0|].
        destruct (decide (ey = r)); [|by left]. destruct (decide (ex = c)); [|by right].
        by destruct Hne.
    - split; [done|]. intros r c v Hget Hv.
      destruct (Hmarks r c v Hget Hv) as (Hv255 & Hmk & n & Hn & Hnear).
      split; [done|]. split; [done|]. exists n. split; [|done].
      apply elem_of_app. by left. }
  split; [exact (mat_ok_set _ _ _ _ _ _ _ Hocc Hset)|]. split; [done|]. split; [|split].
  - apply StronglySorted_app_2; [|done|repeat constructor].
    intros a b Ha ->%list_elem_of_singleton.
    destruct (Hsites a Ha) as (_ & _ & _ & Hao & _).
    unfold flows_apart, apart. simpl.
    destruct (decide (neighborDist < Z.abs (fst (nf_p a) - x))); [by left|].
    destruct (decide (neighborDist < Z.abs (snd (nf_p a) - y))); [by right|].
    exfalso.
    destruct (Hfree (fst (nf_p a) - x) (snd (nf_p a) - y)) as (o & Ho & Hne); [lia..|].
    replace (y + (snd (nf_p a) - y)) with (snd (nf_p a)) in Ho by lia.
    replace (x + (fst (nf_p a) - x)) with (fst (nf_p a)) in Ho by lia.
    congruence.
  - intros n [Hn| ->%list_elem_of_singleton]%elem_of_app; [by apply Hsites'|].
    unfold flow_site. simpl. do 3 (split; [done|]). split.
    + exact (DenseFacts.get_set_eq _ _ _ _ _ (proj1 Hocc) Hset).
    + intros Hws. apply Hcen; [done|lia|done].
  - exact Hmarks'.
Qed.

End ScanFacts.

Section ExtractFacts.
Context `{EigenLDLT float} `{Ransac}.

(** What holds of every pack [ExtractNormFlows] returns. *)
Lemma ExtractNormFlows_scanned rtsMat pMat timeLast decaySec winSize neighborDist
    goodRatioThd thd maxIter pack :
  Dense.wf rtsMat ->
  ExtractNormFlows rtsMat pMat timeLast decaySec winSize neighborDist goodRatioThd thd
    maxIter = Some pack ->
  exists occupy,
    scan_inv (inRange rtsMat (recent_lo timeLast decaySec) timeLast) rtsMat winSize
      (Z.max winSize neighborDist) neighborDist (Dense.rows rtsMat) (Dense.cols rtsMat)
      (mkScan occupy (inliersOccupy pack) (nfs pack))
    /\ polarityMap pack = pMat /\ rawTimeSurfaceMap pack = rtsMat
    /\ timestamp pack = timeLast.
Proof.
  intros (Hrows & Hcols & _). unfold ExtractNormFlows.
  destruct (for_each _ _ _) as [st|] eqn:Hscan; simpl; [|discriminate].
  intros [= <-]. simpl. exists (occupy st). split; [|done].
  assert (scan_inv (inRange rtsMat (recent_lo timeLast decaySec) timeLast) rtsMat winSize
            (Z.max winSize neighborDist) neighborDist (Dense.rows rtsMat)
            (Dense.cols rtsMat) st) as Hinv; [|by destruct st].
  revert Hscan.
  apply (for_each_inv (scan_inv _ rtsMat winSize (Z.max winSize neighborDist)
                         neighborDist (Dense.rows rtsMat) (Dense.cols rtsMat))).
  - intros y st0 st1 Hy%elem_of_range Hst0.
    apply (for_each_inv (scan_inv _ rtsMat winSize (Z.max winSize neighborDist)
                           neighborDist (Dense.rows rtsMat) (Dense.cols rtsMat)));
      [|exact Hst0].
    intros x st2 st3 Hx%elem_of_range Hst2.
    apply scan_pixel_inv; [lia|lia|exact Hx|exact Hy|exact Hst2].
  - simpl. split; [split; [by apply DenseFacts.fill_wf|done]|].
    split; [split; [by apply DenseFacts.fill_wf|done]|].
    split; [constructor|]. split.
    + intros n Hn. by apply elem_of_nil in Hn.
    + intros r c v Hget Hv. exfalso. apply Hv. simpl in Hget.
      pose proof (DenseFacts.get_Some_in_range _ _ _ _ Hget) as Hin.
      apply DenseFacts.in_range_spec in Hin. simpl in Hin.
      rewrite DenseFacts.get_fill in Hget by lia. congruence.
Qed.

End ExtractFacts.

(** ** The extraction reads and writes inside the maps *)

Lemma for_each_break_total {A S} (l : list A) (body : A -> S -> option (S * bool)) :
  (forall a s, a ∈ l -> is_Some (body a s)) ->
  forall s, is_Some (for_each_break l body s).
Proof.
  induction l as [|a l IH]; intros Hbody s; simpl; [by eexists|].
  destruct (Hbody a s) as [[s1 stop] ->]; [by left|]. simpl.
  destruct stop; [by eexists|]. apply IH. intros a' s' Ha'. apply Hbody. by right.
Qed.

Lemma mat_ok_get_is_Some {A} r c (M : Dense.t A) i j :
  mat_ok r c M -> 0 <= i < r -> 0 <= j < c -> is_Some (Dense.get M i j).
Proof.
  intros Hok Hi Hj. apply DenseFacts.get_is_Some; [by destruct Hok|].
  by apply (mat_ok_in_range r c).
Qed.

Lemma inRange_ok src lo hi :
  Dense.wf src -> mat_ok (Dense.rows src) (Dense.cols src) (inRange src lo hi).
Proof.
  intros (Hr & Hc & Hlen). split; [|done]. split; [done|]. split; [done|].
  simpl. by rewrite length_map.
Qed.

Lemma gather_window_total rows cols mask occ rtsMat ws subTravSize neighborDist x y :
  mat_ok rows cols mask -> mat_ok rows cols occ -> mat_ok rows cols rtsMat ->
  subTravSize <= x < cols - subTravSize -> subTravSize <= y < rows - subTravSize ->
  is_Some (gather_window mask occ rtsMat ws subTravSize neighborDist x y).
Proof.
  intros Hmask Hocc Hrts Hx Hy. unfold gather_window.
  apply for_each_break_total. intros dy w0 Hdy%elem_of_range.
  match goal with
  | |- is_Some (for_each_break ?l ?body w0 ≫= _) =>
      destruct (for_each_break_total l body) with (s := w0) as [w' ->]; [|by eexists]
  end.
  intros dx w1 Hdx%elem_of_range.
  destruct (mat_ok_get_is_Some rows cols occ (y + dy) (x + dx)) as [o ->]; [done|lia..|].
  destruct (mat_ok_get_is_Some rows cols mask (y + dy) (x + dx)) as [m ->]; [done|lia..|].
  destruct (mat_ok_get_is_Some rows cols rtsMat (y + dy) (x + dx)) as [t ->];
    [done|lia..|].
  destruct ((Z.abs dx <=? neighborDist) && (Z.abs dy <=? neighborDist)); simpl.
  - destruct (o =? 255); [by eexists|].
    destruct ((ws <? Z.abs dx) || (ws <? Z.abs dy)); [by eexists|].
    destruct (negb (m =? 255)); by eexists.
  - destruct ((ws <? Z.abs dx) || (ws <? Z.abs dy)); [by eexists|].
    destruct (negb (m =? 255)); by eexists.
Qed.

Section ScanRuns.
Context `{EigenLDLT float} `{Ransac}.
Hypothesis Hransac : ransac_in_range.

Lemma scan_pixel_total mask rtsMat ws subTravSize neighborDist rows cols
    winSampleCountThd goodRatioThd thd maxIter y x st :
  mat_ok rows cols mask -> mat_ok rows cols rtsMat ->
  mat_ok rows cols (occupy st) -> mat_ok rows cols (st_inliersOccupy st) ->
  0 <= subTravSize ->
  subTravSize <= x < cols - subTravSize -> subTravSize <= y < rows - subTravSize ->
  is_Some (scan_pixel mask rtsMat ws subTravSize neighborDist winSampleCountThd
             goodRatioThd thd maxIter y x st).
Proof.
  intros Hmask Hrts Hocc Hinl HS Hx Hy. unfold scan_pixel.
  destruct (mat_ok_get_is_Some rows cols mask y x) as [m ->]; [done|lia..|]. simpl.
  destruct (negb (m =? 255)); [by eexists|].
  destruct (gather_window_total rows cols mask (occupy st) rtsMat ws subTravSize
              neighborDist x y) as [w Hw]; [done..|].
  rewrite Hw. simpl.
  destruct (jumpCurPixel w || _); [by eexists|].
  destruct (DenseFacts.set_is_Some (occupy st) y x 255) as [occupy' ->].
  { apply (mat_ok_in_range rows cols); [done|lia..]. }
  simpl. unfold fit_candidate.
  destruct (ransac_computeModel x y _ thd maxIter) as [[res inliers] model] eqn:Hres.
  destruct res; [simpl|by eexists].
  destruct (_ <? goodRatioThd)%float; [by eexists|].
  pose proof (Hransac _ _ _ _ _ _ _ Hres) as Hidx. rewrite Centralization_length in Hidx.
  assert (Forall (fun idx => is_Some (vector_at (inRangeData w) idx)) inliers) as Hat.
  { eapply Forall_impl; [exact Hidx|]. intros idx. by rewrite vector_at_is_Some. }
  assert (is_Some (optimizeModelCoefficients (Centralization (inRangeData w)) inliers
                     model)) as [[[A B] C] ->].
  { unfold optimizeModelCoefficients, computeModelCoefficients.
    destruct (mapM_is_Some_2 (vector_at (Centralization (inRangeData w))) inliers)
      as [pts ->]; [|by eexists].
    eapply Forall_impl; [exact Hidx|]. intros idx. simpl.
    by rewrite vector_at_is_Some, Centralization_length. }
  simpl. destruct (_ <? squaredNorm _)%float; [by eexists|].
  destruct (mark_inliers_total (inRangeData w) inliers (st_inliersOccupy st))
    as [occ' Hmark]; [done| |].
  { eapply Forall_impl; [exact (gather_window_in_mask _ _ _ _ _ _ _ _ _ Hw)|].
    intros [[ex ey] et]. unfold Dense.in_range.
    destruct Hmask as (_ & -> & ->). by destruct Hinl as (_ & -> & ->). }
  unfold mark_inliers in Hmark. rewrite Hmark. by eexists.
Qed.

Lemma ExtractNormFlows_total rtsMat pMat timeLast decaySec winSize neighborDist
    goodRatioThd thd maxIter :
  Dense.wf rtsMat -> 0 <= Z.max winSize neighborDist ->
  is_Some (ExtractNormFlows rtsMat pMat timeLast decaySec winSize neighborDist
             goodRatioThd thd maxIter).
Proof.
  intros Hwf HS. unfold ExtractNormFlows.
  set (mask := inRange rtsMat _ timeLast).
  set (S := Z.max winSize neighborDist) in *.
  set (rows := Dense.rows rtsMat). set (cols := Dense.cols rtsMat).
  change (Dense.rows mask) with rows. change (Dense.cols mask) with cols.
  assert (mat_ok rows cols mask) as Hmask by by apply inRange_ok.
  assert (mat_ok rows cols rtsMat) as Hrts by done.
  assert (0 <= rows /\ 0 <= cols) as [Hr Hc] by (destruct Hwf as (? & ? & _); done).
  pose (P := fun st => mat_ok rows cols (occupy st)
                       /\ mat_ok rows cols (st_inliersOccupy st)).
  assert (forall y x st st' thdCount,
            S <= x < cols - S -> S <= y < rows - S -> P st ->
            scan_pixel mask rtsMat winSize S neighborDist thdCount goodRatioThd thd
              maxIter y x st = Some st' -> P st') as Hkeep.
  { intros y x st st' thdCount Hx Hy [Hocc Hinl]. unfold scan_pixel.
    destruct (Dense.get mask y x) as [m|]; simpl; [|discriminate].
    destruct (negb (m =? 255)); [by intros [= <-]|].
    destruct (gather_window _ _ _ _ _ _ _ _) as [w|]; simpl; [|discriminate].
    destruct (jumpCurPixel w || _); [by intros [= <-]|].
    destruct (Dense.set (occupy st) y x 255) as [occupy'|] eqn:Hset; simpl;
      [|discriminate].
    pose proof (mat_ok_set _ _ _ _ _ _ _ Hocc Hset) as Hocc'.
    unfold fit_candidate.
    destruct (ransac_computeModel x y _ thd maxIter) as [[res inliers] model].
    destruct (negb res || _); [by intros [= <-]|].
    destruct (optimizeModelCoefficients _ inliers model) as [[[A B] C]|]; simpl;
      [|discriminate].
    destruct (_ <? squaredNorm _)%float; [by intros [= <-]|].
    destruct (for_each inliers _ _) as [occ'|] eqn:Hmark; simpl; [|discriminate].
    intros [= <-]. split; [done|]. simpl. revert Hmark.
    apply (for_each_inv (mat_ok rows cols)); [|done].
    intros idx occ0 occ1 _ Hok0 Hstep.
    apply bind_Some in Hstep as ([[ex ey] et] & _ & Hset1).
    exact (mat_ok_set _ _ _ _ _ _ _ Hok0 Hset1). }
  match goal with
  | |- is_Some (for_each ?l ?body ?init ≫= _) =>
      destruct (for_each_total P l body) with (s := init) as (st & -> & _);
        [| |by eexists]
  end.
  - intros y st0 Hy%elem_of_range Hst0.
    apply (for_each_total P); [|exact Hst0].
    intros x st1 Hx%elem_of_range [Hocc Hinl].
    destruct (scan_pixel_total mask rtsMat winSize S neighborDist rows cols
                (int_of_double
                   (double_of_int ((2 * winSize + 1) * (2 * winSize + 1)) * goodRatioThd))
                goodRatioThd thd maxIter y x st1) as [st2 Hst2]; [done..|].
    exists st2. split; [exact Hst2|]. exact (Hkeep _ _ _ _ _ Hx Hy (conj Hocc Hinl) Hst2).
  - split; simpl; (split; [by apply DenseFacts.fill_wf|done]).
Qed.

End ScanRuns.

(** ** Visualization *)

Lemma Visualization_of_null_flows `{CvConcat} (pack : NormFlowPack)
    (rasters : PackRasters) (dt : float) :
  NormFlowEvents pack = Some nullptr -> Visualization pack rasters dt = None.
Proof.
  intros Hnull. unfold Visualization. rewrite Hnull.
  destruct (hconcat _ _) as [m1|]; [simpl|done].
  destruct (ActiveEvents pack dt ≫= deref) as [active|]; [simpl|done].
  by destruct (draw_events _ _).
Qed.

Lemma Ransac_all_points_in_range : @ransac_in_range Ransac_all_points.
Proof.
  intros x y data thd iters inliers model Hrun. simpl in Hrun.
  injection Hrun as <- _. apply Forall_forall. intros idx Hidx%elem_of_seqZ. lia.
Qed.

Lemma edge_map_wf : Dense.wf edge_map.
Proof. split; [done|]. split; [done|]. reflexivity. Qed.

(** ** The order of the flows *)

Lemma for_each_prefix_inv {A S} (P : list A -> S -> Prop) (l : list A)
    (body : A -> S -> option S) :
  (forall gone a rest s s', l = gone ++ a :: rest -> P gone s -> body a s = Some s' ->
     P (gone ++ [a]) s') ->
  forall s s', P [] s -> for_each l body s = Some s' -> P l s'.
Proof.
  intros Hstep.
  assert (forall rest gone s s', l = gone ++ rest -> P gone s ->
            for_each rest body s = Some s' -> P l s') as Hgen.
  { induction rest as [|a rest IH]; intros gone s s' Hl HP Hrun.
    - injection Hrun as <-. rewrite app_nil_r in Hl. by subst.
    - simpl in Hrun. apply bind_Some in Hrun as (s1 & Hbody & Hrun).
      apply (IH (gone ++ [a]) s1 s'); [by rewrite <- app_assoc| |done].
      by apply (Hstep gone a rest s s1). }
  intros s s' HP Hrun. by apply (Hgen l [] s s').
Qed.

Lemma range_split_before lo hi gone a rest b :
  range lo hi = gone ++ a :: rest -> b ∈ gone -> b < a.
Proof.
  intros Hl Hb. pose proof (seqZ_sorted lo (hi - lo)) as Hs. fold (range lo hi) in Hs.
  rewrite Hl in Hs. apply (StronglySorted_app_1_elem_of _ _ _ b a Hs); [done|by left].
Qed.

Section FlowOrder.
Context `{EigenLDLT float} `{Ransac}.

(** The loop body records at most one flow, at the pixel it is run on. *)
Lemma scan_pixel_nfs mask rtsMat ws subTravSize neighborDist winSampleCountThd
    goodRatioThd thd maxIter y x st st' :
  scan_pixel mask rtsMat ws subTravSize neighborDist winSampleCountThd
    goodRatioThd thd maxIter y x st = Some st' ->
  st_nfs st' = st_nfs st
  \/ exists n, nf_p n = (x, y) /\ st_nfs st' = st_nfs st ++ [n].
Proof.
  unfold scan_pixel.
  destruct (Dense.get mask y x) as [m|]; simpl; [|discriminate].
  destruct (negb (m =? 255)); [intros [= <-]; by left|].
  destruct (gather_window _ _ _ _ _ _ _ _) as [w|]; simpl; [|discriminate].
  destruct (jumpCurPixel w || _); [intros [= <-]; by left|].
  destruct (Dense.set (occupy st) y x 255) as [occupy'|]; simpl; [|discriminate].
  unfold fit_candidate.
  destruct (ransac_computeModel x y _ thd maxIter) as [[res inliers] model].
  destruct (negb res || _); [intros [= <-]; by left|].
  destruct (optimizeModelCoefficients _ inliers model) as [[[A B] C]|]; simpl;
    [|discriminate].
  destruct (_ <? squaredNorm _)%float; [intros [= <-]; by left|].
  destruct (for_each inliers _ _) as [occ'|]; simpl; [|discriminate].
  intros [= <-]. right. simpl. eexists. split; [|reflexivity]. reflexivity.
Qed.

End FlowOrder.

Lemma no_distortion_keeps_size : @undistortion_keeps_size no_distortion.
Proof. intros intri r c. by split. Qed.
(** * The claims *)

(** ** EventSurface *)

(** C1, as stated, fails: on a fresh 64x48 surface with threshold 0.01 a
    first event at 0.005 is debounced ([sae] stays 0, [saeLatest] becomes
    0.005); for a second one at 0.012 the rule read on [sae] passes
    (0.012 > 0 + 0.01) yet [sae] stays 0, since the code compares with
    [saeLatest] (0.012 > 0.005 + 0.01 is false). *)
Lemma C1_counterexample :
  exists s,
    GrabEvents fresh_64x48 [ev 0.005 10 10 true] false = Some s
    /\ ~ debounce_rule_reading_sae s (ev 0.012 10 10 true) false.
Proof.
  eexists. split; [vm_compute; reflexivity|].
  intros H. vm_compute in H. apply (f_equal (default 0%float)) in H. simpl in H.
  revert H. apply (float_neq_by_ltb 0%float). vm_compute. discriminate.
Qed.

(** C1, amended: [tLast] and [tLastInv] are the entries of [saeLatest].  On a
    well-formed surface and a pixel of the image [GrabEvent] returns; when
    [t > tLast + FILTER_THD] or [tLastInv > tLast] it sets [sae[p](x,y)] to
    [t], otherwise [sae[p](x,y)] keeps its value; [saeLatest[p](x,y)] becomes
    [t] either way, and no other entry of [sae] or [saeLatest] changes. *)
Theorem C1_debounce_rule_reading_saeLatest s e draw :
  let p := GetPolarity e in
  let x := fst (pixel_of e) in
  let y := snd (pixel_of e) in
  let t := GetTimestamp e in
  surface_ok s -> pixel_in s x y ->
  exists s' tLast tLastInv,
    GrabEvent s e draw = Some s'
    /\ saeLatest_at s p x y = Some tLast
    /\ saeLatest_at s (negb p) x y = Some tLastInv
    /\ saeLatest_at s' p x y = Some t
    /\ (if ((tLast + FILTER_THD s <? t) || (tLast <? tLastInv))%float
        then sae_at s' p x y = Some t
        else sae_at s' p x y = sae_at s p x y)
    /\ (forall q x' y', q <> p \/ x' <> x \/ y' <> y ->
          sae_at s' q x' y' = sae_at s q x' y'
          /\ saeLatest_at s' q x' y' = saeLatest_at s q x' y').
Proof.
  intros p x y t Hok Hin.
  destruct (GrabEvent_effect s e draw Hok Hin)
    as (s' & tLast & tLastInv & Hrun & _ & _ & _ & _ & HL & HLi & HL' & Hsae & Hfr).
  exists s', tLast, tLastInv. repeat (split; [assumption|]).
  split; [|exact Hfr].
  unfold debounce_pass in Hsae. fold p x y t in Hsae.
  by destruct ((tLast + FILTER_THD s <? t) || (tLast <? tLastInv))%float.
Qed.

Lemma C1_debounce_rule_witness :
  exists s' tLast tLastInv,
    GrabEvent fresh_64x48 (ev 0.5 10 10 true) true = Some s'
    /\ saeLatest_at fresh_64x48 true 10 10 = Some tLast
    /\ saeLatest_at fresh_64x48 false 10 10 = Some tLastInv
    /\ saeLatest_at s' true 10 10 = Some 0.5%float
    /\ (if ((tLast + 0.01 <? 0.5) || (tLast <? tLastInv))%float
        then sae_at s' true 10 10 = Some 0.5%float
        else sae_at s' true 10 10 = sae_at fresh_64x48 true 10 10)
    /\ (forall q x' y', q <> true \/ x' <> 10 \/ y' <> 10 ->
          sae_at s' q x' y' = sae_at fresh_64x48 q x' y'
          /\ saeLatest_at s' q x' y' = saeLatest_at fresh_64x48 q x' y').
Proof.
  apply (C1_debounce_rule_reading_saeLatest fresh_64x48 (ev 0.5 10 10 true) true).
  - apply surface_ok_new; simpl; lia.
  - pixel_in_image.
Defined.

(** *** Two events within the threshold *)



(** *** The order of [sae] and [saeLatest] *)

(** C3, as stated, fails for a negative timestamp: the single event at time
    -1 is debounced on a fresh surface (-1 > 0 + 0.01 is false, 0 > 0 is
    false), so [saeLatest[1](10,10)] becomes -1 while [sae[1](10,10)] keeps
    its initial 0. *)
Lemma C3_counterexample :
  Sorted ts_le [ev (-1) 10 10 true]
  /\ exists s,
       GrabEvents fresh_64x48 [ev (-1) 10 10 true] false = Some s
       /\ ~ sae_le_saeLatest s.
Proof.
  split; [repeat constructor|].
  eexists. split; [vm_compute; reflexivity|].
  intros H. destruct (H true 10 10) as (a & b & Ha & Hb & Hle); [pixel_in_image|].
  vm_compute in Ha, Hb.
  apply (f_equal (default 0%float)) in Ha, Hb. simpl in Ha, Hb. subst a b.
  vm_compute in Hle. discriminate.
Qed.

(** C3, amended: the events have non-decreasing timestamps that are not
    negative, and lie in the image.  Then every prefix of the sequence is
    ingested by a fresh surface, and afterwards
    [sae[pol](x,y) <= saeLatest[pol](x,y)] at every pixel and polarity. *)
Theorem C3_sae_le_saeLatest intri thd events draw n :
  0 <= imgWidth intri -> 0 <= imgHeight intri ->
  Sorted ts_le events ->
  Forall (fun e => (0 <=? GetTimestamp e)%float = true) events ->
  Forall (fun e => 0 <= fst (pixel_of e) < imgWidth intri
                   /\ 0 <= snd (pixel_of e) < imgHeight intri) events ->
  exists s,
    GrabEvents (ActiveEventSurface_new intri thd) (take n events) draw = Some s
    /\ sae_le_saeLatest s.
Proof.
  intros Hw Hh Hsorted Hnonneg Himage.
  apply GrabEvents_keep_order.
  - by apply surface_ok_new.
  - intros p x y [Hx Hy]. simpl in Hx, Hy.
    destruct (new_surface_reads intri thd p x y Hx Hy) as [-> ->].
    by exists 0%float, 0%float.
  - intros p x y a ->%new_surface_sae_zero. by apply Forall_take.
  - apply Sorted_StronglySorted in Hsorted; [|apply _].
    rewrite <- (take_drop n events) in Hsorted.
    by apply StronglySorted_app_1_l in Hsorted.
  - by apply Forall_take.
Qed.

Lemma C3_sae_le_saeLatest_witness :
  exists s,
    GrabEvents (ActiveEventSurface_new (mkIntri 64 48) 0.01%float)
      (take 3 [ev 0 10 10 true; ev 0.005 10 10 true; ev 0.02 10 10 false;
               ev 0.02 3 4 true]) true = Some s
    /\ sae_le_saeLatest s.
Proof.
  apply (C3_sae_le_saeLatest (mkIntri 64 48) 0.01%float
           [ev 0 10 10 true; ev 0.005 10 10 true; ev 0.02 10 10 false;
            ev 0.02 3 4 true] true 3).
  - simpl; lia.
  - simpl; lia.
  - repeat constructor.
  - repeat constructor.
  - repeat constructor; vm_compute; discriminate.
Defined.


(** ** FlowMotionFactor *)

Example factor0_runs :
  exists r, operator_call 2 1 true factor0 (param_blocks params0) = Some r.
Proof. eexists. vm_compute. reflexivity. Qed.

Lemma layout_ok_0 : layout_ok 2 factor0 params0.
Proof.
  split; [reflexivity|]. split; [reflexivity|].
  split; intros i u E; vm_compute in E;
    apply (f_equal (fun o => default 0%nat (fst <$> o))) in E; simpl in E; subst i;
    simpl; lia.
Qed.

(** C4: on parameter blocks in the fixed order the residual of [operator()]
    is [weight * (predicted - observed)], component by component: the
    predicted pixel velocity has both splines queried at
    [midTime + rowFactor * readout + timeOffset], the observed one is the
    three-point derivative of the traces at the middle sample with sample
    [i] at [timeAry[i] + rdFactorAry[i] * readout]. *)
Theorem C4_residual_is_weighted_difference
    {T SO3 Meta : Type} `{Scalar T} `{Utils T} `{SophusSO3 T SO3} `{CTraj T SO3 Meta}
    (Order : nat) (TimeDeriv : Z) (IsInvDepth : bool)
    (f : RGBDVelocityFactor Meta) (P : @CalibParams T) :
  layout_ok Order f P ->
  let weight := of_double (_weight f) in
  let time := anchor_body_time (_corr f) (p_READOUT_TIME P) (p_TO_DnToBr P) in
  let observed := observed_pixel_velocity (_corr f) (p_READOUT_TIME P) in
  let k :=
    (if IsInvDepth
     then p_DEPTH_INFO P / (p_ALPHA P + p_BETA P * p_DEPTH_INFO P)
     else of_double 1.0 / (p_ALPHA P * p_DEPTH_INFO P + p_BETA P))%S in
  operator_call Order TimeDeriv IsInvDepth f (param_blocks P)
  = ('(linVel, angVel) ← sensor_velocities_at Order TimeDeriv f P time;
     let predicted :=
       predicted_pixel_velocity k (p_FX P) (p_FY P) (p_CX P) (p_CY P) (_corr f)
         linVel angVel in
     Some (weight * (fst predicted - fst observed),
           weight * (snd predicted - snd observed))%S).
Proof.
  intros Hlayout weight time observed k.
  rewrite (operator_call_laid_out Order TimeDeriv IsInvDepth f P Hlayout).
  subst weight time observed k.
  exact (residual_written_out Order TimeDeriv f P _).
Qed.

Lemma C4_residual_witness :
  operator_call 2 1 true factor0 (param_blocks params0)
  = residual_in_scalars 2 1 (0.5 / (1 + 0 * 0.5))%float factor0 params0.
Proof.
  rewrite (C4_residual_is_weighted_difference 2 1 true factor0 params0 layout_ok_0).
  reflexivity.
Defined.

(** C5: in the predicted pixel velocity every entry of the translation
    sub-Jacobian [A], in its product with the linear velocity, is multiplied
    by [d / (alpha + beta * d)] when [IsInvDepth] is true and by
    [1 / (alpha * d + beta)] when it is false, [d] the block DEPTH_INFO; the
    rotation part [B * angVel] carries no factor.  [IsInvDepth] is a
    parameter of the template. *)
Theorem C5_depth_affine_scaling
    {T SO3 Meta : Type} `{Scalar T} `{Utils T} `{SophusSO3 T SO3} `{CTraj T SO3 Meta}
    (Order : nat) (TimeDeriv : Z)
    (f : RGBDVelocityFactor Meta) (P : @CalibParams T) :
  layout_ok Order f P ->
  let alpha := p_ALPHA P in
  let beta := p_BETA P in
  let d := p_DEPTH_INFO P in
  operator_call Order TimeDeriv true f (param_blocks P)
  = residual_in_scalars Order TimeDeriv (d / (alpha + beta * d))%S f P
  /\ operator_call Order TimeDeriv false f (param_blocks P)
     = residual_in_scalars Order TimeDeriv (of_double 1.0 / (alpha * d + beta))%S f P.
Proof.
  intros Hlayout alpha beta d.
  rewrite !(operator_call_laid_out Order TimeDeriv _ f P Hlayout).
  subst alpha beta d. split.
  - rewrite (residual_written_out Order TimeDeriv f P _).
    unfold residual_in_scalars.
    destruct (sensor_velocities_at Order TimeDeriv f P _) as [[linVel angVel]|]; [|done].
    simpl. destruct (predicted_pixel_velocity _ _ _ _ _ _ _ _) as [px py].
    by destruct (observed_pixel_velocity _ _) as [ox oy].
  - rewrite (residual_written_out Order TimeDeriv f P _).
    unfold residual_in_scalars.
    destruct (sensor_velocities_at Order TimeDeriv f P _) as [[linVel angVel]|]; [|done].
    simpl. destruct (predicted_pixel_velocity _ _ _ _ _ _ _ _) as [px py].
    by destruct (observed_pixel_velocity _ _) as [ox oy].
Qed.

Lemma C5_depth_affine_scaling_witness :
  operator_call 2 1 true factor0 (param_blocks params0)
  = residual_in_scalars 2 1 (0.5 / (1 + 0 * 0.5))%float factor0 params0
  /\ operator_call 2 1 false factor0 (param_blocks params0)
     = residual_in_scalars 2 1 (1.0 / (1 * 0.5 + 0))%float factor0 params0.
Proof. exact (C5_depth_affine_scaling 2 1 factor0 params0 layout_ok_0). Defined.

Example factor0_residuals :
  operator_call 2 1 true factor0 (param_blocks params0)
  = Some (-77.691670137442784, -88.345835068721399)%float
  /\ operator_call 2 1 false factor0 (param_blocks params0)
     = Some (-250.79167013744279, -323.39583506872145)%float.
Proof. split; vm_compute; reflexivity. Qed.

(** ** OpticalFlowCorr *)

(** C8, as stated, fails: for a depth that is not a number [d <= 1E-3] is
    false, so the claim has [1 / d] stored, which is not a number; the code
    stores the sentinel -1.0, [d > 1E-3] being false as well. *)
Lemma C8_counterexample :
  exists d,
    (d <=? 0.001)%float = false
    /\ invDepth (corr_of_depth d) = (-1.0)%float
    /\ invDepth (corr_of_depth d) <> inverse_depth_as_worded d.
Proof.
  exists nan. split; [reflexivity|]. split; [reflexivity|].
  intros Heq. apply (f_equal is_nan) in Heq. vm_compute in Heq. discriminate.
Qed.

(** C8, amended: a depth [d > 1E-3] stores [1 / d] as inverse depth; any
    other depth stores the sentinel -1.0, be it [d <= 1E-3] or not a number;
    and every depth is in one of these cases. *)
Theorem C8_inverse_depth_sentinel (timeAry xTraceAry yTraceAry : arr3 float)
    (d : float) (frame : CameraFrame) (rsExpFactor : float) :
  let c := OpticalFlowCorr_new timeAry xTraceAry yTraceAry d frame rsExpFactor in
  ((0.001 <? d)%float = true -> invDepth c = (1.0 / d)%float)
  /\ ((d <=? 0.001)%float = true -> invDepth c = (-1.0)%float)
  /\ ((d =? d)%float = false -> invDepth c = (-1.0)%float)
  /\ ((0.001 <? d)%float = true \/ (d <=? 0.001)%float = true
      \/ (d =? d)%float = false).
Proof.
  simpl. split; [|split; [|split]].
  - intros Hlt. by rewrite Hlt.
  - intros Hle. by rewrite (leb_true_ltb_false _ _ Hle).
  - intros Hnan. by rewrite (ltb_nan_r 0.001 d Hnan).
  - destruct (d =? d)%float eqn:Hd; [|by right; right].
    destruct (d <=? 0.001)%float eqn:Hle; [by right; left|left].
    exact (leb_false_ltb_true d 0.001 Hd eq_refl Hle).
Qed.

Lemma C8_inverse_depth_witness :
  invDepth (corr_of_depth 2.0) = (1.0 / 2.0)%float
  /\ invDepth (corr_of_depth 0.0005) = (-1.0)%float
  /\ invDepth (corr_of_depth nan) = (-1.0)%float.
Proof.
  split; [|split].
  - exact (proj1 (C8_inverse_depth_sentinel (0.9, 1.0, 1.1)%float (100, 102, 104)%float
                    (50, 51, 52)%float 2.0%float (mkFrame 480) 0.5%float) eq_refl).
  - exact (proj1 (proj2 (C8_inverse_depth_sentinel (0.9, 1.0, 1.1)%float
                           (100, 102, 104)%float (50, 51, 52)%float 0.0005%float
                           (mkFrame 480) 0.5%float)) eq_refl).
  - exact (proj1 (proj2 (proj2 (C8_inverse_depth_sentinel (0.9, 1.0, 1.1)%float
                                  (100, 102, 104)%float (50, 51, 52)%float nan
                                  (mkFrame 480) 0.5%float))) eq_refl).
Defined.

(** ** NormFlowPack *)

Lemma pack0_ok : pack_ok pack0.
Proof. unfold pack_ok, mat_ok, Dense.wf. simpl. lia. Qed.

Example pack0_views :
  ActiveEvents pack0 0.01%float
  = Some (ptr (mkEventArray 0.995
                 [mkEvent 1.0 (1, 0) true; mkEvent 0.995 (1, 1) false]))
  /\ NormFlowEvents pack0 = Some (ptr (mkEventArray 1.0 [mkEvent 1.0 (1, 0) true]))
  /\ ActiveEvents pack_empty 0.01%float = Some nullptr
  /\ NormFlowEvents pack_empty = Some nullptr.
Proof. repeat split; vm_compute; reflexivity. Qed.

(** C10, as stated, fails: on a 2x3 pack with one raw time that is not a
    number no pixel passes the test [t >= 1E-3], so no pixel qualifies as the
    claim has it, yet both views return an array with the event of that
    pixel: the code skips a pixel when [t < 1E-3] or [timestamp - t > dt],
    and neither holds of a raw time that is not a number. *)
Lemma C10_counterexample :
  exists active flows,
    ActiveEvents pack_nan 0.01 = Some (ptr active) /\ GetEvents active <> []
    /\ NormFlowEvents pack_nan = Some (ptr flows) /\ GetEvents flows <> []
    /\ (forall ey ex, ~ active_pixel_as_worded pack_nan 0.01 ey ex)
    /\ (forall ey ex, ~ norm_flow_pixel_as_worded pack_nan ey ex).
Proof.
  assert (forall ey ex et,
            Dense.get (rawTimeSurfaceMap pack_nan) ey ex = Some et ->
            (0.001 <=? et)%float = false) as Hnone.
  { intros ey ex et Hget.
    pose proof (DenseFacts.get_Some_in_range _ _ _ _ Hget) as Hin.
    apply DenseFacts.in_range_spec in Hin. simpl in Hin.
    assert ((ey = 0 \/ ey = 1) /\ (ex = 0 \/ ex = 1 \/ ex = 2)) as [Hey Hex] by lia.
    apply (f_equal (default 0%float)) in Hget. simpl in Hget. subst et.
    destruct Hey as [-> | ->], Hex as [-> | [-> | ->]]; reflexivity. }
  eexists. eexists.
  split; [vm_compute; reflexivity|]. split; [discriminate|].
  split; [vm_compute; reflexivity|]. split; [discriminate|]. split.
  - intros ey ex (et & Hget & Hold & _). by rewrite (Hnone ey ex et Hget) in Hold.
  - intros ey ex (et & occ & Hget & Hold & _). by rewrite (Hnone ey ex et Hget) in Hold.
Qed.

(** C10, amended: a pixel qualifies by the tests the code makes: for
    [ActiveEvents] when neither [t < 1E-3] nor [timestamp - t > dt] holds,
    for [NormFlowEvents] when [t < 1E-3] does not hold and its entry of the
    inlier mask is not 0.  On a pack whose three maps have one size both
    views return; the result is the null pointer exactly when no pixel
    qualifies, and a returned array is not empty and comes with a pixel
    that qualifies. *)
Theorem C10_views_null_when_empty (pack : NormFlowPack) (dt : float) :
  pack_ok pack ->
  (exists r, ActiveEvents pack dt = Some r
     /\ (r = nullptr <-> forall ey ex, ~ active_pixel pack dt ey ex)
     /\ (forall arr, r = ptr arr ->
           GetEvents arr <> [] /\ exists ey ex, active_pixel pack dt ey ex))
  /\ (exists r, NormFlowEvents pack = Some r
        /\ (r = nullptr <-> forall ey ex, ~ norm_flow_pixel pack ey ex)
        /\ (forall arr, r = ptr arr ->
              GetEvents arr <> [] /\ exists ey ex, norm_flow_pixel pack ey ex)).
Proof.
  intros Hok. split.
  - eexists. split; [apply (ActiveEvents_scan pack Hok)|]. split.
    + rewrite EventArray_of_nullptr, raster_events_nil. split.
      * intros Hnone ey ex Hact.
        assert (0 <= ey < Dense.rows (rawTimeSurfaceMap pack)
                /\ 0 <= ex < Dense.cols (rawTimeSurfaceMap pack)) as [Hey Hex].
        { destruct Hact as (et & Hget%DenseFacts.get_Some_in_range & _).
          by apply DenseFacts.in_range_spec in Hget. }
        by apply (active_event_None pack Hok dt ey ex Hey Hex) in Hact; [|auto].
      * intros Hno ey ex Hey Hex. by apply (active_event_None pack Hok).
    + intros arr [Harr Hne]%EventArray_of_ptr. split; [by rewrite Harr|].
      destruct (raster_events _ _ _) as [|e l] eqn:E; [done|].
      apply raster_events_cons in E as (ey & ex & He).
      eauto using active_event_Some.
  - eexists. split; [apply (NormFlowEvents_scan pack Hok)|]. split.
    + rewrite EventArray_of_nullptr, raster_events_nil. split.
      * intros Hnone ey ex Hact.
        assert (0 <= ey < Dense.rows (rawTimeSurfaceMap pack)
                /\ 0 <= ex < Dense.cols (rawTimeSurfaceMap pack)) as [Hey Hex].
        { destruct Hact as (et & occ & Hget%DenseFacts.get_Some_in_range & _).
          by apply DenseFacts.in_range_spec in Hget. }
        by apply (norm_flow_event_None pack Hok ey ex Hey Hex) in Hact; [|auto].
      * intros Hno ey ex Hey Hex. by apply (norm_flow_event_None pack Hok).
    + intros arr [Harr Hne]%EventArray_of_ptr. split; [by rewrite Harr|].
      destruct (raster_events _ _ _) as [|e l] eqn:E; [done|].
      apply raster_events_cons in E as (ey & ex & He).
      eauto using norm_flow_event_Some.
Qed.

Lemma C10_views_witness :
  (exists r, ActiveEvents pack0 0.01%float = Some r
     /\ (r = nullptr <-> forall ey ex, ~ active_pixel pack0 0.01%float ey ex)
     /\ (forall arr, r = ptr arr ->
           GetEvents arr <> [] /\ exists ey ex, active_pixel pack0 0.01%float ey ex))
  /\ (exists r, NormFlowEvents pack0 = Some r
        /\ (r = nullptr <-> forall ey ex, ~ norm_flow_pixel pack0 ey ex)
        /\ (forall arr, r = ptr arr ->
              GetEvents arr <> [] /\ exists ey ex, norm_flow_pixel pack0 ey ex)).
Proof. exact (C10_views_null_when_empty pack0 0.01%float pack0_ok). Defined.

(** ** NormFlowExtractor *)

Example moving_edge_flow :
  st_nfs <$> scan_pixel mask0 edge_map 1 1 1 7 0.8%float 0.001%float 50 2 2 scan0
  = Some [mkNormFlow 1.02 (2, 2) (99.999999999999901, -0)%float].
Proof. vm_compute. reflexivity. Qed.

Example edge_map_flows :
  (fun p => map nf_p (nfs p))
    <$> ExtractNormFlows edge_map (Dense.fill 5 5 0) 1.04%float 0.1%float 1 1 0.8%float
          0.001%float 50
  = Some [(1, 1); (3, 1); (1, 3); (3, 3)].
Proof. vm_compute. reflexivity. Qed.

(** C6: at a candidate pixel of the scan (its mask entry is 255, the window
    loops met no claimed neighbour and gathered enough samples) whose plane
    fit succeeds ([computeModel] returns true, the inlier ratio is not below
    the threshold), with refitted coefficients [(A, B, C)], the loop body
    marks the pixel as claimed and then: when the squared norm of
    [(1 / (dtdx^2 + dtdy^2)) * (dtdx, dtdy)], [dtdx = -A], [dtdy = -B],
    exceeds [(4 x 10^3)^2], it records no flow and marks no inlier; otherwise
    the flow it records at the pixel is that vector.  And every flow of a
    pack that [ExtractNormFlows] returns is such a vector with a squared norm
    that does not exceed the bound. *)
Theorem C6_flow_of_plane_or_discard `{EigenLDLT float} `{Ransac} :
  (forall (mask : Dense.t Z) (rtsMat : Dense.t float)
          (ws subTravSize neighborDist winSampleCountThd : Z)
          (goodRatioThd thd : float) (maxIter y x : Z) (st : ScanState) (w : Window)
          (inliers : list Z) (model : Vec3 float) (A B C : float),
     Dense.get mask y x = Some 255 ->
     gather_window mask (occupy st) rtsMat ws subTravSize neighborDist x y = Some w ->
     jumpCurPixel w = false ->
     (Z.of_nat (length (inRangeData w)) <? winSampleCountThd) = false ->
     same_size (occupy st) mask -> same_size (st_inliersOccupy st) mask ->
     ransac_computeModel x y (Centralization (inRangeData w)) thd maxIter
     = (true, inliers, model) ->
     (double_of_int (Z.of_nat (length inliers))
      / double_of_int (Z.of_nat (length (inRangeData w))) <? goodRatioThd)%float = false ->
     optimizeModelCoefficients (Centralization (inRangeData w)) inliers model
     = Some (A, B, C) ->
     let dtdx := (- A)%float in
     let dtdy := (- B)%float in
     let nf := ((1.0 / (dtdx * dtdx + dtdy * dtdy) * dtdx)%float,
                (1.0 / (dtdx * dtdx + dtdy * dtdy) * dtdy)%float) in
     exists occupy',
       Dense.set (occupy st) y x 255 = Some occupy'
       /\ if (4E3 * 4E3 <? fst nf * fst nf + snd nf * snd nf)%float
          then scan_pixel mask rtsMat ws subTravSize neighborDist winSampleCountThd
                 goodRatioThd thd maxIter y x st
               = Some (mkScan occupy' (st_inliersOccupy st) (st_nfs st))
          else exists occ',
                 scan_pixel mask rtsMat ws subTravSize neighborDist winSampleCountThd
                   goodRatioThd thd maxIter y x st
                 = Some (mkScan occupy' occ'
                           (st_nfs st ++ [mkNormFlow (timeCen w) (x, y) nf])))
  /\ (forall rtsMat pMat timeLast decaySec winSize neighborDist goodRatioThd thd
             maxIter pack,
        ExtractNormFlows rtsMat pMat timeLast decaySec winSize neighborDist
          goodRatioThd thd maxIter = Some pack ->
        Forall (fun n =>
                  exists A B,
                    nf_nf n = ((1.0 / (- A * - A + - B * - B) * - A)%float,
                               (1.0 / (- A * - A + - B * - B) * - B)%float)
                    /\ (4E3 * 4E3 <? fst (nf_nf n) * fst (nf_nf n)
                                     + snd (nf_nf n) * snd (nf_nf n))%float = false)
               (nfs pack)).
Proof.
  split.
  - intros mask rtsMat ws subTravSize neighborDist winSampleCountThd goodRatioThd thd
      maxIter y x st w inliers model A B C Hmask Hgather Hjump Hcount Hocc Hinl
      Hransac Hratio Hrefit dtdx dtdy nf.
    destruct (scan_pixel_fitted mask rtsMat ws subTravSize neighborDist winSampleCountThd
                goodRatioThd thd maxIter y x st w inliers model A B C
                Hmask Hgather Hjump Hcount Hocc Hinl Hransac Hratio Hrefit)
      as (occupy' & occ' & Hset & _ & Hscan).
    exists occupy'. split; [exact Hset|]. rewrite Hscan.
    change (flow_of_plane A B) with nf.
    change (degeneracy_bound <? squaredNorm nf)%float
      with (4E3 * 4E3 <? fst nf * fst nf + snd nf * snd nf)%float.
    destruct (4E3 * 4E3 <? fst nf * fst nf + snd nf * snd nf)%float; [done|].
    by exists occ'.
  - intros rtsMat pMat timeLast decaySec winSize neighborDist goodRatioThd thd maxIter
      pack Hpack.
    exact (ExtractNormFlows_flows_kept _ _ _ _ _ _ _ _ _ _ Hpack).
Qed.

Lemma C6_flow_of_plane_witness :
  exists occupy',
    Dense.set (occupy scan0) 1 1 255 = Some occupy'
    /\ exists occ',
         scan_pixel mask0 edge_map 1 1 1 7 0.8%float 0.001%float 50 1 1 scan0
         = Some (mkScan occupy' occ'
                   (st_nfs scan0
                    ++ [mkNormFlow 1.01 (1, 1) (99.999999999999901, -0)%float])).
Proof.
  exact (proj1 (@C6_flow_of_plane_or_discard EigenLDLT_cramer Ransac_all_points)
           mask0 edge_map 1 1 1 7 0.8%float 0.001%float 50 1 1 scan0
           (mkWindow (window_at 1 1 (fun x y => (1 + 0.01 * double_of_int x)%float))
              1.01%float false)
           (seqZ 0 9) (-0.010000000000000009, 0, -2.2204460492503131e-16)%float
           (-0.010000000000000009)%float 0%float (-2.2204460492503131e-16)%float
           ltac:(vm_compute; reflexivity) ltac:(vm_compute; reflexivity)
           ltac:(reflexivity) ltac:(reflexivity)
           ltac:(split; reflexivity) ltac:(split; reflexivity)
           ltac:(vm_compute; reflexivity) ltac:(vm_compute; reflexivity)
           ltac:(vm_compute; reflexivity)).
Defined.

(** C9: at such a candidate pixel, when the refitted coefficients have
    [A = 0] and [B = 0] the divisor [dtdx^2 + dtdy^2] is zero, both
    components of the flow are NaN, the test
    [squared norm > (4 x 10^3)^2] is false, and the loop body records a
    NormFlow with that flow at the pixel. *)
Theorem C9_zero_slope_records_nan `{EigenLDLT float} `{Ransac}
    (mask : Dense.t Z) (rtsMat : Dense.t float)
    (ws subTravSize neighborDist winSampleCountThd : Z)
    (goodRatioThd thd : float) (maxIter y x : Z) (st : ScanState) (w : Window)
    (inliers : list Z) (model : Vec3 float) (A B C : float) :
  Dense.get mask y x = Some 255 ->
  gather_window mask (occupy st) rtsMat ws subTravSize neighborDist x y = Some w ->
  jumpCurPixel w = false ->
  (Z.of_nat (length (inRangeData w)) <? winSampleCountThd) = false ->
  same_size (occupy st) mask -> same_size (st_inliersOccupy st) mask ->
  ransac_computeModel x y (Centralization (inRangeData w)) thd maxIter
  = (true, inliers, model) ->
  (double_of_int (Z.of_nat (length inliers))
   / double_of_int (Z.of_nat (length (inRangeData w))) <? goodRatioThd)%float = false ->
  optimizeModelCoefficients (Centralization (inRangeData w)) inliers model
  = Some (A, B, C) ->
  (A =? 0)%float = true -> (B =? 0)%float = true ->
  let dtdx := (- A)%float in
  let dtdy := (- B)%float in
  let nf := ((1.0 / (dtdx * dtdx + dtdy * dtdy) * dtdx)%float,
             (1.0 / (dtdx * dtdx + dtdy * dtdy) * dtdy)%float) in
  (dtdx * dtdx + dtdy * dtdy)%float = 0%float
  /\ is_nan (fst nf) = true /\ is_nan (snd nf) = true
  /\ (4E3 * 4E3 <? squaredNorm nf)%float = false
  /\ exists occupy' occ',
       scan_pixel mask rtsMat ws subTravSize neighborDist winSampleCountThd
         goodRatioThd thd maxIter y x st
       = Some (mkScan occupy' occ' (st_nfs st ++ [mkNormFlow (timeCen w) (x, y) nf])).
Proof.
  intros Hmask Hgather Hjump Hcount Hocc Hinl Hransac Hratio Hrefit HA HB dtdx dtdy nf.
  destruct (scan_pixel_fitted mask rtsMat ws subTravSize neighborDist winSampleCountThd
              goodRatioThd thd maxIter y x st w inliers model A B C
              Hmask Hgather Hjump Hcount Hocc Hinl Hransac Hratio Hrefit)
    as (occupy' & occ' & _ & _ & Hscan).
  rewrite Hscan. change (flow_of_plane A B) with nf. subst nf dtdx dtdy.
  destruct (eqb_zero A HA) as [-> | ->], (eqb_zero B HB) as [-> | ->];
    (repeat split; [vm_compute; reflexivity ..|]);
    exists occupy', occ'; reflexivity.
Qed.

Lemma C9_zero_slope_witness :
  (- 0 * - 0 + - 0 * - 0)%float = 0%float
  /\ is_nan (1.0 / (- 0 * - 0 + - 0 * - 0) * - 0)%float = true
  /\ is_nan (1.0 / (- 0 * - 0 + - 0 * - 0) * - 0)%float = true
  /\ (4E3 * 4E3 <? squaredNorm (nan, nan))%float = false
  /\ exists occupy' occ',
       scan_pixel mask0 flat_map 1 1 1 7 0.8%float 0.001%float 50 1 1 scan0
       = Some (mkScan occupy' occ' (st_nfs scan0 ++ [mkNormFlow 1.0 (1, 1) (nan, nan)])).
Proof.
  exact (@C9_zero_slope_records_nan EigenLDLT_cramer Ransac_all_points
           mask0 flat_map 1 1 1 7 0.8%float 0.001%float 50 1 1 scan0
           (mkWindow (window_at 1 1 (fun x y => 1.0%float)) 1.0%float false)
           (seqZ 0 9) (0, 0, 0)%float 0%float 0%float 0%float
           ltac:(vm_compute; reflexivity) ltac:(vm_compute; reflexivity)
           ltac:(reflexivity) ltac:(reflexivity)
           ltac:(split; reflexivity) ltac:(split; reflexivity)
           ltac:(vm_compute; reflexivity) ltac:(vm_compute; reflexivity)
           ltac:(vm_compute; reflexivity)
           ltac:(vm_compute; reflexivity) ltac:(vm_compute; reflexivity)).
Defined.

(** ** The local-plane model *)




(** * Further properties of the code *)

(** ** ActiveEventSurface *)

(** X1: on a well-formed surface [GrabEvent] returns exactly for the events
    whose pixel, read as [std::uint16_t], lies in the image; for any other
    event the access to [_saeLatest] is out of range. *)
Theorem GrabEvent_returns_iff_in_image s e draw :
  surface_ok s ->
  is_Some (GrabEvent s e draw) <-> pixel_in s (fst (pixel_of e)) (snd (pixel_of e)).
Proof.
  intros Hok. split.
  - intros [s' Hrun].
    destruct (decide (0 <= fst (pixel_of e) < imgWidth (_intri s)
                      /\ 0 <= snd (pixel_of e) < imgHeight (_intri s))) as [Hin|Hout];
      [exact Hin|].
    by rewrite (GrabEvent_outside s e draw Hok Hout) in Hrun.
  - intros Hin.
    destruct (GrabEvent_effect s e draw Hok Hin) as (s' & _ & _ & Hrun & _). by exists s'.
Qed.

Lemma GrabEvent_returns_iff_in_image_witness :
  is_Some (GrabEvent fresh_64x48 (ev 0.5 64 10 true) false)
  <-> pixel_in fresh_64x48 (fst (pixel_of (ev 0.5 64 10 true)))
        (snd (pixel_of (ev 0.5 64 10 true))).
Proof.
  apply (GrabEvent_returns_iff_in_image fresh_64x48 (ev 0.5 64 10 true) false).
  apply surface_ok_new; simpl; lia.
Defined.

(** X2: after a batch of events that lie in the image, [GetTimeLatest] is the
    timestamp of the last event of the batch, whether or not the debounce
    filter let that event through. *)
Theorem GetTimeLatest_is_last_event events : forall s draw e,
  surface_ok s ->
  Forall (fun e => pixel_in s (fst (pixel_of e)) (snd (pixel_of e))) events ->
  last events = Some e ->
  exists s', GrabEvents s events draw = Some s' /\ GetTimeLatest s' = GetTimestamp e.
Proof.
  induction events as [|e0 rest IH]; intros s draw e Hok Hall Hlast; [done|].
  apply Forall_cons in Hall as [Hin Hall].
  destruct (GrabEvent_effect s e0 draw Hok Hin)
    as (s1 & _ & _ & Hrun & Hok1 & _ & Hintri & Htime & _).
  simpl. rewrite Hrun. simpl.
  destruct rest as [|e1 rest].
  - exists s1. simpl in Hlast. injection Hlast as <-. by split.
  - apply (IH s1 draw e Hok1); [|exact Hlast].
    eapply Forall_impl; [exact Hall|]. intros e'. unfold pixel_in. by rewrite Hintri.
Qed.

Lemma GetTimeLatest_is_last_event_witness :
  exists s',
    GrabEvents fresh_64x48 [ev 0.5 10 10 true; ev 0.502 10 10 true] false = Some s'
    /\ GetTimeLatest s' = GetTimestamp (ev 0.502 10 10 true).
Proof.
  apply (GetTimeLatest_is_last_event [ev 0.5 10 10 true; ev 0.502 10 10 true]
           fresh_64x48 false (ev 0.502 10 10 true)).
  - apply surface_ok_new; simpl; lia.
  - repeat constructor; pixel_in_image.
  - reflexivity.
Defined.

(** X3: at a pixel whose latest event of one polarity is not older than its
    latest event of the other polarity, a run of events of the first
    polarity, each no later than [FILTER_THD] after the one before it (the
    first after that latest event) and none older than the latest event of
    the other polarity, never advances [_sae]: however long the run, every
    entry of [_sae] stays as it was, while [_saeLatest] at the pixel follows
    the run to its last event. *)
Theorem close_run_keeps_sae events : forall s draw p x y tLast tLastInv,
  surface_ok s -> pixel_in s x y ->
  saeLatest_at s p x y = Some tLast ->
  saeLatest_at s (negb p) x y = Some tLastInv ->
  (tLast <? tLastInv)%float = false ->
  Forall (fun e => pixel_of e = (x, y) /\ GetPolarity e = p
                   /\ (GetTimestamp e <? tLastInv)%float = false) events ->
  within_thd (FILTER_THD s) tLast events = true ->
  exists s',
    GrabEvents s events draw = Some s'
    /\ (forall q x' y', sae_at s' q x' y' = sae_at s q x' y')
    /\ saeLatest_at s' p x y = Some (last_time tLast events).
Proof.
  induction events as [|e rest IH];
    intros s draw p x y tLast tLastInv Hok Hin HL HLi Hnewer Hall Hrun.
  - exists s. by repeat split.
  - apply Forall_cons in Hall as [(Hpix & Hpol & Hnew) Hall].
    simpl in Hrun. apply andb_true_iff in Hrun as [Hclose Hrun].
    apply negb_true_iff in Hclose.
    assert (fst (pixel_of e) = x /\ snd (pixel_of e) = y) as [Hx Hy] by by rewrite Hpix.
    destruct (GrabEvent_effect s e draw Hok) as
      (s1 & a & b & Hrun1 & Hok1 & Hthd & Hintri & _ & Ha & Hb & HL1 & Hsae1 & Hfr).
    { by rewrite Hx, Hy. }
    rewrite Hx, Hy, Hpol in *.
    assert (a = tLast) as -> by congruence. assert (b = tLastInv) as -> by congruence.
    unfold debounce_pass in Hsae1. rewrite Hclose, Hnewer in Hsae1. simpl in Hsae1.
    destruct (IH s1 draw p x y (GetTimestamp e) tLastInv) as (s' & Hrun' & Hsae' & HL');
      try done.
    + unfold pixel_in. by rewrite Hintri.
    + destruct (Hfr (negb p) x y) as [_ ->]; [by left; destruct p|done].
    + by rewrite Hthd.
    + exists s'. simpl. rewrite Hrun1. simpl. split; [done|]. split.
      * intros q x' y'. rewrite Hsae'.
        destruct (pixel_cases p q x' y' x y) as [(-> & -> & ->)|Hne]; [done|].
        by destruct (Hfr q x' y' Hne).
      * by rewrite HL', last_time_cons.
Qed.

Lemma close_run_keeps_sae_witness :
  exists s',
    GrabEvents fresh_64x48
      [ev 0.005 10 10 true; ev 0.012 10 10 true; ev 0.02 10 10 true] false = Some s'
    /\ (forall q x' y', sae_at s' q x' y' = sae_at fresh_64x48 q x' y')
    /\ saeLatest_at s' true 10 10
       = Some (last_time 0
                 [ev 0.005 10 10 true; ev 0.012 10 10 true; ev 0.02 10 10 true]).
Proof.
  apply (close_run_keeps_sae
           [ev 0.005 10 10 true; ev 0.012 10 10 true; ev 0.02 10 10 true]
           fresh_64x48 false true 10 10 0%float 0%float).
  - apply surface_ok_new; simpl; lia.
  - pixel_in_image.
  - reflexivity.
  - reflexivity.
  - reflexivity.
  - repeat constructor.
  - reflexivity.
Defined.

(** X4: [_sae] holds nothing but times of events: after a batch, an entry of
    [_sae] is the entry from before the batch or the timestamp of an event
    of the batch with that pixel and polarity. *)
Theorem sae_holds_event_times events : forall s draw,
  surface_ok s ->
  Forall (fun e => pixel_in s (fst (pixel_of e)) (snd (pixel_of e))) events ->
  exists s',
    GrabEvents s events draw = Some s'
    /\ forall p x y a, sae_at s' p x y = Some a ->
         sae_at s p x y = Some a
         \/ exists e, e ∈ events /\ GetPolarity e = p /\ pixel_of e = (x, y)
                      /\ GetTimestamp e = a.
Proof.
  induction events as [|e rest IH]; intros s draw Hok Hall.
  - exists s. split; [done|]. auto.
  - apply Forall_cons in Hall as [Hin Hall].
    destruct (GrabEvent_effect s e draw Hok Hin)
      as (s1 & tLast & tLastInv & Hrun & Hok1 & _ & Hintri & _ & _ & _ & _ & Hsae1 & Hfr).
    destruct (IH s1 draw Hok1) as (s' & Hrun' & Hfrom).
    { eapply Forall_impl; [exact Hall|]. intros e'. unfold pixel_in. by rewrite Hintri. }
    exists s'. simpl. rewrite Hrun. simpl. split; [done|].
    intros p x y a Ha. destruct (Hfrom p x y a Ha) as [Ha1|(e' & He' & Hrest)].
    + destruct (pixel_cases (GetPolarity e) p x y (fst (pixel_of e)) (snd (pixel_of e)))
        as [(-> & -> & ->)|Hne].
      * rewrite Hsae1 in Ha1. destruct (debounce_pass _ _ _ _); [|by left].
        right. exists e. split; [by left|]. split; [done|]. split; [by destruct (pixel_of e)|].
        congruence.
      * left. destruct (Hfr p x y Hne) as [<- _]. done.
    + right. exists e'. split; [by right|done].
Qed.

Lemma sae_holds_event_times_witness :
  exists s',
    GrabEvents fresh_64x48 [ev 0.5 10 10 true; ev 0.502 10 10 true] false = Some s'
    /\ forall p x y a, sae_at s' p x y = Some a ->
         sae_at fresh_64x48 p x y = Some a
         \/ exists e, e ∈ [ev 0.5 10 10 true; ev 0.502 10 10 true]
                      /\ GetPolarity e = p /\ pixel_of e = (x, y) /\ GetTimestamp e = a.
Proof.
  apply (sae_holds_event_times [ev 0.5 10 10 true; ev 0.502 10 10 true] fresh_64x48 false).
  - apply surface_ok_new; simpl; lia.
  - repeat constructor; pixel_in_image.
Defined.

(** X5: a fresh surface that ingests events with non-decreasing,
    non-negative timestamps keeps every entry of [_sae] and of [_saeLatest]
    at or below [GetTimeLatest]: no pixel of the surface is later than the
    time the extraction takes as the present. *)
Theorem surface_not_after_latest intri thd events draw :
  0 <= imgWidth intri -> 0 <= imgHeight intri ->
  Sorted ts_le events ->
  Forall (fun e => (0 <=? GetTimestamp e)%float = true) events ->
  Forall (fun e => 0 <= fst (pixel_of e) < imgWidth intri
                   /\ 0 <= snd (pixel_of e) < imgHeight intri) events ->
  exists s,
    GrabEvents (ActiveEventSurface_new intri thd) events draw = Some s
    /\ forall p x y a,
         sae_at s p x y = Some a \/ saeLatest_at s p x y = Some a ->
         (a <=? GetTimeLatest s)%float = true.
Proof.
  intros Hw Hh Hsorted Hnonneg Himage.
  apply GrabEvents_below_latest.
  - by apply surface_ok_new.
  - intros p x y a Ha.
    assert (a = 0%float) as ->; [|reflexivity].
    destruct Ha as [Ha|Ha].
    + by apply new_surface_sae_zero in Ha.
    + pose proof (DenseFacts.get_Some_in_range _ _ _ _ Ha) as Hin.
      apply DenseFacts.in_range_spec in Hin.
      assert (0 <= x < imgWidth intri /\ 0 <= y < imgHeight intri) as [Hx Hy]
        by by destruct p.
      destruct (new_surface_reads intri thd p x y Hx Hy) as [_ Hz]. congruence.
  - exact Hnonneg.
  - apply Sorted_StronglySorted in Hsorted; [done|apply _].
  - exact Himage.
Qed.

Lemma surface_not_after_latest_witness :
  exists s,
    GrabEvents (ActiveEventSurface_new (mkIntri 64 48) 0.01%float)
      [ev 0 10 10 true; ev 0.005 10 10 true; ev 0.02 10 10 false] true = Some s
    /\ forall p x y a,
         sae_at s p x y = Some a \/ saeLatest_at s p x y = Some a ->
         (a <=? GetTimeLatest s)%float = true.
Proof.
  apply (surface_not_after_latest (mkIntri 64 48) 0.01%float
           [ev 0 10 10 true; ev 0.005 10 10 true; ev 0.02 10 10 false] true).
  - simpl; lia.
  - simpl; lia.
  - repeat constructor.
  - repeat constructor.
  - repeat constructor; vm_compute; discriminate.
Defined.

(** X6: an event ingested with [drawEventMat] shows in the image that
    [GetEventImgMat] hands out, at row [ey] and column [ex], as (255, 0, 0)
    for a positive and (0, 0, 255) for a negative event, every other pixel
    as before; ingested without [drawEventMat] it leaves the image alone.
    With [resetMat] the call leaves a well-formed surface with the same
    [_sae], [_saeLatest] and latest time whose image is black again. *)
Theorem drawn_event_shows_until_reset `{VisualUndistortionMap} s e :
  let x := fst (pixel_of e) in
  let y := snd (pixel_of e) in
  surface_ok s -> pixel_in s x y ->
  exists s' s'',
    GrabEvent s e true = Some s'
    /\ GrabEvent s e false = Some s'' /\ _eventImgMat s'' = _eventImgMat s
    /\ Dense.get (fst (GetEventImgMat s' true false)) y x
       = Some (if GetPolarity e then (255, 0, 0) else (0, 0, 255))
    /\ (forall r c, r <> y \/ c <> x ->
          Dense.get (fst (GetEventImgMat s' true false)) r c
          = Dense.get (_eventImgMat s) r c)
    /\ let s2 := snd (GetEventImgMat s' true false) in
       surface_ok s2 /\ _sae s2 = _sae s' /\ _saeLatest s2 = _saeLatest s'
       /\ GetTimeLatest s2 = GetTimeLatest s'
       /\ forall r c, 0 <= r < imgHeight (_intri s) -> 0 <= c < imgWidth (_intri s) ->
            Dense.get (fst (GetEventImgMat s2 false false)) r c = Some (0, 0, 0).
Proof.
  intros x y Hok Hin.
  destruct (GrabEvent_effect s e true Hok Hin) as (s' & _ & _ & Hrun & Hok' & _ & Hintri & _).
  destruct (GrabEvent_effect s e false Hok Hin) as (s'' & _ & _ & Hrun0 & _).
  pose proof (GrabEvent_image s e true s' Hrun) as Himg. simpl in Himg.
  pose proof (GrabEvent_image s e false s'' Hrun0) as Himg0. simpl in Himg0.
  exists s', s''. do 3 (split; [done|]).
  destruct Hok as (_ & _ & Hmat). simpl.
  split; [exact (DenseFacts.get_set_eq _ _ _ _ _ (proj1 Hmat) Himg)|].
  split.
  { intros r c Hne. apply (DenseFacts.get_set_ne _ _ _ _ _ r c Himg).
    destruct Hne as [Hne|Hne]; [left|right]; intros Heq; apply Hne; symmetry;
      exact Heq. }
  destruct Hok' as (Hsae' & Hlat' & Hmat').
  split.
  { unfold surface_ok. simpl. do 2 (split; [done|]).
    destruct Hmat' as ((Hr & Hc & _) & Hrows & Hcols). rewrite Hrows in Hr. rewrite Hcols in Hc.
    split; [by apply DenseFacts.fill_wf|done]. }
  do 3 (split; [done|]).
  intros r c Hr Hc. rewrite Hintri. by apply DenseFacts.get_fill.
Qed.

Lemma drawn_event_shows_until_reset_witness :
  exists s' s'',
    GrabEvent fresh_64x48 (ev 0.5 10 12 false) true = Some s'
    /\ GrabEvent fresh_64x48 (ev 0.5 10 12 false) false = Some s''
    /\ _eventImgMat s'' = _eventImgMat fresh_64x48
    /\ Dense.get (fst (GetEventImgMat s' true false)) 12 10 = Some (0, 0, 255)
    /\ (forall r c, r <> 12 \/ c <> 10 ->
          Dense.get (fst (GetEventImgMat s' true false)) r c
          = Dense.get (_eventImgMat fresh_64x48) r c)
    /\ let s2 := snd (GetEventImgMat s' true false) in
       surface_ok s2 /\ _sae s2 = _sae s' /\ _saeLatest s2 = _saeLatest s'
       /\ GetTimeLatest s2 = GetTimeLatest s'
       /\ forall r c, 0 <= r < 48 -> 0 <= c < 64 ->
            Dense.get (fst (GetEventImgMat s2 false false)) r c = Some (0, 0, 0).
Proof.
  apply (@drawn_event_shows_until_reset no_distortion fresh_64x48 (ev 0.5 10 12 false)).
  - apply surface_ok_new; simpl; lia.
  - pixel_in_image.
Defined.



(** X8: a pixel that no event of a batch addresses stays unassigned: after
    the batch on a fresh surface, [RawTimeSurface] (polarity ignored, no
    undistortion) holds the raw time 0 at the row and column of the pixel. *)
Theorem untouched_pixel_reads_zero `{VisualUndistortionMap} `{FloatToUchar}
    (intri : PinholeIntrinsic) (thd : float) (events : list Event) (draw : bool)
    (x y : Z) :
  0 <= x < imgWidth intri -> 0 <= y < imgHeight intri ->
  Forall (fun e => (0 <= fst (pixel_of e) < imgWidth intri
                    /\ 0 <= snd (pixel_of e) < imgHeight intri)
                   /\ pixel_of e <> (x, y)) events ->
  exists s timeSurfaceMap polarityMap,
    GrabEvents (ActiveEventSurface_new intri thd) events draw = Some s
    /\ RawTimeSurface s true false = Some (timeSurfaceMap, polarityMap)
    /\ Dense.get timeSurfaceMap y x = Some 0%float.
Proof.
  intros Hx Hy Hall.
  destruct (GrabEvents_elsewhere events (ActiveEventSurface_new intri thd) draw x y)
    as (s & Hrun & Hok & _ & Hintri & Hkeep); [apply surface_ok_new; lia|done|].
  destruct (RawTimeSurface_run s true Hok) as ([ts pm] & Hraw & _ & _ & _ & Hentries).
  exists s, ts, pm. do 2 (split; [done|]).
  destruct (Hentries x y) as (sae1 & sae0 & Hs1 & Hs0 & Hget & _).
  { unfold pixel_in. by rewrite Hintri. }
  destruct (new_surface_reads intri thd true x y Hx Hy) as [Hz1 _].
  destruct (new_surface_reads intri thd false x y Hx Hy) as [Hz0 _].
  rewrite (proj1 (Hkeep true)), Hz1 in Hs1. rewrite (proj1 (Hkeep false)), Hz0 in Hs0.
  apply (f_equal (default 0%float)) in Hs1, Hs0. simpl in Hs1, Hs0. subst sae1 sae0.
  exact Hget.
Qed.

Lemma untouched_pixel_reads_zero_witness :
  exists s timeSurfaceMap polarityMap,
    GrabEvents (ActiveEventSurface_new (mkIntri 64 48) 0.01%float)
      [ev 0.5 10 10 true; ev 0.6 11 10 false] false = Some s
    /\ RawTimeSurface s true false = Some (timeSurfaceMap, polarityMap)
    /\ Dense.get timeSurfaceMap 7 5 = Some 0%float.
Proof.
  apply (@untouched_pixel_reads_zero no_distortion low_byte (mkIntri 64 48) 0.01%float
           [ev 0.5 10 10 true; ev 0.6 11 10 false] false 5 7).
  - simpl; lia.
  - simpl; lia.
  - repeat constructor; vm_compute; discriminate.
Defined.

(** ** NormFlowPack *)

(** X9: on a pack whose maps have one size, [ActiveEvents] lists exactly the
    pixels whose raw time is not below 1E-3 and not older than [dt], each
    once and in raster order; an event carries the raw time of its pixel, and
    the array is stamped with the time of the event that comes last in
    raster order. *)
Theorem ActiveEvents_lists_active_pixels (pack : NormFlowPack) (dt : float) :
  pack_ok pack ->
  exists view,
    ActiveEvents pack dt = Some view
    /\ StronglySorted raster_lt (events_of view)
    /\ (forall e, e ∈ events_of view ->
          active_pixel pack dt (snd (GetPos e)) (fst (GetPos e))
          /\ Dense.get (rawTimeSurfaceMap pack) (snd (GetPos e)) (fst (GetPos e))
             = Some (GetTimestamp e))
    /\ (forall ey ex,
          0 <= ey < Dense.rows (rawTimeSurfaceMap pack) ->
          0 <= ex < Dense.cols (rawTimeSurfaceMap pack) ->
          active_pixel pack dt ey ex ->
          exists e, e ∈ events_of view /\ GetPos e = (ex, ey))
    /\ (forall arr, view = ptr arr ->
          GetTimestamp <$> last (GetEvents arr) = Some (ea_timestamp arr)).
Proof.
  intros Hok. eexists. split; [apply (ActiveEvents_scan pack Hok)|].
  rewrite events_of_EventArray_of.
  split; [|split; [|split]].
  - apply raster_events_sorted. intros ey ex e (et & ep & _ & _ & _ & _ & ->)%active_event_inv.
    done.
  - intros e (ey & ex & _ & _ & He)%elem_of_raster_events.
    pose proof (active_event_Some pack dt ey ex e He) as Hact.
    apply active_event_inv in He as (et & ep & Het & _ & _ & _ & ->). simpl. done.
  - intros ey ex Hey Hex Hact.
    destruct (active_event pack dt ey ex) as [e|] eqn:He.
    + exists e. split; [apply elem_of_raster_events; by exists ey, ex|].
      by apply active_event_inv in He as (et & ep & _ & _ & _ & _ & ->).
    + by apply (active_event_None pack Hok dt ey ex Hey Hex) in He.
  - intros arr Harr. unfold EventArray_of in Harr.
    destruct (last (raster_events _ _ _)) as [e|] eqn:Hlast; [|done].
    injection Harr as <-. simpl. by rewrite Hlast.
Qed.

Lemma ActiveEvents_lists_active_pixels_witness :
  exists view,
    ActiveEvents pack0 0.01 = Some view
    /\ StronglySorted raster_lt (events_of view)
    /\ (forall e, e ∈ events_of view ->
          active_pixel pack0 0.01 (snd (GetPos e)) (fst (GetPos e))
          /\ Dense.get (rawTimeSurfaceMap pack0) (snd (GetPos e)) (fst (GetPos e))
             = Some (GetTimestamp e))
    /\ (forall ey ex,
          0 <= ey < Dense.rows (rawTimeSurfaceMap pack0) ->
          0 <= ex < Dense.cols (rawTimeSurfaceMap pack0) ->
          active_pixel pack0 0.01 ey ex ->
          exists e, e ∈ events_of view /\ GetPos e = (ex, ey))
    /\ (forall arr, view = ptr arr ->
          GetTimestamp <$> last (GetEvents arr) = Some (ea_timestamp arr)).
Proof.
  apply (ActiveEvents_lists_active_pixels pack0 0.01%float).
  repeat split; simpl; lia.
Defined.

(** X10: the norm-flow events are among the active events: on a pack whose
    maps have one size, every event of [NormFlowEvents] that is not older
    than [dt] is an event of [ActiveEvents(dt)], and every event of
    [ActiveEvents(dt)] whose pixel is marked in [inliersOccupy] is an event
    of [NormFlowEvents]. *)
Theorem NormFlowEvents_among_active (pack : NormFlowPack) (dt : float) :
  pack_ok pack ->
  exists active flows,
    ActiveEvents pack dt = Some active /\ NormFlowEvents pack = Some flows
    /\ (forall e, e ∈ events_of flows ->
          (dt <? timestamp pack - GetTimestamp e)%float = false ->
          e ∈ events_of active)
    /\ (forall e occ, e ∈ events_of active ->
          Dense.get (inliersOccupy pack) (snd (GetPos e)) (fst (GetPos e)) = Some occ ->
          occ <> 0 -> e ∈ events_of flows).
Proof.
  intros Hok. eexists. eexists.
  split; [apply (ActiveEvents_scan pack Hok)|].
  split; [apply (NormFlowEvents_scan pack Hok)|].
  rewrite !events_of_EventArray_of. split.
  - intros e (ey & ex & Hey & Hex & He)%elem_of_raster_events Hage.
    apply elem_of_raster_events. exists ey, ex. do 2 (split; [done|]).
    apply norm_flow_event_inv in He as (et & occ & ep & Het & Hold & _ & _ & Hep & ->).
    simpl in Hage. unfold active_event. rewrite Het. simpl. rewrite Hold, Hage. simpl.
    by rewrite Hep.
  - intros e occ (ey & ex & Hey & Hex & He)%elem_of_raster_events Hocc Hne.
    apply elem_of_raster_events. exists ey, ex. do 2 (split; [done|]).
    apply active_event_inv in He as (et & ep & Het & Hold & _ & Hep & ->).
    simpl in Hocc. unfold norm_flow_event. rewrite Het. simpl. rewrite Hold, Hocc. simpl.
    apply Z.eqb_neq in Hne. rewrite Hne. by rewrite Hep.
Qed.

Lemma NormFlowEvents_among_active_witness :
  exists active flows,
    ActiveEvents pack0 0.01 = Some active /\ NormFlowEvents pack0 = Some flows
    /\ (forall e, e ∈ events_of flows ->
          (0.01 <? timestamp pack0 - GetTimestamp e)%float = false ->
          e ∈ events_of active)
    /\ (forall e occ, e ∈ events_of active ->
          Dense.get (inliersOccupy pack0) (snd (GetPos e)) (fst (GetPos e)) = Some occ ->
          occ <> 0 -> e ∈ events_of flows).
Proof.
  apply (NormFlowEvents_among_active pack0 0.01%float).
  repeat split; simpl; lia.
Defined.

(** X11: [Visualization] dereferences what [ActiveEvents] and
    [NormFlowEvents] return without a test.  On a pack whose maps have one
    size it therefore has no result when no pixel is active, and none when
    no pixel is both assigned and marked in [inliersOccupy], as on a pack
    without a fitted plane: it goes through a null pointer. *)
Theorem Visualization_needs_both_views `{CvConcat} (pack : NormFlowPack)
    (rasters : PackRasters) (dt : float) :
  pack_ok pack ->
  (forall ey ex,
     0 <= ey < Dense.rows (rawTimeSurfaceMap pack) ->
     0 <= ex < Dense.cols (rawTimeSurfaceMap pack) -> ~ active_pixel pack dt ey ex)
  \/ (forall ey ex,
        0 <= ey < Dense.rows (rawTimeSurfaceMap pack) ->
        0 <= ex < Dense.cols (rawTimeSurfaceMap pack) -> ~ norm_flow_pixel pack ey ex) ->
  Visualization pack rasters dt = None.
Proof.
  intros Hok Hnone. unfold Visualization.
  destruct (hconcat _ _) as [m1|]; [simpl|done].
  rewrite (ActiveEvents_scan pack Hok). simpl.
  destruct Hnone as [Hnone|Hnone].
  - assert (raster_events (Dense.rows (rawTimeSurfaceMap pack))
              (Dense.cols (rawTimeSurfaceMap pack)) (active_event pack dt) = []) as ->; [|done].
    apply raster_events_nil. intros ey ex Hey Hex.
    apply (active_event_None pack Hok dt ey ex Hey Hex). by apply Hnone.
  - destruct (deref (EventArray_of _)) as [active|]; [simpl|done].
    destruct (draw_events _ _) as [actEventMat|]; [simpl|done].
    rewrite (NormFlowEvents_scan pack Hok). simpl.
    assert (raster_events (Dense.rows (rawTimeSurfaceMap pack))
              (Dense.cols (rawTimeSurfaceMap pack)) (norm_flow_event pack) = []) as ->; [|done].
    apply raster_events_nil. intros ey ex Hey Hex.
    apply (norm_flow_event_None pack Hok ey ex Hey Hex). by apply Hnone.
Qed.

Lemma Visualization_needs_both_views_witness :
  Visualization pack_no_flow rasters0 0.01 = None.
Proof.
  apply (@Visualization_needs_both_views CvConcat_rows pack_no_flow rasters0 0.01%float).
  - repeat split; simpl; lia.
  - right. intros ey ex Hey Hex (et & occ & _ & _ & Hocc & Hne).
    simpl in Hey, Hex, Hocc. rewrite DenseFacts.get_fill in Hocc by lia. congruence.
Defined.

(** ** EventLocalPlaneSacProblem *)

(** X12: [computeModelCoefficients] and [getSelectedDistancesToModel] return
    exactly when every index lies in the data, [at] throwing otherwise; the
    scores are as many as the indices; and [optimizeModelCoefficients] fits
    the inliers anew, whatever model it is handed. *)
Theorem plane_fit_checks_indices {T : Type} `{Scalar T} `{EigenLDLT T}
    (data : list (T * T * T)) (model : Vec3 T) (indices : list Z) :
  (is_Some (computeModelCoefficients data indices)
   <-> Forall (fun idx => 0 <= idx < Z.of_nat (length data)) indices)
  /\ (is_Some (getSelectedDistancesToModel data model indices)
      <-> Forall (fun idx => 0 <= idx < Z.of_nat (length data)) indices)
  /\ (forall scores, getSelectedDistancesToModel data model indices = Some scores ->
        length scores = length indices)
  /\ optimizeModelCoefficients data indices model = computeModelCoefficients data indices.
Proof.
  split; [|split; [|split]].
  - unfold computeModelCoefficients. rewrite <- (Forall_iff _ _ _ (vector_at_is_Some data)).
    rewrite <- (mapM_is_Some (vector_at data)). split.
    + intros [m Hm]. apply bind_Some in Hm as (pts & Hpts & _). by exists pts.
    + intros [pts ->]. simpl. by eexists.
  - unfold getSelectedDistancesToModel. rewrite mapM_is_Some.
    apply Forall_iff. intros idx. rewrite <- vector_at_is_Some. simpl. split.
    + intros [d Hd]. apply bind_Some in Hd as (p & -> & _). by eexists.
    + intros [[[x y] t] ->]. simpl. by eexists.
  - intros scores Hscores. symmetry. exact (length_mapM _ _ _ Hscores).
  - reflexivity.
Qed.

(** X13: a score of [getSelectedDistancesToModel] is never negative in
    binary64: for every score the comparison [score < 0] is false, also for
    a score that is not a number. *)
Theorem plane_scores_not_negative (data : list (float * float * float))
    (model : Vec3 float) (indices : list Z) (scores : list float) :
  getSelectedDistancesToModel data model indices = Some scores ->
  Forall (fun d => (d <? 0)%float = false) scores.
Proof.
  intros Hscores. apply mapM_Some_1 in Hscores.
  induction Hscores as [|idx d indices scores Hd _ IH]; constructor; [|exact IH].
  apply bind_Some in Hd as ([[x y] t] & _ & Hd). injection Hd as <-.
  apply abs_not_negative.
Qed.

Lemma plane_scores_not_negative_witness :
  Forall (fun d => (d <? 0)%float = false) [1.5%float; 0%float].
Proof.
  apply (plane_scores_not_negative [(0, 0, 1.5); (1, 1, -2)]%float (1, 1, 0)%float [0; 1]
           [1.5%float; 0%float]).
  vm_compute. reflexivity.
Defined.

(** ** EventNormFlow::ExtractNormFlows *)

(** X18: no two flows of a pack lie within [neighborDist] of one another:
    any two recorded flows differ by more than [neighborDist] along x or
    along y, a pixel within that distance of a claimed one being skipped. *)
Theorem flows_keep_their_distance `{EigenLDLT float} `{Ransac}
    (rtsMat : Dense.t float) (pMat : Dense.t Z) (timeLast decaySec : float)
    (winSize neighborDist : Z) (goodRatioThd thd : float) (maxIter : Z)
    (pack : NormFlowPack) :
  Dense.wf rtsMat ->
  ExtractNormFlows rtsMat pMat timeLast decaySec winSize neighborDist goodRatioThd thd
    maxIter = Some pack ->
  StronglySorted (flows_apart neighborDist) (nfs pack).
Proof.
  intros Hwf Hpack.
  destruct (ExtractNormFlows_scanned _ _ _ _ _ _ _ _ _ _ Hwf Hpack)
    as (occ & (_ & _ & Hsorted & _) & _).
  exact Hsorted.
Qed.

Lemma flows_keep_their_distance_witness :
  StronglySorted (flows_apart 1) (nfs edge_pack).
Proof.
  apply (@flows_keep_their_distance EigenLDLT_cramer Ransac_all_points edge_map
           (Dense.fill 5 5 0) 1.04%float 0.1%float 1 1 0.8%float 0.001%float 50 edge_pack).
  - exact edge_map_wf.
  - vm_compute. reflexivity.
Defined.

(** X19: every flow of a pack sits at a pixel that lies
    [max(winSize, neighborDist)] inside the map and whose raw time is in
    [[max(1E-3, timeLast - 1.5 decaySec), timeLast]]; for a window size that
    is not negative the flow is stamped with that raw time. *)
Theorem flows_sit_on_recent_pixels `{EigenLDLT float} `{Ransac}
    (rtsMat : Dense.t float) (pMat : Dense.t Z) (timeLast decaySec : float)
    (winSize neighborDist : Z) (goodRatioThd thd : float) (maxIter : Z)
    (pack : NormFlowPack) :
  Dense.wf rtsMat ->
  ExtractNormFlows rtsMat pMat timeLast decaySec winSize neighborDist goodRatioThd thd
    maxIter = Some pack ->
  forall n, n ∈ nfs pack ->
    let x := fst (nf_p n) in
    let y := snd (nf_p n) in
    let border := Z.max winSize neighborDist in
    border <= x < Dense.cols rtsMat - border
    /\ border <= y < Dense.rows rtsMat - border
    /\ exists t, Dense.get rtsMat y x = Some t /\ recent timeLast decaySec t
                 /\ (0 <= winSize -> nf_timestamp n = t).
Proof.
  intros Hwf Hpack n Hn x y border.
  destruct (ExtractNormFlows_scanned _ _ _ _ _ _ _ _ _ _ Hwf Hpack)
    as (occ & (_ & _ & _ & Hsites & _) & _).
  destruct (Hsites n Hn) as (Hx & Hy & Hmask & _ & Htime).
  do 2 (split; [done|]).
  apply inRange_get in Hmask as (t & Ht & Hlo & Hhi).
  exists t. split; [done|]. split; [by split|].
  intros Hws. specialize (Htime Hws). rewrite Ht in Htime.
  apply (f_equal (default 0%float)) in Htime. simpl in Htime. by symmetry.
Qed.

Lemma flows_sit_on_recent_pixels_witness :
  1 <= fst (nf_p edge_flow) < 5 - 1 /\ 1 <= snd (nf_p edge_flow) < 5 - 1
  /\ exists t, Dense.get edge_map (snd (nf_p edge_flow)) (fst (nf_p edge_flow)) = Some t
               /\ recent 1.04 0.1 t /\ (0 <= 1 -> nf_timestamp edge_flow = t).
Proof.
  apply (@flows_sit_on_recent_pixels EigenLDLT_cramer Ransac_all_points edge_map
           (Dense.fill 5 5 0) 1.04%float 0.1%float 1 1 0.8%float 0.001%float 50 edge_pack).
  - exact edge_map_wf.
  - vm_compute. reflexivity.
  - apply (list_elem_of_lookup_2 _ 0%nat). vm_compute. reflexivity.
Defined.

(** X20: an entry of [inliersOccupy] is 0 or 255, and a marked one belongs
    to a pixel whose raw time is in
    [[max(1E-3, timeLast - 1.5 decaySec), timeLast]] and which lies within
    [winSize] of a recorded flow along x and along y. *)
Theorem inliers_lie_in_windows_of_flows `{EigenLDLT float} `{Ransac}
    (rtsMat : Dense.t float) (pMat : Dense.t Z) (timeLast decaySec : float)
    (winSize neighborDist : Z) (goodRatioThd thd : float) (maxIter : Z)
    (pack : NormFlowPack) :
  Dense.wf rtsMat ->
  ExtractNormFlows rtsMat pMat timeLast decaySec winSize neighborDist goodRatioThd thd
    maxIter = Some pack ->
  forall r c v, Dense.get (inliersOccupy pack) r c = Some v ->
    v = 0
    \/ (v = 255
        /\ (exists t, Dense.get rtsMat r c = Some t /\ recent timeLast decaySec t)
        /\ exists n, n ∈ nfs pack /\ Z.abs (c - fst (nf_p n)) <= winSize
                     /\ Z.abs (r - snd (nf_p n)) <= winSize).
Proof.
  intros Hwf Hpack r c v Hget.
  destruct (ExtractNormFlows_scanned _ _ _ _ _ _ _ _ _ _ Hwf Hpack)
    as (occ & (_ & _ & _ & _ & Hmarks) & _).
  destruct (decide (v = 0)) as [->|Hv]; [by left|]. right.
  destruct (Hmarks r c v Hget Hv) as (-> & Hmask & Hnear).
  split; [done|]. split; [|done].
  apply inRange_get in Hmask as (t & Ht & Hlo & Hhi). exists t. by repeat split.
Qed.

Lemma inliers_lie_in_windows_of_flows_witness :
  255 = 0
  \/ (255 = 255
      /\ (exists t, Dense.get edge_map 2 1 = Some t /\ recent 1.04 0.1 t)
      /\ exists n, n ∈ nfs edge_pack /\ Z.abs (1 - fst (nf_p n)) <= 1
                   /\ Z.abs (2 - snd (nf_p n)) <= 1).
Proof.
  apply (@inliers_lie_in_windows_of_flows EigenLDLT_cramer Ransac_all_points edge_map
           (Dense.fill 5 5 0) 1.04%float 0.1%float 1 1 0.8%float 0.001%float 50 edge_pack).
  - exact edge_map_wf.
  - vm_compute. reflexivity.
  - vm_compute. reflexivity.
Defined.

(** X21: the extraction stays inside its maps: for a raw time map that is a
    matrix, a window size or a neighbour distance that is not negative, and
    a random search whose inliers are indices of its data, [ExtractNormFlows]
    returns a pack, no read or write leaving a map and no [at] throwing; the
    pack carries the polarity map, the raw time map and the latest time it
    was run on. *)
Theorem extraction_stays_inside_the_maps `{EigenLDLT float} `{Ransac}
    (rtsMat : Dense.t float) (pMat : Dense.t Z) (timeLast decaySec : float)
    (winSize neighborDist : Z) (goodRatioThd thd : float) (maxIter : Z) :
  ransac_in_range ->
  Dense.wf rtsMat -> 0 <= Z.max winSize neighborDist ->
  exists pack,
    ExtractNormFlows rtsMat pMat timeLast decaySec winSize neighborDist goodRatioThd thd
      maxIter = Some pack
    /\ polarityMap pack = pMat /\ rawTimeSurfaceMap pack = rtsMat
    /\ timestamp pack = timeLast.
Proof.
  intros Hransac Hwf Hborder.
  destruct (ExtractNormFlows_total Hransac rtsMat pMat timeLast decaySec winSize
              neighborDist goodRatioThd thd maxIter Hwf Hborder) as [pack Hpack].
  exists pack. split; [exact Hpack|].
  destruct (ExtractNormFlows_scanned _ _ _ _ _ _ _ _ _ _ Hwf Hpack) as (occ & _ & Hfields).
  exact Hfields.
Qed.

Lemma extraction_stays_inside_the_maps_witness :
  exists pack,
    @ExtractNormFlows EigenLDLT_cramer Ransac_all_points edge_map (Dense.fill 5 5 0)
      1.04%float 0.1%float 1 1 0.8%float 0.001%float 50 = Some pack
    /\ polarityMap pack = Dense.fill 5 5 0 /\ rawTimeSurfaceMap pack = edge_map
    /\ timestamp pack = 1.04%float.
Proof.
  apply (@extraction_stays_inside_the_maps EigenLDLT_cramer Ransac_all_points).
  - exact Ransac_all_points_in_range.
  - exact edge_map_wf.
  - simpl; lia.
Defined.

(** X22: a pack that [ExtractNormFlows] returns for maps of one size has
    maps of one size, so both views are defined on it; when it holds no
    flow, no pixel is marked, [NormFlowEvents] returns the null pointer and
    [Visualization] has no result. *)
Theorem extracted_pack_without_flow `{EigenLDLT float} `{Ransac} `{CvConcat}
    (rtsMat : Dense.t float) (pMat : Dense.t Z) (timeLast decaySec : float)
    (winSize neighborDist : Z) (goodRatioThd thd : float) (maxIter : Z)
    (pack : NormFlowPack) :
  Dense.wf rtsMat -> mat_ok (Dense.rows rtsMat) (Dense.cols rtsMat) pMat ->
  ExtractNormFlows rtsMat pMat timeLast decaySec winSize neighborDist goodRatioThd thd
    maxIter = Some pack ->
  pack_ok pack
  /\ (forall dt, is_Some (ActiveEvents pack dt))
  /\ is_Some (NormFlowEvents pack)
  /\ (nfs pack = [] ->
      NormFlowEvents pack = Some nullptr
      /\ forall rasters dt, Visualization pack rasters dt = None).
Proof.
  intros Hwf HpMat Hpack.
  destruct (ExtractNormFlows_scanned _ _ _ _ _ _ _ _ _ _ Hwf Hpack)
    as (occ & (_ & Hinl & _ & _ & Hmarks) & HpM & Hrts & _).
  simpl in Hinl, Hmarks.
  assert (pack_ok pack) as Hok.
  { unfold pack_ok. rewrite Hrts, HpM. by repeat split; try apply Hwf; try apply HpMat;
      try apply Hinl. }
  split; [exact Hok|].
  split; [intros dt; rewrite (ActiveEvents_scan pack Hok); by eexists|].
  split; [rewrite (NormFlowEvents_scan pack Hok); by eexists|].
  intros Hnone.
  assert (forall ey ex,
            0 <= ey < Dense.rows (rawTimeSurfaceMap pack) ->
            0 <= ex < Dense.cols (rawTimeSurfaceMap pack) ->
            ~ norm_flow_pixel pack ey ex) as Hunmarked.
  { intros ey ex _ _ (et & v & _ & _ & Hget & Hv).
    destruct (Hmarks ey ex v Hget Hv) as (_ & _ & n & Hn & _).
    rewrite Hnone in Hn. by apply elem_of_nil in Hn. }
  assert (NormFlowEvents pack = Some nullptr) as Hnull.
  { rewrite (NormFlowEvents_scan pack Hok). f_equal.
    apply EventArray_of_nullptr, raster_events_nil. intros ey ex Hey Hex.
    apply (norm_flow_event_None pack Hok ey ex Hey Hex). by apply Hunmarked. }
  split; [exact Hnull|]. intros rasters dt. by apply Visualization_of_null_flows.
Qed.

Lemma extracted_pack_without_flow_witness :
  pack_ok idle_pack
  /\ (forall dt, is_Some (ActiveEvents idle_pack dt))
  /\ is_Some (NormFlowEvents idle_pack)
  /\ NormFlowEvents idle_pack = Some nullptr
  /\ forall rasters dt, Visualization idle_pack rasters dt = None.
Proof.
  destruct (@extracted_pack_without_flow EigenLDLT_cramer Ransac_all_points
              CvConcat_rows (Dense.fill 5 5 0%float) (Dense.fill 5 5 0) 1.04%float
              0.1%float 1 1 0.8%float 0.001%float 50 idle_pack)
    as (Hok & Hact & Hflows & Hnone).
  - by apply DenseFacts.fill_wf.
  - split; [by apply DenseFacts.fill_wf|done].
  - vm_compute. reflexivity.
  - do 3 (split; [done|]). by apply Hnone.
Defined.

(** X23: the flows of a pack come in the order of the raster scan, row
    after row and left to right, and no pixel carries two of them. *)
Theorem flows_in_raster_order `{EigenLDLT float} `{Ransac}
    (rtsMat : Dense.t float) (pMat : Dense.t Z) (timeLast decaySec : float)
    (winSize neighborDist : Z) (goodRatioThd thd : float) (maxIter : Z)
    (pack : NormFlowPack) :
  ExtractNormFlows rtsMat pMat timeLast decaySec winSize neighborDist goodRatioThd thd
    maxIter = Some pack ->
  StronglySorted flow_raster_lt (nfs pack).
Proof.
  unfold ExtractNormFlows.
  destruct (for_each _ _ _) as [st|] eqn:Hscan; simpl; [|discriminate].
  intros [= <-]. simpl. revert Hscan.
  match goal with
  | |- for_each ?rows ?body ?init = _ -> _ =>
      intros Hscan;
      apply (for_each_prefix_inv
               (fun gone st => StronglySorted flow_raster_lt (st_nfs st)
                  /\ forall n, n ∈ st_nfs st -> snd (nf_p n) ∈ gone) rows body)
        in Hscan as [Hsorted _]; [done| |]
  end.
  - intros goneY y restY st0 st1 HlY [Hs0 Hrows0] Hrow.
    match type of Hrow with
    | for_each ?cols ?body _ = _ =>
        apply (for_each_prefix_inv
                 (fun gone st => StronglySorted flow_raster_lt (st_nfs st)
                    /\ forall n, n ∈ st_nfs st ->
                         snd (nf_p n) ∈ goneY
                         \/ (snd (nf_p n) = y /\ fst (nf_p n) ∈ gone)) cols body)
          in Hrow as [Hs1 Hrows1]
    end.
    + split; [done|]. intros n Hn. apply elem_of_app.
      destruct (Hrows1 n Hn) as [Hgone|[-> _]]; [by left|right; by left].
    + intros goneX x restX st2 st3 HlX [Hs2 Hrows2] Hpixel.
      apply scan_pixel_nfs in Hpixel as [->|(n & Hn & ->)].
      * split; [done|]. intros n0 Hn0.
        destruct (Hrows2 n0 Hn0) as [Hgone|[Hy Hx]]; [by left|right].
        split; [done|]. apply elem_of_app. by left.
      * split.
        -- apply StronglySorted_app_2; [|done|repeat constructor].
           intros n0 n1 Hn0 ->%list_elem_of_singleton. unfold flow_raster_lt.
           rewrite Hn. simpl.
           destruct (Hrows2 n0 Hn0) as [Hgone|[Hy Hx]].
           ++ left. exact (range_split_before _ _ _ _ _ _ HlY Hgone).
           ++ right. split; [done|]. exact (range_split_before _ _ _ _ _ _ HlX Hx).
        -- intros n0 [Hn0| ->%list_elem_of_singleton]%elem_of_app.
           ++ destruct (Hrows2 n0 Hn0) as [Hgone|[Hy Hx]]; [by left|right].
              split; [done|]. apply elem_of_app. by left.
           ++ right. rewrite Hn. simpl. split; [done|]. apply elem_of_app. right. by left.
    + split; [done|]. intros n Hn. left. by apply Hrows0.
  - split; [constructor|]. intros n Hn. by apply elem_of_nil in Hn.
Qed.

Lemma flows_in_raster_order_witness : StronglySorted flow_raster_lt (nfs edge_pack).
Proof.
  apply (@flows_in_raster_order EigenLDLT_cramer Ransac_all_points edge_map
           (Dense.fill 5 5 0) 1.04%float 0.1%float 1 1 0.8%float 0.001%float 50 edge_pack).
  vm_compute. reflexivity.
Defined.

(** X24: run on a well-formed surface, with an undistortion that keeps the
    size of an image, a window size or a neighbour distance that is not
    negative and a random search whose inliers are indices of its data, the
    extraction returns a pack: it is stamped with [GetTimeLatest] of the
    surface, its three maps have [imgHeight] rows and [imgWidth] columns, and
    both views are defined on it. *)
Theorem extraction_from_a_surface `{VisualUndistortionMap} `{FloatToUchar}
    `{EigenLDLT float} `{Ransac} (s : ActiveEventSurface) (decaySec : float)
    (winSize neighborDist : Z) (goodRatioThd thd : float) (maxIter : Z) :
  surface_ok s -> undistortion_keeps_size -> ransac_in_range ->
  0 <= Z.max winSize neighborDist ->
  exists pack,
    ExtractNormFlows_of_surface s decaySec winSize neighborDist goodRatioThd thd maxIter
    = Some pack
    /\ timestamp pack = GetTimeLatest s
    /\ mat_ok (imgHeight (_intri s)) (imgWidth (_intri s)) (rawTimeSurfaceMap pack)
    /\ mat_ok (imgHeight (_intri s)) (imgWidth (_intri s)) (polarityMap pack)
    /\ mat_ok (imgHeight (_intri s)) (imgWidth (_intri s)) (inliersOccupy pack)
    /\ (forall dt, is_Some (ActiveEvents pack dt))
    /\ is_Some (NormFlowEvents pack).
Proof.
  intros Hok Hundisto Hransac Hborder.
  destruct (RawTimeSurface_run s true Hok) as ([ts pm] & _ & Hraw & Hts & Hpm & _).
  destruct (Hundisto (_intri s) (imgHeight (_intri s)) (imgWidth (_intri s)))
    as [Hkeep64 Hkeep8].
  apply Hkeep64 in Hts. apply Hkeep8 in Hpm. simpl in Hts, Hpm.
  set (rtsMat := RemoveDistortion_64F (_intri s) ts) in *.
  set (pMat := RemoveDistortion_8U (_intri s) pm) in *.
  destruct (ExtractNormFlows_total Hransac rtsMat pMat (GetTimeLatest s) decaySec winSize
              neighborDist goodRatioThd thd maxIter (proj1 Hts) Hborder) as [pack Hpack].
  destruct (ExtractNormFlows_scanned _ _ _ _ _ _ _ _ _ _ (proj1 Hts) Hpack)
    as (occ & (_ & Hinl & _) & HpM & Hrts & Htime).
  simpl in Hinl. destruct Hts as (Hwf & Hrows & Hcols). rewrite Hrows, Hcols in Hinl.
  exists pack. split.
  { unfold ExtractNormFlows_of_surface. rewrite Hraw. exact Hpack. }
  split; [done|]. rewrite Hrts, HpM. do 3 (split; [done|]).
  assert (pack_ok pack) as Hpack_ok.
  { unfold pack_ok. rewrite Hrts, HpM, Hrows, Hcols. done. }
  split; [intros dt; rewrite (ActiveEvents_scan pack Hpack_ok); by eexists|].
  rewrite (NormFlowEvents_scan pack Hpack_ok). by eexists.
Qed.

Lemma extraction_from_a_surface_witness :
  exists pack,
    @ExtractNormFlows_of_surface no_distortion low_byte EigenLDLT_cramer
      Ransac_all_points fresh_64x48 0.1%float 1 1 0.8%float 0.001%float 50 = Some pack
    /\ timestamp pack = GetTimeLatest fresh_64x48
    /\ mat_ok 48 64 (rawTimeSurfaceMap pack)
    /\ mat_ok 48 64 (polarityMap pack)
    /\ mat_ok 48 64 (inliersOccupy pack)
    /\ (forall dt, is_Some (ActiveEvents pack dt))
    /\ is_Some (NormFlowEvents pack).
Proof.
  apply (@extraction_from_a_surface no_distortion low_byte EigenLDLT_cramer
           Ransac_all_points fresh_64x48 0.1%float 1 1 0.8%float 0.001%float 50).
  - apply surface_ok_new; simpl; lia.
  - exact no_distortion_keeps_size.
  - exact Ransac_all_points_in_range.
  - simpl; lia.
Defined.
